(** * mite-qtinstall: the download engine of [qti.py] and [qti_util.py]

    A shallow embedding of the Python functions that fetch, verify and
    store archives, and the properties of the download orchestration
    that follow from the code.

    Conventions of the embedding:
    - the interpreter state that the functions touch (files, standard
      output, the counters of the oracles below) is a [world], threaded
      explicitly;
    - what the program cannot decide (what a server answers, what
      [secrets.choice] draws, when a worker process finishes, what the
      hash of a content is) is read from an [env] of oracles, so every
      theorem holds for all servers, draws and schedules;
    - a Python exception is an [exn] (class name and message), a call
      returns an [outcome]: [Return v] or [Raise e];
    - command-line numbers ([type=float]) are rationals. *)

From Stdlib Require Import ZArith QArith Lia Ascii String.
From stdpp Require Import gmap strings list.

Local Open Scope string_scope.
Local Open Scope list_scope.
Local Open Scope nat_scope.

(* ===================================================================== *)
(** * Python values, exceptions and outcomes                              *)
(* ===================================================================== *)

Module Py.

Record exn := Exn { exn_class : string; exn_msg : string }.

Inductive outcome (A : Type) :=
| Return (v : A)
| Raise (e : exn).
Arguments Return {A} v.
Arguments Raise {A} e.

(** Classes that derive from [BaseException] but not from [Exception]:
    an [except Exception] clause lets them through. *)
Definition base_only : list string :=
  ["BaseException"; "SystemExit"; "KeyboardInterrupt"; "GeneratorExit"].

Definition is_Exception (e : exn) : bool :=
  bool_decide (exn_class e ∉ base_only).

(** [except C:] for a class [C] that has no subclass in this program. *)
Definition is_class (C : string) (e : exn) : bool :=
  bool_decide (exn_class e = C).

(** Truth value of a [str]. *)
Definition truthy (s : string) : bool :=
  match s with EmptyString => false | String _ _ => true end.

(** [int(x)] of a finite float: truncation towards zero. *)
Definition int (x : Q) : Z := Z.quot (Qnum x) (Zpos (Qden x)).

(** What [retrieve_URL] hands back: [None] when the loop body never
    ran, the [str] [""] after a download to a file, [bytes] otherwise. *)
Inductive value :=
| VNone
| VStr (s : string)
| VBytes (b : string).

Definition newline : string := String "010"%char EmptyString.

End Py.
Export Py.

(* ===================================================================== *)
(** * [os.path] on POSIX paths                                            *)
(* ===================================================================== *)

Module OsPath.

Definition is_sep (c : ascii) : bool := bool_decide (c = "/"%char).

Fixpoint has_sep (s : string) : bool :=
  match s with
  | EmptyString => false
  | String c r => is_sep c || has_sep r
  end.

Fixpoint all_sep (s : string) : bool :=
  match s with
  | EmptyString => true
  | String c r => is_sep c && all_sep r
  end.

(** [p[:p.rfind("/") + 1]] *)
Fixpoint upto_last_sep (s : string) : string :=
  match s with
  | EmptyString => EmptyString
  | String c r =>
      if has_sep r then String c (upto_last_sep r)
      else if is_sep c then String c EmptyString
      else EmptyString
  end.

(** [s.rstrip("/")] *)
Fixpoint rstrip_sep (s : string) : string :=
  match s with
  | EmptyString => EmptyString
  | String c r =>
      match rstrip_sep r with
      | EmptyString => if is_sep c then EmptyString else String c EmptyString
      | r' => String c r'
      end
  end.

(** [posixpath.dirname]: the head up to the last slash, its trailing
    slashes stripped unless it consists of slashes only. *)
Definition dirname (p : string) : string :=
  let head := upto_last_sep p in
  if truthy head && negb (all_sep head) then rstrip_sep head else head.

(** [s.split("/")[-1]] *)
Fixpoint last_segment (s : string) : string :=
  match s with
  | EmptyString => EmptyString
  | String c r =>
      if has_sep r then last_segment r
      else if is_sep c then r
      else String c r
  end.

Definition startswith_sep (s : string) : bool :=
  match s with
  | String c _ => is_sep c
  | EmptyString => false
  end.

Fixpoint endswith_sep (s : string) : bool :=
  match s with
  | EmptyString => false
  | String c EmptyString => is_sep c
  | String _ r => endswith_sep r
  end.

(** [posixpath.join(a, b)] *)
Definition join (a b : string) : string :=
  if startswith_sep b then b
  else if negb (truthy a) || endswith_sep a then a +:+ b
  else a +:+ "/" +:+ b.

(** The directories [os.makedirs(d)] walks through before [d]: every
    non-empty prefix of [d] that a slash follows. *)
Fixpoint parents (pre s : string) : list string :=
  match s with
  | EmptyString => []
  | String c r =>
      (if is_sep c && truthy pre then [pre] else [])
        ++ parents (pre +:+ String c EmptyString) r
  end.

End OsPath.

(* ===================================================================== *)
(** * The world                                                           *)
(* ===================================================================== *)

Module World.

(** What one [urllib.request.urlopen] and the reading of its response
    come to. *)
Inductive reply :=
| Body (content : string)               (* the whole body arrives *)
| Refused (e : exn)                     (* [urlopen] raises *)
| Broken (received : string) (e : exn). (* reading raises part-way *)

(** Lines written to standard output. *)
Inductive line :=
| Progress (ready_tasks total_tasks : nat) (no_print_s : Q)
| Completed (total_tasks : nat)
| Downloading (archives : nat) (mirror_URL : string)
| MirrorFailed (e : exn) (mirror_URL : string).

Inductive event :=
| Urlopen (URL : string) (timeout : Q)
| Sleep (seconds : Q)
| Print (l : line)
| PoolStart (processes : Z)
| PoolStop.

Record env := Env {
  digest : string -> string -> string;
                                 (* algorithm, content: the hex digest *)
  net : nat -> string -> reply;  (* the n-th [urlopen] of the run *)
  draw : nat -> nat;             (* the n-th draw of [secrets] *)
  finish : nat -> nat -> nat;    (* pool p, task i: the first poll that
                                    finds the task ready *)
}.

Record world := World {
  fs : gmap string string;       (* regular files: path to content *)
  dirs : gset string;            (* directories made so far *)
  opened : nat;                  (* calls of [urlopen] so far *)
  drawn : nat;                   (* draws so far *)
  pools : nat;                   (* pools created so far *)
  out : list event;              (* what happened, oldest first *)
}.

Definition M (A : Type) : Type := world -> world * outcome A.

Definition ret {A} (v : A) : M A := fun w => (w, Return v).
Definition raise {A} (e : exn) : M A := fun w => (w, Raise e).
Definition bind {A B} (c : M A) (k : A -> M B) : M B :=
  fun w =>
    match c w with
    | (w', Return v) => k v w'
    | (w', Raise e) => (w', Raise e)
    end.

Definition log (e : event) (w : world) : world :=
  World (fs w) (dirs w) (opened w) (drawn w) (pools w) (out w ++ [e]).
Definition set_fs (f : gmap string string) (w : world) : world :=
  World f (dirs w) (opened w) (drawn w) (pools w) (out w).
Definition set_dirs (d : gset string) (w : world) : world :=
  World (fs w) d (opened w) (drawn w) (pools w) (out w).

Definition emit (e : event) : M unit := fun w => (log e w, Return tt).
Definition print (l : line) : M unit := emit (Print l).

(** [open(path, "wb")] followed by the writing of [content]. *)
Definition write_file (path content : string) (w : world) : world :=
  set_fs (<[path := content]> (fs w)) w.

(** Number of network fetches recorded in a log. *)
Fixpoint fetches (l : list event) : nat :=
  match l with
  | [] => 0
  | Urlopen _ _ :: rest => S (fetches rest)
  | _ :: rest => fetches rest
  end.

End World.
Export World.

Declare Scope py_scope.
Delimit Scope py_scope with py.
Notation "x <- c ;; k" := (bind c (fun x => k))
  (at level 100, c at next level, right associativity) : py_scope.
Notation "c ;;; k" := (bind c (fun _ => k))
  (at level 100, right associativity) : py_scope.

Local Open Scope py_scope.

(* ===================================================================== *)
(** * [qti_util.py]                                                       *)
(* ===================================================================== *)

Module qti_util.

Definition HASH_ALG : string := "sha256".

Definition HashMismathError (msg : string) : exn :=
  Exn "HashMismathError" msg.

(** ** [dump_JSON]

    The function is a straight line of file-system primitives.  [data]
    is given by the chunks that [json.dump] writes, in order. *)

Inductive fsop :=
| Makedirs (d : string)            (* os.makedirs(d, exist_ok=True) *)
| OpenW (p : string)               (* open(p, "w"): create or truncate *)
| WriteChunk (p chunk : string)    (* one write on the open file *)
| Replace (src dst : string).      (* os.replace(src, dst) *)

(** [os.makedirs(d, exist_ok=True)]; the empty path names nothing. *)
Definition makedirs (d : string) : M unit :=
  fun w =>
    if truthy d
    then (set_dirs (dirs w ∪ list_to_set (OsPath.parents "" d ++ [d])) w,
          Return tt)
    else (w, Raise (Exn "FileNotFoundError" d)).

Definition exec (op : fsop) : M unit :=
  fun w =>
    match op with
    | Makedirs d => makedirs d w
    | OpenW p => (write_file p "" w, Return tt)
    | WriteChunk p chunk =>
        (write_file p (default "" (fs w !! p) +:+ chunk) w, Return tt)
    | Replace src dst =>
        match fs w !! src with
        | Some c => (set_fs (<[dst := c]> (delete src (fs w))) w, Return tt)
        | None => (w, Raise (Exn "FileNotFoundError" src))
        end
    end.

(** [fault = Some n]: the environment lets [n] primitives through and
    fails the next one (disk full, permission, the process killed);
    [None]: nothing fails. *)
Fixpoint run_ops (fault : option nat) (ops : list fsop) : M unit :=
  match ops with
  | [] => ret tt
  | op :: rest =>
      match fault with
      | Some O => raise (Exn "OSError" "the operation failed")
      | _ => exec op ;;; run_ops (pred <$> fault) rest
      end
  end.

Definition dump_JSON_ops (data : list string) (out_file : string)
  : list fsop :=
  let out_dir := OsPath.dirname out_file in
  let tmp_file := out_file +:+ ".tmp" in
  (if truthy out_dir then [Makedirs out_dir] else [])
    ++ OpenW tmp_file :: map (WriteChunk tmp_file) data
    ++ [Replace tmp_file out_file].

Definition dump_JSON (fault : option nat) (data : list string)
    (out_file : string) : M unit :=
  run_ops fault (dump_JSON_ops data out_file).

Section WithEnv.
Context (E : env).

(** ** [compute_hash] *)
Definition compute_hash (file hash_alg : string) : M string :=
  fun w =>
    match fs w !! file with
    | Some content => (w, Return (digest E hash_alg content))
    | None => (w, Raise (Exn "FileNotFoundError" file))
    end.

(** ** [retrieve_URL] *)

(** [time.sleep] *)
Definition sleep (seconds : Q) : M unit :=
  fun w =>
    if Qle_bool 0 seconds then (log (Sleep seconds) w, Return tt)
    else (w, Raise (Exn "ValueError" "sleep length must be non-negative")).

Definition urlopen (URL : string) (timeout : Q) (w : world)
  : world * reply :=
  (World (fs w) (dirs w) (S (opened w)) (drawn w) (pools w)
         (out w ++ [Urlopen URL timeout]),
   net E (opened w) URL).

(** The body of the [try]. *)
Definition attempt_once (URL filepath : string) (timeout_s : Q)
  : M value :=
  fun w =>
    let '(w1, r) := urlopen URL timeout_s w in
    match r with
    | Refused e => (w1, Raise e)
    | Body content =>
        if truthy filepath
        then (write_file filepath content w1, Return (VStr ""))
        else (w1, Return (VBytes content))
    | Broken received e =>
        if truthy filepath
        then (write_file filepath received w1, Raise e)
        else (w1, Raise e)
    end.

(** [for attempt in range(attempts)], [todo] iterations to go. *)
Fixpoint retrieve_loop (todo : nat) (attempt attempts : Z)
    (URL filepath : string) (timeout_s attempt_delay_s : Q) : M value :=
  match todo with
  | O => ret VNone
  | S todo' =>
      fun w =>
        match attempt_once URL filepath timeout_s w with
        | (w1, Return contents) => (w1, Return contents)
        | (w1, Raise e) =>
            if is_Exception e then
              if (attempt + 1 =? attempts)%Z then (w1, Raise e)
              else
                (sleep attempt_delay_s ;;;
                 retrieve_loop todo' (attempt + 1) attempts
                   URL filepath timeout_s attempt_delay_s) w1
            else (w1, Raise e)
        end
  end.

Definition retrieve_URL (URL filepath : string) (opts : Q * Q * Q)
  : M value :=
  let '(timeout_s, attempt_delay_s, attempts) := opts in
  let attempts := int attempts in
  retrieve_loop (Z.to_nat attempts) 0 attempts
    URL filepath timeout_s attempt_delay_s.

(** ** [pool_apply]

    A worker runs a task to its outcome; the coordinating process
    sees the outcome from poll [ready_at] on.  The effects of the
    workers are applied in task order. *)

Record AsyncResult (R : Type) :=
  Async { ready_at : nat; result : outcome R }.
Arguments Async {R} _ _.
Arguments ready_at {R} _.
Arguments result {R} _.

Definition check_progress_interval : Q := 1 # 4.

Fixpoint apply_async {A R} (_func : A -> M R) (async_args : list A)
    (pool i : nat) (w : world) : world * list (AsyncResult R) :=
  match async_args with
  | [] => (w, [])
  | async_a :: rest =>
      let '(w1, r) := _func async_a w in
      let '(w2, tasks) := apply_async _func rest pool (S i) w1 in
      (w2, Async (finish E pool i) r :: tasks)
  end.

(** [for task in tasks] at poll [now]. *)
Fixpoint scan {R} (now : nat) (tasks : list (AsyncResult R))
    (ready_tasks : nat) : outcome nat :=
  match tasks with
  | [] => Return ready_tasks
  | task :: rest =>
      if (ready_at task <=? now)%nat then
        match result task with
        | Raise e => Raise e
        | Return _ => scan now rest (S ready_tasks)
        end
      else scan now rest ready_tasks
  end.

(** [while ready_tasks < total_tasks], [now] polls done. *)
Fixpoint poll {R} (fuel now : nat) (tasks : list (AsyncResult R))
    (total_tasks ready_tasks : nat) (no_print_s print_delay_s : Q)
    (w : world) : option (world * outcome unit) :=
  if (ready_tasks <? total_tasks)%nat then
    match fuel with
    | O => None
    | S fuel' =>
        match sleep check_progress_interval w with
        | (w1, Raise e) => Some (w1, Raise e)
        | (w1, Return _) =>
            let no_print_s := Qred (no_print_s + check_progress_interval) in
            match scan (S now) tasks 0 with
            | Raise e => Some (w1, Raise e)
            | Return ready_tasks =>
                if Qle_bool print_delay_s no_print_s then
                  poll fuel' (S now) tasks total_tasks ready_tasks
                    0 print_delay_s
                    (log (Print (Progress ready_tasks total_tasks
                                   no_print_s)) w1)
                else
                  poll fuel' (S now) tasks total_tasks ready_tasks
                    no_print_s print_delay_s w1
            end
        end
    end
  else Some (w, Return tt).

(** [[task.get() for task in tasks]] *)
Fixpoint gets {R} (tasks : list (AsyncResult R)) : outcome (list R) :=
  match tasks with
  | [] => Return []
  | task :: rest =>
      match result task with
      | Raise e => Raise e
      | Return r =>
          match gets rest with
          | Raise e => Raise e
          | Return rs => Return (r :: rs)
          end
      end
  end.

Definition last_ready {R} (tasks : list (AsyncResult R)) : nat :=
  foldr Nat.max 0 (map ready_at tasks).

(** [multiprocessing.Pool(processes, init_worker)] *)
Definition Pool (processes : Z) : M nat :=
  fun w =>
    if (processes <? 1)%Z
    then (w, Raise (Exn "ValueError"
                      "Number of processes must be at least 1"))
    else (World (fs w) (dirs w) (opened w) (drawn w) (S (pools w))
                (out w ++ [PoolStart processes]),
          Return (pools w)).

Definition pool_apply {A R} (_func : A -> M R) (async_args : list A)
    (async_opts : Q * Q) (w : world)
  : option (world * outcome (list R)) :=
  let '(workers_num, print_delay_s) := async_opts in
  let workers_num := int workers_num in
  match Pool workers_num w with
  | (w0, Raise e) => Some (w0, Raise e)
  | (w0, Return pool) =>
      let '(w1, tasks) := apply_async _func async_args pool 0 w0 in
      let total_tasks := length tasks in
      match poll (S (last_ready tasks)) 0 tasks total_tasks 0 0
              print_delay_s w1 with
      | None => None
      | Some (w2, Raise e) => Some (log PoolStop w2, Raise e)
      | Some (w2, Return _) =>
          match gets tasks with
          | Raise e => Some (log PoolStop w2, Raise e)
          | Return async_results =>
              Some (log PoolStop
                      (log (Print (Completed total_tasks)) w2),
                    Return async_results)
          end
      end
  end.

End WithEnv.

Arguments Async {R} _ _.
Arguments ready_at {R} _.
Arguments result {R} _.

End qti_util.

(* ===================================================================== *)
(** * [qti.py]                                                            *)
(* ===================================================================== *)

Module qti.
Import qti_util.

(** One entry of [<qt-version>.json]:
    [{"rel_path": ..., "sha256": ...}]. *)
Record archive_info := ArchiveInfo { rel_path : string; sha256 : string }.

Definition get_archive_filepath (info : archive_info)
    (archives_dir : string) : string :=
  let archive_filename := OsPath.last_segment (rel_path info) in
  OsPath.join archives_dir archive_filename.

(** [computed_hash and computed_hash == archive_info[HASH_ALG]] *)
Definition hash_accepted (computed_hash : string) (info : archive_info)
  : bool :=
  truthy computed_hash && bool_decide (computed_hash = sha256 info).

Definition archive_URL (info : archive_info) (ver_path mirror_URL : string)
  : string :=
  mirror_URL +:+ "/online/qtsdkrepository/" +:+ ver_path +:+ "/"
    +:+ rel_path info.

Definition mismatch_msg (info : archive_info)
    (computed_hash archive_filepath URL : string) : string :=
  "Hash mismatch of just downloaded file" +:+ newline
    +:+ "    expected " +:+ sha256 info +:+ newline
    +:+ "    computed " +:+ computed_hash +:+ newline
    +:+ "    for file " +:+ archive_filepath +:+ newline
    +:+ "    downloaded from " +:+ URL.

Definition task_args : Type := archive_info * string * string * string
                               * (Q * Q * Q).

(** [l.remove(x)]: the first occurrence goes; [None] stands for the
    [ValueError] of a missing element. *)
Fixpoint list_remove (x : string) (l : list string)
  : option (list string) :=
  match l with
  | [] => None
  | y :: rest =>
      if decide (y = x) then Some rest
      else (y ::.) <$> list_remove x rest
  end.

Section WithEnv.
Context (E : env).

(** The arguments of the tasks of one batch, one per archive, in the
    order of [archives.values()]. *)
Definition build_async_args (archives : list (string * archive_info))
    (ver_path mirror_URL out_dir : string) (req_opts : Q * Q * Q)
  : list task_args :=
  map (fun a => (a.2, ver_path, mirror_URL, out_dir, req_opts)) archives.

(** The [try] around the first [compute_hash]. *)
Definition hash_on_disk (archive_filepath : string) : M string :=
  fun w =>
    match compute_hash E archive_filepath HASH_ALG w with
    | (w1, Raise e) =>
        if is_class "FileNotFoundError" e then (w1, Return "")
        else (w1, Raise e)
    | r => r
    end.

Definition _download_archive (info : archive_info)
    (ver_path mirror_URL out_dir : string) (req_opts : Q * Q * Q)
  : M unit :=
  let archive_filepath := get_archive_filepath info out_dir in
  computed_hash <- hash_on_disk archive_filepath ;;
  if hash_accepted computed_hash info then ret tt
  else
    let URL := archive_URL info ver_path mirror_URL in
    retrieve_URL E URL archive_filepath req_opts ;;;
    computed_hash <- compute_hash E archive_filepath HASH_ALG ;;
    if hash_accepted computed_hash info then ret tt
    else raise (HashMismathError
                  (mismatch_msg info computed_hash archive_filepath URL)).

Definition run_task (a : task_args) : M unit :=
  let '(info, ver_path, mirror_URL, out_dir, req_opts) := a in
  _download_archive info ver_path mirror_URL out_dir req_opts.

(** [secrets.choice(seq)] *)
Definition choice (seq : list string) : M string :=
  fun w =>
    match seq !! (draw E (drawn w) mod length seq)%nat with
    | Some x =>
        (World (fs w) (dirs w) (opened w) (S (drawn w)) (pools w) (out w),
         Return x)
    | None =>
        (w, Raise (Exn "IndexError" "Cannot choose from an empty sequence"))
    end.

(** [while working_mirrors].  The list is the caller's own object:
    the loop hands back what is left of it. *)
Fixpoint download_loop (fuel : nat)
    (archives : list (string * archive_info)) (ver_path : string)
    (working_mirrors : list string) (out_dir : string)
    (async_opts : Q * Q) (req_opts : Q * Q * Q) (w : world)
  : option (world * list string * outcome unit) :=
  match working_mirrors with
  | [] => Some (w, working_mirrors,
                Raise (Exn "SystemExit" "All mirrors unreachable."))
  | _ :: _ =>
      match fuel with
      | O => None
      | S fuel' =>
          match choice working_mirrors w with
          | (w1, Raise e) => Some (w1, working_mirrors, Raise e)
          | (w1, Return mirror_URL) =>
              let async_args :=
                build_async_args archives ver_path mirror_URL out_dir
                  req_opts in
              let w2 := log (Print (Downloading (length async_args)
                                      mirror_URL)) w1 in
              match pool_apply E run_task async_args async_opts w2 with
              | None => None
              | Some (w3, Return _) =>
                  Some (w3, working_mirrors, Return tt)
              | Some (w3, Raise e) =>
                  if is_class "HashMismathError" e
                  then Some (w3, working_mirrors, Raise e)
                  else if is_Exception e then
                    let w4 := log (Print (MirrorFailed e mirror_URL))
                                w3 in
                    match list_remove mirror_URL working_mirrors with
                    | Some rest =>
                        download_loop fuel' archives ver_path rest
                          out_dir async_opts req_opts w4
                    | None =>
                        Some (w4, working_mirrors,
                              Raise (Exn "ValueError"
                                "list.remove(x): x not in list"))
                    end
                  else Some (w3, working_mirrors, Raise e)
              end
          end
      end
  end.

Definition download_archives (archives : list (string * archive_info))
    (ver_path : string) (mirrors : list string) (out_dir : string)
    (async_opts : Q * Q) (req_opts : Q * Q * Q) (w : world)
  : option (world * list string * outcome unit) :=
  let working_mirrors := mirrors in
  match makedirs out_dir w with
  | (w0, Raise e) => Some (w0, working_mirrors, Raise e)
  | (w0, Return _) =>
      download_loop (length working_mirrors) archives ver_path
        working_mirrors out_dir async_opts req_opts w0
  end.

End WithEnv.

End qti.

(* ===================================================================== *)
(** * Vocabulary of the statements                                        *)
(* ===================================================================== *)

Module Obs.
Import qti_util qti.

(** The exception an attempt ends with, if it fails. *)
Definition reply_exn (r : reply) : option exn :=
  match r with
  | Body _ => None
  | Refused e | Broken _ e => Some e
  end.

(** The log of [k] attempts on one URL with a sleep of [delay] between
    two consecutive ones. *)
Fixpoint attempts_log (URL : string) (timeout delay : Q) (k : nat)
  : list event :=
  match k with
  | O => []
  | S k' =>
      Urlopen URL timeout ::
        match k' with
        | O => []
        | S _ => Sleep delay :: attempts_log URL timeout delay k'
        end
  end.

Definition succeeded {R} (t : AsyncResult R) : Prop :=
  ∃ r, result t = Return r.

(** The mirrors named by the "Failed to fetch an archive from" lines
    of a log, in order. *)
Fixpoint failed_mirrors (l : list event) : list string :=
  match l with
  | [] => []
  | Print (MirrorFailed _ mirror_URL) :: rest =>
      mirror_URL :: failed_mirrors rest
  | _ :: rest => failed_mirrors rest
  end.

(** The mirrors named by the "Downloading ... from" lines of a log. *)
Fixpoint chosen_mirrors (l : list event) : list string :=
  match l with
  | [] => []
  | Print (Downloading _ mirror_URL) :: rest =>
      mirror_URL :: chosen_mirrors rest
  | _ :: rest => chosen_mirrors rest
  end.

(** The text that the chunks of [json.dump] add up to. *)
Definition written (data : list string) : string :=
  foldr String.append "" data.

(** [needle in haystack] on [str]. *)
Fixpoint occurs_in (needle haystack : string) : bool :=
  String.prefix needle haystack ||
  match haystack with
  | EmptyString => false
  | String _ rest => occurs_in needle rest
  end.

(** The policy of the specification, in its words: true only if the
    file exists, its digest equals [expectedHash], and [expectedHash]
    is non-empty. *)
Definition spec_isAlreadyValid (E : env) (w : world)
    (filePath expectedHash : string) : bool :=
  match fs w !! filePath with
  | Some content =>
      bool_decide (digest E HASH_ALG content = expectedHash)
        && truthy expectedHash
  | None => false
  end.

(** [extends P w w']: the log of [w'] is the log of [w] followed by
    events that all satisfy [P]. *)
Definition extends (P : event → Prop) (w w' : world) : Prop :=
  ∃ l, out w' = out w ++ l ∧ Forall P l.

(** What the polling loop logs. *)
Definition poll_event (e : event) : Prop :=
  match e with
  | Sleep _ | Print (Progress _ _ _) => True
  | _ => False
  end.

(** What [pool_apply] logs once the tasks are submitted. *)
Definition pool_event (e : event) : Prop :=
  match e with
  | Sleep _ | Print (Progress _ _ _) | Print (Completed _) | PoolStop => True
  | _ => False
  end.

(** What [retrieve_URL] logs. *)
Definition net_event (e : event) : Prop :=
  match e with Urlopen _ _ | Sleep _ => True | _ => False end.

(** What a batch logs: anything but the two lines that
    [download_archives] prints itself. *)
Definition batch_event (e : event) : Prop :=
  match e with
  | Print (Downloading _ _) | Print (MirrorFailed _ _) => False
  | _ => True
  end.

(** A "Failed to fetch" line stands for a failure of the network class:
    an [Exception] that is no [HashMismathError]. *)
Definition network_class (e : exn) : Prop :=
  is_Exception e = true ∧ is_class "HashMismathError" e = false.

Definition failure_line_ok (ev : event) : Prop :=
  match ev with
  | Print (MirrorFailed e _) => network_class e
  | _ => True
  end.

(** An event that is no request. *)
Definition idle_event (e : event) : Prop :=
  match e with Urlopen _ _ => False | _ => True end.

(** Every archive of the batch is on disk with a digest that matches its
    non-empty expected hash. *)
Definition all_valid (E : env) (archives : list (string * archive_info))
    (out_dir : string) (w : world) : Prop :=
  ∀ a, a ∈ archives →
    spec_isAlreadyValid E w (get_archive_filepath a.2 out_dir) (sha256 a.2)
    = true.

(** What follows the first test of [_download_archive] when it fails:
    lines 133 to 145. *)
Definition fetch_and_verify (E : env) (info : archive_info)
    (ver_path mirror_URL out_dir : string) (req_opts : Q * Q * Q)
  : M unit :=
  let archive_filepath := get_archive_filepath info out_dir in
  let URL := archive_URL info ver_path mirror_URL in
  retrieve_URL E URL archive_filepath req_opts ;;;
  computed_hash <- compute_hash E archive_filepath HASH_ALG ;;
  if hash_accepted computed_hash info then ret tt
  else raise (HashMismathError
                (mismatch_msg info computed_hash archive_filepath URL)).

End Obs.

(* ===================================================================== *)
(** * Concrete worlds                                                     *)
(* ===================================================================== *)

Module Examples.
Import qti_util qti Obs.

Definition url_err : exn := Exn "URLError" "<urlopen error timed out>".

(** A stand-in for the hash function: never the empty string. *)
Definition toy_digest (hash_alg content : string) : string :=
  "h:" +:+ content.

Definition w_init : world := World ∅ ∅ 0 0 0 [].

(** No server answers; [secrets] draws 0; every task is ready at the
    first poll. *)
Definition E_down : env :=
  Env toy_digest (fun _ _ => Refused url_err) (fun _ => 0) (fun _ _ => 1).

(** Every server answers every URL with the body ["data"]. *)
Definition E_up : env :=
  Env toy_digest (fun _ _ => Body "data") (fun _ => 0) (fun _ _ => 1).

(** Three tasks of which the last submitted finishes first and the
    first submitted last. *)
Definition E_latency : env :=
  Env toy_digest (fun _ _ => Refused url_err) (fun _ => 0)
      (fun _ i => 3 - i).

Definition echo (name : string) : M string := ret ("result" +:+ name).

Definition ver_path_640 : string := "linux_x64/desktop/qt6_640".

(** An archive whose hash has not been filled in, and the same with the
    hash of what [E_up] serves. *)
Definition qtbase_unhashed : archive_info :=
  ArchiveInfo "qt.qt6.640.gcc_64/6.4.0qtbase.7z" "".
Definition qtbase : archive_info :=
  ArchiveInfo "qt.qt6.640.gcc_64/6.4.0qtbase.7z" "h:data".

(** Two archives; every server refuses the first and serves a corrupt
    file for the second. *)
Definition pkg_a : archive_info := ArchiveInfo "pkg/a.7z" "h:good-a".
Definition pkg_b : archive_info := ArchiveInfo "pkg/b.7z" "h:good-b".

(** An archive whose expected hash is not the hash of what [E_up]
    serves. *)
Definition qtbase_tampered : archive_info :=
  ArchiveInfo "qt.qt6.640.gcc_64/6.4.0qtbase.7z" "h:genuine".

(** The worlds of a first round on ["https://mirror.example"] that ends
    with the hash mismatch of [qtbase_tampered]. *)
Definition two_mirrors : list string :=
  ["https://mirror.example"; "https://download.qt.io"].
Definition w_start : world := World ∅ {["archives"]} 0 0 0 [].
Definition w_chosen : world := World ∅ {["archives"]} 0 1 0 [].
Definition w_mismatch : world :=
  World {["archives/6.4.0qtbase.7z" := "data"]} {["archives"]} 1 1 1
    [Print (Downloading 1 "https://mirror.example"); PoolStart 5;
     Urlopen (archive_URL qtbase_tampered ver_path_640
                "https://mirror.example") 15;
     Sleep (1 # 4); PoolStop].
Definition e_mismatch : exn :=
  HashMismathError
    (mismatch_msg qtbase_tampered "h:data" "archives/6.4.0qtbase.7z"
       (archive_URL qtbase_tampered ver_path_640 "https://mirror.example")).

Definition E_mixed : env :=
  Env toy_digest
      (fun _ URL => if occurs_in "b.7z" URL then Body "corrupt"
                    else Refused url_err)
      (fun _ => 0) (fun _ _ => 1).

End Examples.
Import qti_util qti Obs Examples.

(* ===================================================================== *)
(** * The rest of [qti_util.py]                                           *)
(* ===================================================================== *)

Module qti_util_rest.
Import qti_util.

(** [seq[:n]]: the first [n] items, or all but the last [-n] when [n] is
    negative. *)
Definition slice_to {A : Type} (n : Z) (l : list A) : list A :=
  if (0 <=? n)%Z then take (Z.to_nat n) l
  else take (length l - Z.to_nat (- n)) l.

(** [force_len(list_obj, length, pad)]; [[pad] * length] is empty for a
    negative [length]. *)
Definition force_len (list_obj : list string) (length : Z) (pad : string)
  : list string :=
  let true_els_list := List.filter truthy list_obj in
  let overpadded_list := true_els_list ++ replicate (Z.to_nat length) pad in
  slice_to length overpadded_list.

Section WithEnv.
Context (E : env).
(** [bytes.decode(errors="replace")], which never fails. *)
Context (decode : string → string).

(** [retrieve_URL(URL, "", opts).decode(errors="replace")] *)
Definition retrieve_URL_str (URL : string) (opts : Q * Q * Q) : M string :=
  contents <- retrieve_URL E URL "" opts ;;
  match contents with
  | VBytes b => ret (decode b)
  | VNone =>
      raise (Exn "AttributeError"
               "'NoneType' object has no attribute 'decode'")
  | VStr _ =>
      raise (Exn "AttributeError" "'str' object has no attribute 'decode'")
  end.

End WithEnv.

End qti_util_rest.

(* ===================================================================== *)
(** * The rest of [qti.py]                                                *)
(* ===================================================================== *)

Module qti_rest.
Import qti_util qti.

(** [os.remove(path)] *)
Definition remove (path : string) : M unit :=
  fun w =>
    match fs w !! path with
    | Some _ => (set_fs (delete path (fs w)) w, Return tt)
    | None => (w, Raise (Exn "FileNotFoundError" path))
    end.

(** [p] lies under the directory [d]. *)
Definition inside (d p : string) : bool :=
  String.prefix (if OsPath.endswith_sep d then d else d +:+ "/") p.

(** [with contextlib.suppress(OSError): os.rmdir(d)]: the directory goes
    when nothing is left under it; every refusal of [os.rmdir] is an
    [OSError] and is swallowed. *)
Definition rmdir_suppressed (d : string) : M unit :=
  fun w =>
    if bool_decide (map_Forall (fun p _ => inside d p = false) (fs w))
       && bool_decide (set_Forall (fun p => inside d p = false) (dirs w))
    then (set_dirs (dirs w ∖ {[d]}) w, Return tt)
    else (w, Return tt).

(** [for archive_info in archives.values(): os.remove(...)] *)
Fixpoint remove_each (archives : list (string * archive_info))
    (archives_dir : string) : M unit :=
  match archives with
  | [] => ret tt
  | a :: rest =>
      remove (get_archive_filepath a.2 archives_dir) ;;;
      remove_each rest archives_dir
  end.

Definition remove_archives (archives : list (string * archive_info))
    (archives_dir : string) : M unit :=
  remove_each archives archives_dir ;;;
  rmdir_suppressed archives_dir.

(** A [dict] with [str] keys, in insertion order. *)
Fixpoint dict_get {V : Type} (k : string) (d : list (string * V))
  : option V :=
  match d with
  | [] => None
  | (k', v) :: rest => if decide (k' = k) then Some v else dict_get k rest
  end.

(** [d[k] = v]: in place when the key is there, at the end otherwise. *)
Fixpoint dict_set {V : Type} (k : string) (v : V) (d : list (string * V))
  : list (string * V) :=
  match d with
  | [] => [(k, v)]
  | (k', v') :: rest =>
      if decide (k' = k) then (k, v) :: rest
      else (k', v') :: dict_set k v rest
  end.

Definition not_found_msg (requested_archive arch ver_info_JSON : string)
  : string :=
  "'" +:+ requested_archive +:+ "' archive not found for arch '" +:+ arch
    +:+ "'" +:+ newline +:+ "    in " +:+ ver_info_JSON.

(** [for requested_archive in args.archives], lines 207 to 212 of
    [download_unpack_archives]. *)
Fixpoint select_loop (requested : list string)
    (available_archives : list (string * archive_info))
    (arch ver_info_JSON : string) (archives : list (string * archive_info))
  : outcome (list (string * archive_info)) :=
  match requested with
  | [] => Return archives
  | requested_archive :: rest =>
      match dict_get requested_archive available_archives with
      | None =>
          Raise (Exn "SystemExit"
                   (not_found_msg requested_archive arch ver_info_JSON))
      | Some info =>
          select_loop rest available_archives arch ver_info_JSON
            (dict_set requested_archive info archives)
      end
  end.

(** The choice of the archives in [download_unpack_archives], lines 202
    to 212, from the loaded JSON. *)
Definition select_archives (requested : list string)
    (available_archives_per_arch :
       list (string * list (string * archive_info)))
    (arch ver_info_JSON : string)
  : outcome (list (string * archive_info)) :=
  match dict_get arch available_archives_per_arch with
  | None => Raise (Exn "KeyError" ("'" +:+ arch +:+ "'"))
  | Some available_archives =>
      if bool_decide ("all" ∈ requested) then Return available_archives
      else select_loop requested available_archives arch ver_info_JSON []
  end.

End qti_rest.

(* ===================================================================== *)
(** * [get_data.py]: the names of packages and archives                   *)
(* ===================================================================== *)

Module get_data.
Import Obs.

(** [s[s.find(needle):]] for a [needle] that occurs in [s]. *)
Fixpoint from_first (needle s : string) : string :=
  if String.prefix needle s then s
  else match s with
       | EmptyString => EmptyString
       | String _ rest => from_first needle rest
       end.

(** [s.split(".")[-1]] *)
Fixpoint last_after_dot (s : string) : string :=
  match s with
  | EmptyString => EmptyString
  | String c rest =>
      if occurs_in "." rest then last_after_dot rest
      else if bool_decide (c = "."%char) then rest
      else String c rest
  end.

Definition arch_from_pkg_name (pkg_name : string) : string :=
  if occurs_in "debug_info" pkg_name
  then from_first "debug_info" pkg_name
  else last_after_dot pkg_name.

(** One of [-Windows], [-Linux], [-MacOS] starts here. *)
Definition at_marker (s : string) : bool :=
  String.prefix "-Windows" s || String.prefix "-Linux" s
  || String.prefix "-MacOS" s.

(** [re.split(r"-Windows|-Linux|-MacOS", archive)[0]]: what comes before
    the leftmost marker. *)
Fixpoint shorten_archive_name (archive : string) : string :=
  if at_marker archive then EmptyString
  else match archive with
       | EmptyString => EmptyString
       | String c rest => String c (shorten_archive_name rest)
       end.

End get_data.

(* ===================================================================== *)
(** * Vocabulary of the further statements                                *)
(* ===================================================================== *)

Module ObsRest.
Import qti_util qti qti_rest.

(** Number of [time.sleep] calls recorded in a log. *)
Fixpoint sleeps (l : list event) : nat :=
  match l with
  | [] => 0
  | Sleep _ :: rest => S (sleeps rest)
  | _ :: rest => sleeps rest
  end.

Definition failed {R : Type} (t : AsyncResult R) : Prop :=
  ∃ e, result t = Raise e.

(** The poll at which the coordinating process first sees the task
    ready: polls are numbered from 1. *)
Definition seen_at {R : Type} (t : AsyncResult R) : nat :=
  Nat.max 1 (ready_at t).

(** The destination paths of a batch. *)
Definition paths (archives : list (string * archive_info))
    (archives_dir : string) : list string :=
  map (fun a => get_archive_filepath a.2 archives_dir) archives.

(** The keys of a dictionary, in order. *)
Definition keys {V : Type} (d : list (string * V)) : list string :=
  map fst d.

(** [s] ends with [t]. *)
Definition is_suffix (t s : string) : Prop := ∃ pre, s = pre +:+ t.

(** The items of a list at their first occurrence, in order. *)
Fixpoint distinct (l : list string) : list string :=
  match l with
  | [] => []
  | k :: rest => k :: filter (fun k' => k' ≠ k) (distinct rest)
  end.

End ObsRest.
Import qti_util_rest qti_rest get_data ObsRest.

(* ===================================================================== *)
(** * Further concrete worlds                                             *)
(* ===================================================================== *)

Module ExamplesRest.
Import qti_util qti Obs Examples.

(** The first request breaks off after two bytes, the second gets the
    whole body. *)
Definition E_flaky : env :=
  Env toy_digest
      (fun n _ => match n with
                  | O => Broken "da" url_err
                  | S _ => Body "data"
                  end)
      (fun _ => 0) (fun _ _ => 1).

(** Every request is interrupted from the keyboard. *)
Definition interrupt : exn := Exn "KeyboardInterrupt" "".
Definition E_interrupted : env :=
  Env toy_digest (fun _ _ => Refused interrupt) (fun _ => 0) (fun _ _ => 1).

(** A task that succeeds for ["C"] only. *)
Definition only_C (name : string) : M string :=
  if bool_decide (name = "C") then ret "resultC"
  else raise (Exn "URLError" name).

Definition w_pool : world := World ∅ ∅ 0 0 1 [PoolStart 5].

Definition qtsvg : archive_info :=
  ArchiveInfo "qt.qt6.640.gcc_64/6.4.0qtsvg.7z" "h:data".

(** The mirror at [mirror.example] is down, every other server serves
    ["data"]. *)
Definition E_failover : env :=
  Env toy_digest
      (fun _ URL => if occurs_in "mirror.example" URL
                    then Refused url_err else Body "data")
      (fun _ => 0) (fun _ _ => 1).


(** The table of one architecture, and the loaded data of a version. *)
Definition table_gcc : list (string * archive_info) :=
  [("qtbase", qtbase); ("qtsvg", qtsvg)].
Definition per_arch : list (string * list (string * archive_info)) :=
  [("gcc_64", table_gcc)].

End ExamplesRest.
Import ExamplesRest.

(* ===================================================================== *)
(** * [retrieve_URL]                                                      *)
(* ===================================================================== *)

Section Retrieve.
Context (E : env).

Lemma attempt_once_spec URL filepath timeout_s w w1 o :
  attempt_once E URL filepath timeout_s w = (w1, o) →
  out w1 = out w ++ [Urlopen URL timeout_s] ∧
  opened w1 = S (opened w) ∧
  match o with
  | Return _ => reply_exn (net E (opened w) URL) = None
  | Raise e => reply_exn (net E (opened w) URL) = Some e
  end.
Proof.
  unfold attempt_once, urlopen. intros H.
  destruct (net E (opened w) URL) as [c|e|c e];
    destruct (truthy filepath); inversion H; subst; cbn; auto.
Qed.

Lemma attempts_log_S URL timeout delay k :
  1 ≤ k →
  attempts_log URL timeout delay (S k)
  = Urlopen URL timeout :: Sleep delay :: attempts_log URL timeout delay k.
Proof. destruct k; [lia | reflexivity]. Qed.

Lemma retrieve_loop_spec URL filepath timeout_s delay attempts :
  ∀ todo attempt w w' r,
    (attempt + Z.of_nat todo = attempts)%Z →
    1 ≤ todo →
    retrieve_loop E todo attempt attempts URL filepath timeout_s delay w
    = (w', r) →
    ∃ k, 1 ≤ k ≤ todo ∧
         out w' = out w ++ attempts_log URL timeout_s delay k ∧
         opened w' = opened w + k ∧
         (∀ e, k = todo →
               reply_exn (net E (opened w + todo - 1) URL) = Some e →
               r = Raise e) ∧
         (∀ e, r = Raise e →
               reply_exn (net E (opened w + k - 1) URL) = Some e ∨
               (Qle_bool 0 delay = false ∧
                e = Exn "ValueError" "sleep length must be non-negative")).
Proof.
  induction todo as [|todo IH]; intros attempt w w' r Hinv Hpos Hrun;
    [lia|].
  cbn [retrieve_loop] in Hrun.
  destruct (attempt_once E URL filepath timeout_s w) as [w1 o] eqn:Hatt.
  apply attempt_once_spec in Hatt as (Hout & Hop & Hrep).
  assert (Hidx : opened w + 1 - 1 = opened w) by lia.
  destruct o as [v|e].
  - (* the attempt succeeds *)
    inversion Hrun; subst. exists 1. rewrite Hidx.
    repeat split; try lia; auto.
    + intros e Hk. assert (todo = 0) by lia. subst.
      rewrite Hidx, Hrep. discriminate.
    + discriminate.
  - destruct (is_Exception e) eqn:Hexc.
    + destruct (attempt + 1 =? attempts)%Z eqn:Hlast.
      * (* the last attempt fails *)
        apply Z.eqb_eq in Hlast. assert (todo = 0) by lia. subst todo.
        inversion Hrun; subst. exists 1. rewrite Hidx.
        repeat split; try lia; auto.
        -- intros e' _. rewrite Hrep. congruence.
        -- intros e' [= <-]. auto.
      * apply Z.eqb_neq in Hlast. assert (1 ≤ todo) by lia.
        unfold bind, sleep in Hrun.
        destruct (Qle_bool 0 delay) eqn:Hdelay.
        -- (* sleep, then go on *)
           apply IH in Hrun as (k & Hk & Hout' & Hop' & Hfin & Horig);
             [|lia|lia].
           cbn [log out opened] in Hout', Hop', Hfin, Horig. exists (S k).
           rewrite attempts_log_S by lia.
           repeat split; try lia.
           ++ rewrite Hout', Hout, <- !app_assoc. reflexivity.
           ++ intros e' Hk'. replace (opened w + S todo - 1)
                with (opened w1 + todo - 1) by lia.
              apply Hfin. lia.
           ++ intros e' He'. replace (opened w + S k - 1)
                with (opened w1 + k - 1) by lia.
              destruct (Horig e' He') as [?|[? _]]; [auto|discriminate].
        -- (* a negative delay: [time.sleep] raises *)
           inversion Hrun; subst. exists 1. rewrite Hidx.
           repeat split; try lia; auto.
           intros e' [= <-]. auto.
    + (* not an [Exception]: it passes through the handler *)
      inversion Hrun; subst. exists 1. rewrite Hidx.
      repeat split; try lia; auto.
      * intros e' Hk. assert (todo = 0) by lia. subst.
        rewrite Hidx, Hrep. congruence.
      * intros e' [= <-]. auto.
Qed.

End Retrieve.

Lemma retrieve_URL_no_loop
    (E : env) (URL filepath : string) (timeout_s delay attempts : Q)
    (w : world) :
  (int attempts < 1)%Z →
  retrieve_URL E URL filepath (timeout_s, delay, attempts) w
  = (w, Return VNone).
Proof.
  intros Hlt. unfold retrieve_URL.
  by replace (Z.to_nat (int attempts)) with 0 by lia.
Qed.

(** C10. When [int(attempts)] is zero or negative the body of the loop
    never runs: [retrieve_URL] leaves the world as it is (no request, no
    sleep, no file written), raises nothing and returns [None]. *)
Theorem C10_retrieve_URL_without_attempts
    (E : env) (URL filepath : string) (timeout_s delay attempts : Q)
    (w : world) :
  (int attempts ≤ 0)%Z →
  retrieve_URL E URL filepath (timeout_s, delay, attempts) w
  = (w, Return VNone).
Proof.
  intros Hle. unfold retrieve_URL.
  replace (Z.to_nat (int attempts)) with 0 by lia. reflexivity.
Qed.

Lemma C10_witness :
  (int (-1 # 2) ≤ 0)%Z ∧
  retrieve_URL E_up "https://download.qt.io/a.7z" "a.7z"
    (15, 5, -1 # 2)%Q w_init = (w_init, Return VNone).
Proof.
  split; [vm_compute; discriminate|].
  apply (C10_retrieve_URL_without_attempts E_up); vm_compute; discriminate.
Defined.

(** C8, as the code has it.  With [int(attempts) = n >= 1], [retrieve_URL]
    makes [k] requests for some [1 <= k <= n], with one sleep of exactly
    [attempt_delay_s] between two consecutive requests and nothing else;
    when the [n]-th request is made and fails, the exception of that
    request is what the caller gets, unchanged; any exception that comes
    out is the one of the last request made (or the [ValueError] of
    [time.sleep] for a negative delay): nothing wraps it, and nothing
    adds the URL to it. *)
Theorem C8_retrieve_URL_attempts
    (E : env) (URL filepath : string) (timeout_s delay attempts : Q)
    (w : world) :
  (1 ≤ int attempts)%Z →
  ∃ w' r k,
    retrieve_URL E URL filepath (timeout_s, delay, attempts) w = (w', r) ∧
    1 ≤ k ≤ Z.to_nat (int attempts) ∧
    out w' = out w ++ attempts_log URL timeout_s delay k ∧
    opened w' = opened w + k ∧
    (∀ e, k = Z.to_nat (int attempts) →
          reply_exn (net E (opened w + k - 1) URL) = Some e →
          r = Raise e) ∧
    (∀ e, r = Raise e →
          reply_exn (net E (opened w + k - 1) URL) = Some e ∨
          (Qle_bool 0 delay = false ∧
           e = Exn "ValueError" "sleep length must be non-negative")).
Proof.
  intros Hn. unfold retrieve_URL.
  destruct (retrieve_loop E (Z.to_nat (int attempts)) 0 (int attempts)
              URL filepath timeout_s delay w) as [w' r] eqn:Hrun.
  apply retrieve_loop_spec in Hrun as (k & Hk & Hout & Hop & Hfin & Horig);
    [|lia|lia].
  exists w', r, k. repeat split; try lia; auto.
  intros e ->. apply Hfin. reflexivity.
Qed.

Lemma C8_witness :
  (1 ≤ int 3)%Z ∧
  ∃ w' r k,
    retrieve_URL E_down "https://download.qt.io/a.7z" "" (15, 5, 3)%Q w_init
    = (w', r) ∧
    1 ≤ k ≤ Z.to_nat (int 3) ∧
    out w' = out w_init
               ++ attempts_log "https://download.qt.io/a.7z" 15 5 k ∧
    opened w' = opened w_init + k ∧
    (∀ e, k = Z.to_nat (int 3) →
          reply_exn (net E_down (opened w_init + k - 1)
                       "https://download.qt.io/a.7z") = Some e →
          r = Raise e) ∧
    (∀ e, r = Raise e →
          reply_exn (net E_down (opened w_init + k - 1)
                       "https://download.qt.io/a.7z") = Some e ∨
          (Qle_bool 0 5 = false ∧
           e = Exn "ValueError" "sleep length must be non-negative")).
Proof.
  split; [vm_compute; discriminate|].
  apply (C8_retrieve_URL_attempts E_down); vm_compute; discriminate.
Defined.

(** C8, as the specification has it, fails: after the last of two
    attempts has failed, what comes out is the [URLError] of [urlopen]
    itself; it is no [RetrievalError] and the URL is nowhere in it. *)
Lemma C8_counterexample :
  ∃ w',
    retrieve_URL E_down "https://download.qt.io/a.7z" "" (15, 5, 2)%Q w_init
    = (w', Raise url_err) ∧
    fetches (out w') = 2 ∧
    exn_class url_err ≠ "RetrievalError" ∧
    occurs_in "https://download.qt.io/a.7z" (exn_msg url_err) = false.
Proof.
  eexists. split; [vm_compute; reflexivity|].
  split; [reflexivity|]. split; [discriminate|reflexivity].
Qed.

(* ===================================================================== *)
(** * [pool_apply]                                                        *)
(* ===================================================================== *)

Lemma extends_refl P w : extends P w w.
Proof. exists []. rewrite app_nil_r. auto. Qed.

Lemma extends_trans P w1 w2 w3 :
  extends P w1 w2 → extends P w2 w3 → extends P w1 w3.
Proof.
  intros (l1 & H1 & F1) (l2 & H2 & F2). exists (l1 ++ l2).
  rewrite H2, H1, app_assoc. split; [reflexivity|].
  apply Forall_app; auto.
Qed.

Lemma extends_log (P : event → Prop) e w : P e → extends P w (log e w).
Proof. intros He. exists [e]. split; [reflexivity|]. repeat constructor; auto. Qed.

Lemma extends_log_r (P : event → Prop) e w w' :
  extends P w w' → P e → extends P w (log e w').
Proof. intros H He. eapply extends_trans; [exact H|]. apply extends_log, He. Qed.

Section PoolApply.
Context (E : env) {A R : Type}.
Implicit Types (tasks : list (AsyncResult R)) (f : A → M R).

Lemma last_ready_bound tasks t :
  t ∈ tasks → ready_at t ≤ last_ready tasks.
Proof.
  unfold last_ready. induction 1 as [t l|t t' l _ IH]; cbn; lia.
Qed.

(** *** One pass over the tasks *)

Lemma scan_Return now tasks :
  ∀ r0 r, scan now tasks r0 = Return r →
    r ≤ r0 + length tasks ∧
    (r = r0 + length tasks → Forall succeeded tasks) ∧
    ((∀ t, t ∈ tasks → ready_at t ≤ now) → r = r0 + length tasks).
Proof.
  induction tasks as [|t l IH]; intros r0 r H; cbn in H.
  - inversion H; subst. cbn. repeat split; try lia; auto.
  - destruct (ready_at t <=? now) eqn:Hr.
    + destruct (result t) as [v|e] eqn:Hres; [|discriminate].
      apply IH in H as (Hle & Hall & Hfull). cbn.
      repeat split; try lia.
      * intros ->. constructor; [exists v; auto|]. apply Hall. lia.
      * intros Hready. rewrite Hfull; [lia|].
        intros t' Ht'. apply Hready. by right.
    + apply Nat.leb_gt in Hr.
      apply IH in H as (Hle & Hall & Hfull). cbn.
      repeat split; try lia.
      intros Hready. specialize (Hready t ltac:(by left)). lia.
Qed.

Lemma scan_Raise now tasks :
  ∀ r0 e, scan now tasks r0 = Raise e →
    ∃ t, t ∈ tasks ∧ result t = Raise e ∧ ready_at t ≤ now.
Proof.
  induction tasks as [|t l IH]; intros r0 e H; cbn in H; [discriminate|].
  destruct (ready_at t <=? now) eqn:Hr.
  - apply Nat.leb_le in Hr. destruct (result t) as [v|e'] eqn:Hres.
    + apply IH in H as (t' & ? & ? & ?). exists t'.
      split; [by right|auto].
    + inversion H; subst. exists t. split; [by left|auto].
  - apply IH in H as (t' & ? & ? & ?). exists t'. split; [by right|auto].
Qed.

Lemma scan_succeeded now tasks :
  Forall succeeded tasks → ∀ r0, ∃ r, scan now tasks r0 = Return r.
Proof.
  induction 1 as [|t l [v Hv] _ IH]; intros r0; cbn; [eauto|].
  rewrite Hv. destruct (ready_at t <=? now); apply IH.
Qed.

(** *** The polling loop *)

(** The loop comes to an end within the fuel that [pool_apply] gives
    it; it touches nothing but the log; it ends normally only when
    every task has succeeded (or when there was nothing to wait for),
    and with the exception of one of the tasks otherwise. *)
Lemma poll_spec tasks print_delay_s :
  ∀ fuel now ready_tasks no_print_s w,
    last_ready tasks ≤ now + fuel →
    (last_ready tasks ≤ now → length tasks ≤ ready_tasks ∨ 1 ≤ fuel) →
    ∃ w' o,
      poll fuel now tasks (length tasks) ready_tasks no_print_s
        print_delay_s w = Some (w', o) ∧
      fs w' = fs w ∧ dirs w' = dirs w ∧ opened w' = opened w ∧
      drawn w' = drawn w ∧ pools w' = pools w ∧
      extends poll_event w w' ∧
      match o with
      | Return _ =>
          (length tasks ≤ ready_tasks ∧ w' = w) ∨ Forall succeeded tasks
      | Raise e => ∃ t, t ∈ tasks ∧ result t = Raise e
      end.
Proof.
  induction fuel as [|fuel IH]; intros now ready npr w Hfuel Hnow;
    cbn [poll]; destruct (ready <? length tasks) eqn:Hlt.
  - apply Nat.ltb_lt in Hlt. lia.
  - apply Nat.ltb_ge in Hlt. exists w, (Return tt).
    repeat split; auto using extends_refl.
  - apply Nat.ltb_lt in Hlt.
    change (sleep check_progress_interval w)
      with (log (Sleep check_progress_interval) w, Return tt).
    cbv iota beta.
    set (w1 := log (Sleep check_progress_interval) w).
    assert (Hw1 : extends poll_event w w1) by (apply extends_log; exact I).
    destruct (scan (S now) tasks 0) as [ready'|e] eqn:Hscan.
    + apply scan_Return in Hscan as (Hle & Hall & Hfull).
      assert (Hnow' : last_ready tasks ≤ S now →
                      length tasks ≤ ready' ∨ 1 ≤ fuel).
      { intros Hl. left. rewrite Hfull; [lia|].
        intros t Ht. apply last_ready_bound in Ht. lia. }
      assert (Hfuel' : last_ready tasks ≤ S now + fuel) by lia.
      set (npr' := Qred (npr + check_progress_interval)).
      destruct (Qle_bool print_delay_s npr').
      * destruct (IH (S now) ready' 0%Q
                    (log (Print (Progress ready' (length tasks) npr')) w1)
                    Hfuel' Hnow')
          as (w' & o & Hrun & ? & ? & ? & ? & ? & Hext & Ho).
        exists w', o. repeat split; auto.
        -- eapply extends_trans; [|exact Hext].
           apply extends_log_r; [exact Hw1|exact I].
        -- destruct o; [|exact Ho].
           destruct Ho as [[Hge _]|?]; [|by right].
           right. apply Hall. lia.
      * destruct (IH (S now) ready' npr' w1 Hfuel' Hnow')
          as (w' & o & Hrun & ? & ? & ? & ? & ? & Hext & Ho).
        exists w', o. repeat split; auto.
        -- eapply extends_trans; [exact Hw1|exact Hext].
        -- destruct o; [|exact Ho].
           destruct Ho as [[Hge _]|?]; [|by right].
           right. apply Hall. lia.
    + apply scan_Raise in Hscan as (t & Ht & Hres & _).
      exists w1, (Raise e). repeat split; eauto.
  - apply Nat.ltb_ge in Hlt. exists w, (Return tt).
    repeat split; auto using extends_refl.
Qed.

(** When every task has succeeded the loop ends normally. *)
Lemma poll_succeeded tasks print_delay_s :
  Forall succeeded tasks →
  ∀ fuel now ready_tasks no_print_s w w' e,
    poll fuel now tasks (length tasks) ready_tasks no_print_s
      print_delay_s w ≠ Some (w', Raise e).
Proof.
  intros Hall.
  induction fuel as [|fuel IH]; intros now ready npr w w' e;
    cbn [poll]; destruct (ready <? length tasks); try discriminate.
  change (sleep check_progress_interval w)
    with (log (Sleep check_progress_interval) w, Return tt).
  cbv iota beta.
  destruct (scan_succeeded (S now) tasks Hall 0) as [r ->].
  destruct (Qle_bool _ _); apply IH.
Qed.

(** *** Collecting the results *)

Lemma gets_succeeded tasks :
  Forall succeeded tasks →
  ∃ rs, gets tasks = Return rs ∧ map result tasks = map Return rs.
Proof.
  induction 1 as [|t l [v Hv] _ (rs & Hrs & Hmap)]; cbn.
  - by exists [].
  - rewrite Hv, Hrs. exists (v :: rs). cbn. by rewrite Hmap.
Qed.

Lemma gets_Raise tasks e :
  gets tasks = Raise e → ∃ t, t ∈ tasks ∧ result t = Raise e.
Proof.
  induction tasks as [|t l IH]; cbn; [discriminate|].
  destruct (result t) as [v|e'] eqn:Hres.
  - destruct (gets l) as [rs|e'']; [discriminate|].
    intros [= <-]. destruct IH as (t' & ? & ?); [reflexivity|].
    exists t'. split; [by right|auto].
  - intros [= <-]. exists t. split; [by left|auto].
Qed.

(** *** Submitting the tasks *)

Lemma apply_async_spec f pool :
  ∀ async_args i w w' tasks,
    apply_async E f async_args pool i w = (w', tasks) →
    length tasks = length async_args ∧
    ∀ j t, tasks !! j = Some t →
      ready_at t = finish E pool (i + j) ∧
      ∃ a wj wj', async_args !! j = Some a ∧ f a wj = (wj', result t).
Proof.
  induction async_args as [|a l IH]; intros i w w' tasks H; cbn in H.
  - inversion H; subst. split; [reflexivity|]. intros j t Hj.
    by rewrite lookup_nil in Hj.
  - destruct (f a w) as [w1 r] eqn:Hf.
    destruct (apply_async E f l pool (S i) w1) as [w2 ts] eqn:Hrest.
    inversion H; subst. apply IH in Hrest as (Hlen & Hts).
    split; [cbn; lia|]. intros [|j] t Hj; cbn in Hj.
    + inversion Hj; subst. cbn. split; [f_equal; lia|]. eauto.
    + apply Hts in Hj as (Hr & a' & wj & wj' & Ha & Hfa).
      split; [rewrite Hr; f_equal; lia|]. exists a', wj, wj'. auto.
Qed.

(** *** The whole function *)

Lemma poll_event_pool_event e : poll_event e → pool_event e.
Proof. destruct e as [| |[]| |]; cbn; auto. Qed.

Lemma extends_mono (P Q : event → Prop) w w' :
  (∀ e, P e → Q e) → extends P w w' → extends Q w w'.
Proof.
  intros HPQ (l & Hl & HF). exists l. split; [exact Hl|].
  eapply Forall_impl; eauto.
Qed.

Lemma Pool_spec processes w :
  ((processes < 1)%Z ∧
   Pool processes w
   = (w, Raise (Exn "ValueError" "Number of processes must be at least 1")))
  ∨ ((1 ≤ processes)%Z ∧
     Pool processes w
     = (World (fs w) (dirs w) (opened w) (drawn w) (S (pools w))
              (out w ++ [PoolStart processes]),
        Return (pools w))).
Proof.
  unfold Pool. destruct (processes <? 1)%Z eqn:H.
  - left. apply Z.ltb_lt in H. auto.
  - right. apply Z.ltb_ge in H. auto.
Qed.

(** [pool_apply] always comes back.  Once the pool exists, what comes
    back is the list of the tasks' results when all of them succeeded,
    and the exception of one of the tasks otherwise; between the
    submission of the tasks and the return only the log changes. *)
Lemma pool_apply_spec f async_args workers_num print_delay_s w w0 pool :
  Pool (int workers_num) w = (w0, Return pool) →
  ∃ w1 tasks w2 o,
    apply_async E f async_args pool 0 w0 = (w1, tasks) ∧
    pool_apply E f async_args (workers_num, print_delay_s) w
    = Some (w2, o) ∧
    fs w2 = fs w1 ∧ dirs w2 = dirs w1 ∧ opened w2 = opened w1 ∧
    drawn w2 = drawn w1 ∧ pools w2 = pools w1 ∧
    extends pool_event w1 w2 ∧
    match o with
    | Return rs =>
        Forall succeeded tasks ∧ map result tasks = map Return rs
    | Raise e => ∃ t, t ∈ tasks ∧ result t = Raise e
    end.
Proof.
  intros HPool. unfold pool_apply. rewrite HPool.
  destruct (apply_async E f async_args pool 0 w0) as [w1 tasks] eqn:Hsub.
  exists w1, tasks.
  destruct (poll_spec tasks print_delay_s (S (last_ready tasks)) 0 0 0%Q w1)
    as (w2 & o & Hpoll & Hfs & Hdirs & Hop & Hdr & Hpl & Hext & Ho);
    [lia|right; lia|].
  rewrite Hpoll.
  apply (extends_mono _ _ _ _ poll_event_pool_event) in Hext.
  destruct o as [[]|e].
  - assert (Hall : Forall succeeded tasks).
    { destruct Ho as [[Hlen _]|?]; [|assumption].
      destruct tasks; [constructor|cbn in Hlen; lia]. }
    destruct (gets_succeeded tasks Hall) as (rs & -> & Hmap).
    eexists _, (Return rs). repeat split; cbn; auto.
    apply extends_log_r; [|exact I]. apply extends_log_r; [|exact I].
    exact Hext.
  - eexists _, (Raise e). repeat split; cbn; auto.
    apply extends_log_r; [exact Hext|exact I].
Qed.

Lemma pool_apply_total f async_args async_opts w :
  ∃ w' o, pool_apply E f async_args async_opts w = Some (w', o).
Proof.
  destruct async_opts as [workers_num print_delay_s].
  destruct (Pool_spec (int workers_num) w) as [[_ H]|[_ H]].
  - unfold pool_apply. rewrite H. eauto.
  - destruct (pool_apply_spec f async_args workers_num print_delay_s _ _ _ H)
      as (? & ? & w2 & o & _ & Hrun & _). eauto.
Qed.

End PoolApply.

(** C6. Once the pool exists and every submitted task succeeds,
    [pool_apply] returns a list as long as the list of arguments whose
    [i]-th element is the result of the [i]-th task, that is of [_func]
    on the [i]-th argument, whenever the tasks finish (the schedule
    [finish E] is arbitrary). *)
Theorem C6_pool_apply_results_in_task_order
    (E : env) {A R : Type} (_func : A → M R) (async_args : list A)
    (workers_num print_delay_s : Q) (w w0 w1 : world) (pool : nat)
    (tasks : list (AsyncResult R)) :
  Pool (int workers_num) w = (w0, Return pool) →
  apply_async E _func async_args pool 0 w0 = (w1, tasks) →
  Forall succeeded tasks →
  ∃ w' rs,
    pool_apply E _func async_args (workers_num, print_delay_s) w
    = Some (w', Return rs) ∧
    length rs = length async_args ∧
    map result tasks = map Return rs ∧
    ∀ i r, rs !! i = Some r →
      ∃ a wi wi', async_args !! i = Some a ∧ _func a wi = (wi', Return r).
Proof.
  intros HPool Hsub Hall.
  destruct (pool_apply_spec E _func async_args workers_num print_delay_s
              w w0 pool HPool)
    as (w1' & tasks' & w2 & o & Hsub' & Hrun & _ & _ & _ & _ & _ & _ & Ho).
  rewrite Hsub in Hsub'. inversion Hsub'; subst w1' tasks'.
  destruct o as [rs|e].
  - destruct Ho as [_ Hmap]. exists w2, rs.
    apply apply_async_spec in Hsub as (Hlen & Htasks).
    assert (Hlen' : length rs = length tasks).
    { rewrite <- (length_map Return rs), <- Hmap. apply length_map. }
    repeat split; auto; [lia|].
    intros i r Hi.
    destruct (lookup_lt_is_Some_2 tasks i) as [t Ht].
    { rewrite <- Hlen'. eapply lookup_lt_Some, Hi. }
    destruct (Htasks i t Ht) as (_ & a & wi & wi' & Ha & Hf).
    exists a, wi, wi'. split; [exact Ha|]. rewrite Hf. f_equal.
    assert (Hr : map result tasks !! i = Some (result t))
      by (by rewrite list_lookup_fmap, Ht).
    rewrite Hmap, list_lookup_fmap, Hi in Hr. by inversion Hr.
  - exfalso. destruct Ho as (t & Ht & Hres).
    rewrite Forall_forall in Hall. destruct (Hall t Ht) as [v Hv].
    congruence.
Qed.

Lemma C6_witness :
  Pool (int 5) w_init = (World ∅ ∅ 0 0 1 [PoolStart 5], Return 0) ∧
  apply_async E_latency echo ["A"; "B"; "C"] 0 0
    (World ∅ ∅ 0 0 1 [PoolStart 5])
  = (World ∅ ∅ 0 0 1 [PoolStart 5],
     [Async 3 (Return "resultA"); Async 2 (Return "resultB");
      Async 1 (Return "resultC")]) ∧
  ∃ w' rs,
    pool_apply E_latency echo ["A"; "B"; "C"] (5, 10)%Q w_init
    = Some (w', Return rs) ∧
    length rs = 3 ∧
    [Return "resultA"; Return "resultB"; Return "resultC"]
    = map Return rs ∧
    ∀ i r, rs !! i = Some r →
      ∃ a wi wi', ["A"; "B"; "C"] !! i = Some a ∧ echo a wi = (wi', Return r).
Proof.
  split; [reflexivity|]. split; [reflexivity|].
  apply (C6_pool_apply_results_in_task_order E_latency echo
           ["A"; "B"; "C"] 5 10 w_init (World ∅ ∅ 0 0 1 [PoolStart 5])
           (World ∅ ∅ 0 0 1 [PoolStart 5]) 0
           [Async 3 (Return "resultA"); Async 2 (Return "resultB");
            Async 1 (Return "resultC")]);
    [reflexivity|reflexivity|].
  repeat constructor; eexists; reflexivity.
Defined.

(** The scenario of the specification: C finishes first, A last, and the
    results come back as A, B, C after three polls. *)
Example pool_apply_latencies :
  pool_apply E_latency echo ["A"; "B"; "C"] (5, 10)%Q w_init
  = Some (World ∅ ∅ 0 0 1
            [PoolStart 5; Sleep (1 # 4); Sleep (1 # 4); Sleep (1 # 4);
             Print (Completed 3); PoolStop],
          Return ["resultA"; "resultB"; "resultC"]).
Proof. reflexivity. Qed.

(** C9, as the code has it.  On an empty list of tasks [pool_apply]
    still creates the pool of [int(workers_num)] worker processes (a
    [ValueError] when that number is below 1); it then neither sleeps nor
    polls nor prints a "<done>/<total>" line, prints the closing line for
    0 tasks, leaves the pool and returns the empty list. *)
Theorem C9_pool_apply_no_tasks
    (E : env) {A R : Type} (_func : A → M R)
    (workers_num print_delay_s : Q) (w : world) :
  pool_apply E _func [] (workers_num, print_delay_s) w
  = if (int workers_num <? 1)%Z
    then Some (w, Raise (Exn "ValueError"
                           "Number of processes must be at least 1"))
    else Some (World (fs w) (dirs w) (opened w) (drawn w) (S (pools w))
                 (out w ++ [PoolStart (int workers_num);
                            Print (Completed 0); PoolStop]),
               Return []).
Proof.
  unfold pool_apply, Pool.
  destruct (int workers_num <? 1)%Z; [reflexivity|].
  cbn. unfold log. cbn. rewrite <- !app_assoc. reflexivity.
Qed.

(** C9, as the specification has it, fails: with no task at all a pool
    of 5 worker processes is started and a line is printed. *)
Lemma C9_counterexample :
  ∃ w',
    pool_apply E_up echo [] (5, 10)%Q w_init = Some (w', Return []) ∧
    out w' = [PoolStart 5; Print (Completed 0); PoolStop].
Proof. eexists. split; reflexivity. Qed.

(* ===================================================================== *)
(** * [dump_JSON]                                                         *)
(* ===================================================================== *)

Section Strings.

Lemma app_cons c r s : String c r +:+ s = String c (r +:+ s).
Proof. reflexivity. Qed.

Lemma app_empty_r s : s +:+ "" = s.
Proof. induction s as [|c r IH]; [reflexivity|]. by rewrite app_cons, IH. Qed.

Lemma app_assoc_str a b c : (a +:+ b) +:+ c = a +:+ (b +:+ c).
Proof.
  induction a as [|x a IH]; [reflexivity|]. by rewrite !app_cons, IH.
Qed.

Lemma app_ne_self s t : t ≠ "" → s +:+ t ≠ s.
Proof.
  intros Ht H. rewrite <- (app_empty_r s) in H at 2.
  by apply (inj (String.append s)) in H.
Qed.

Lemma has_sep_app a b :
  OsPath.has_sep (a +:+ b) = OsPath.has_sep a || OsPath.has_sep b.
Proof.
  induction a as [|c r IH]; [reflexivity|].
  rewrite app_cons. cbn. by rewrite IH, orb_assoc.
Qed.

Lemma upto_last_sep_no_sep s :
  OsPath.has_sep s = false → OsPath.upto_last_sep s = "".
Proof.
  destruct s as [|c r]; [reflexivity|]. cbn.
  intros [Hc Hr]%orb_false_iff. by rewrite Hr, Hc.
Qed.

Lemma upto_last_sep_app p s :
  OsPath.has_sep s = false →
  OsPath.upto_last_sep (p +:+ s) = OsPath.upto_last_sep p.
Proof.
  intros Hs. induction p as [|c r IH].
  - by apply upto_last_sep_no_sep.
  - rewrite app_cons. cbn. rewrite has_sep_app, Hs, orb_false_r, IH.
    reflexivity.
Qed.

(** The temporary file lies in the directory of the final file. *)
Lemma dirname_tmp out_file :
  OsPath.dirname (out_file +:+ ".tmp") = OsPath.dirname out_file.
Proof. unfold OsPath.dirname. by rewrite upto_last_sep_app. Qed.

End Strings.

Section DumpJSON.
Context (data : list string) (out_file : string).

Let tmp_file : string := out_file +:+ ".tmp".

Lemma tmp_ne_out : tmp_file ≠ out_file.
Proof. apply app_ne_self. discriminate. Qed.

(** The writes and the final rename, from a temporary file that holds
    [acc]: either all of it goes through, and the final path gets the
    whole text while the temporary file is gone; or a primitive fails,
    and no path but the temporary one has changed. *)
Lemma run_writes :
  ∀ chunks fault acc w,
    fs w !! tmp_file = Some acc →
    ∃ w' r,
      run_ops fault (map (WriteChunk tmp_file) chunks
                       ++ [Replace tmp_file out_file]) w = (w', r) ∧
      dirs w' = dirs w ∧ out w' = out w ∧
      match r with
      | Return _ =>
          fs w' = <[out_file := acc +:+ written chunks]>
                    (delete tmp_file (fs w)) ∧
          (fault = None ∨ ∃ n, fault = Some n ∧ S (length chunks) ≤ n)
      | Raise _ =>
          (∀ p, p ≠ tmp_file → fs w' !! p = fs w !! p) ∧
          ∃ n, fault = Some n ∧ n ≤ length chunks ∧
               (n = length chunks →
                fs w' !! tmp_file = Some (acc +:+ written chunks))
      end.
Proof.
  induction chunks as [|c chunks IH]; intros fault acc w Htmp.
  - cbn [map app run_ops written foldr]. rewrite app_empty_r.
    destruct fault as [[|n]|]; cbn [fmap option_fmap option_map pred].
    + exists w. eexists. split; [reflexivity|]. repeat split.
      exists 0. repeat split; auto.
    + unfold bind, exec. rewrite Htmp. cbn.
      eexists _, _. split; [reflexivity|]. repeat split.
      right. exists (S n). split; [reflexivity|cbn; lia].
    + unfold bind, exec. rewrite Htmp. cbn.
      eexists _, _. split; [reflexivity|]. repeat split. by left.
  - cbn [map app run_ops written foldr].
    rewrite <- app_assoc_str.
    assert (Hstep : ∀ f',
      ∃ w' r,
        bind (exec (WriteChunk tmp_file c))
             (fun _ => run_ops f' (map (WriteChunk tmp_file) chunks
                                     ++ [Replace tmp_file out_file])) w
        = (w', r) ∧
        dirs w' = dirs w ∧ out w' = out w ∧
        match r with
        | Return _ =>
            fs w' = <[out_file := (acc +:+ c) +:+ written chunks]>
                      (delete tmp_file (fs w)) ∧
            (f' = None ∨ ∃ n, f' = Some n ∧ S (length chunks) ≤ n)
        | Raise _ =>
            (∀ p, p ≠ tmp_file → fs w' !! p = fs w !! p) ∧
            ∃ n, f' = Some n ∧ n ≤ length chunks ∧
                 (n = length chunks →
                  fs w' !! tmp_file = Some ((acc +:+ c) +:+ written chunks))
        end).
    { intros f'. unfold bind at 1. unfold exec at 1. rewrite Htmp.
      cbn [default from_option].
      destruct (IH f' (acc +:+ c) (write_file tmp_file (acc +:+ c) w))
        as (w' & r & Hrun & Hd & Ho & Hr).
      { cbn. apply lookup_insert_eq. }
      exists w', r. split; [exact Hrun|]. split; [exact Hd|].
      split; [exact Ho|]. destruct r as [[]|e].
      - destruct Hr as [Hfs Hf]. split; [|exact Hf].
        rewrite Hfs. cbn. by rewrite delete_insert_eq.
      - destruct Hr as [Hfs Hf]. split; [|exact Hf].
        intros p Hp. rewrite Hfs by exact Hp. cbn.
        by apply lookup_insert_ne. }
    destruct fault as [[|n]|]; cbn [fmap option_fmap option_map pred].
    + exists w. eexists. split; [reflexivity|]. repeat split.
      exists 0. repeat split; [cbn; lia|]. cbn. discriminate.
    + destruct (Hstep (Some n)) as (w' & r & Hrun & Hd & Ho & Hr).
      exists w', r. repeat split; auto. destruct r as [[]|e].
      * destruct Hr as [Hfs [?|(m & [= <-] & Hm)]]; [discriminate|].
        split; [exact Hfs|]. right. exists (S n).
        split; [reflexivity|cbn; lia].
      * destruct Hr as [Hfs (m & [= <-] & Hm & Hfull)].
        split; [exact Hfs|]. exists (S n).
        split; [reflexivity|]. split; [cbn; lia|].
        cbn. intros [= ->]. auto.
    + destruct (Hstep None) as (w' & r & Hrun & Hd & Ho & Hr).
      exists w', r. repeat split; auto. destruct r as [[]|e].
      * destruct Hr as [Hfs _]. split; [exact Hfs|by left].
      * destruct Hr as [_ (m & ? & _)]. discriminate.
Qed.

End DumpJSON.

Lemma run_ops_cons fault op rest :
  run_ops fault (op :: rest)
  = match fault with
    | Some O => raise (Exn "OSError" "the operation failed")
    | _ => exec op ;;; run_ops (pred <$> fault) rest
    end.
Proof. reflexivity. Qed.

Section DumpJSONWhole.
Context (data : list string) (out_file : string).

Let tmp_file : string := out_file +:+ ".tmp".

(** From the opening of the temporary file on. *)
Lemma run_from_open fault w :
  ∃ w' r,
    run_ops fault (OpenW tmp_file :: map (WriteChunk tmp_file) data
                     ++ [Replace tmp_file out_file]) w = (w', r) ∧
    dirs w' = dirs w ∧
    match r with
    | Return _ =>
        fs w' !! out_file = Some (written data) ∧
        fs w' !! tmp_file = None ∧
        (fault = None ∨ ∃ n, fault = Some n ∧ 2 + length data ≤ n)
    | Raise _ =>
        fs w' !! out_file = fs w !! out_file ∧
        ∃ n, fault = Some n ∧ n ≤ S (length data) ∧
             (n = S (length data) →
              fs w' !! tmp_file = Some (written data))
    end.
Proof.
  pose proof (tmp_ne_out out_file) as Hne. fold tmp_file in Hne.
  cbn [run_ops].
  assert (Hgo : ∀ f',
    ∃ w' r,
      bind (exec (OpenW tmp_file))
           (fun _ => run_ops f' (map (WriteChunk tmp_file) data
                                   ++ [Replace tmp_file out_file])) w
      = (w', r) ∧
      dirs w' = dirs w ∧
      match r with
      | Return _ =>
          fs w' !! out_file = Some (written data) ∧
          fs w' !! tmp_file = None ∧
          (f' = None ∨ ∃ n, f' = Some n ∧ S (length data) ≤ n)
      | Raise _ =>
          fs w' !! out_file = fs w !! out_file ∧
          ∃ n, f' = Some n ∧ n ≤ length data ∧
               (n = length data → fs w' !! tmp_file = Some (written data))
      end).
  { intros f'. unfold bind at 1. unfold exec at 1.
    destruct (run_writes out_file data f' "" (write_file tmp_file "" w))
      as (w' & r & Hrun & Hd & _ & Hr).
    { cbn. apply lookup_insert_eq. }
    exists w', r. split; [exact Hrun|]. split; [exact Hd|].
    destruct r as [[]|e].
    - destruct Hr as [Hfs Hf]. rewrite Hfs. cbn.
      split; [apply lookup_insert_eq|]. split; [|exact Hf].
      rewrite lookup_insert_ne by auto. apply lookup_delete_eq.
    - destruct Hr as [Hfs Hf]. split; [|exact Hf].
      rewrite Hfs by auto. cbn. by apply lookup_insert_ne. }
  destruct fault as [[|n]|]; cbn [fmap option_fmap option_map pred].
  - exists w. eexists. split; [reflexivity|]. repeat split.
    exists 0. repeat split; [lia|discriminate].
  - destruct (Hgo (Some n)) as (w' & r & Hrun & Hd & Hr).
    exists w', r. repeat split; auto. destruct r as [[]|e].
    + destruct Hr as (? & ? & [?|(m & [= <-] & Hm)]); [discriminate|].
      repeat split; auto. right. exists (S n). split; [reflexivity|lia].
    + destruct Hr as (? & m & [= <-] & Hm & Hfull).
      split; [assumption|]. exists (S n).
      split; [reflexivity|]. split; [lia|]. intros [= ->]. auto.
  - destruct (Hgo None) as (w' & r & Hrun & Hd & Hr).
    exists w', r. repeat split; auto. destruct r as [[]|e].
    + destruct Hr as (? & ? & _). repeat split; auto.
    + destruct Hr as (_ & m & ? & _). discriminate.
Qed.

Lemma makedirs_made d (w : world) :
  let made := dirs w ∪ list_to_set (OsPath.parents "" d ++ [d]) in
  d ∈ made ∧ ∀ x, x ∈ OsPath.parents "" d → x ∈ made.
Proof.
  cbn. split; [|intros x Hx];
    apply elem_of_union_r, elem_of_list_to_set, elem_of_app;
    [right; apply list_elem_of_singleton; reflexivity|left; exact Hx].
Qed.

(** The same with [os.makedirs] in front. *)
Lemma run_from_makedirs d fault w :
  truthy d = true →
  ∃ w' r,
    run_ops fault (Makedirs d :: OpenW tmp_file
                     :: map (WriteChunk tmp_file) data
                     ++ [Replace tmp_file out_file]) w = (w', r) ∧
    match r with
    | Return _ =>
        fs w' !! out_file = Some (written data) ∧
        fs w' !! tmp_file = None ∧
        d ∈ dirs w' ∧ (∀ x, x ∈ OsPath.parents "" d → x ∈ dirs w') ∧
        (fault = None ∨ ∃ n, fault = Some n ∧ 3 + length data ≤ n)
    | Raise _ =>
        fs w' !! out_file = fs w !! out_file ∧
        ∃ n, fault = Some n ∧ n ≤ 2 + length data ∧
             (n = 2 + length data →
              fs w' !! tmp_file = Some (written data))
    end.
Proof.
  intros Hd. rewrite run_ops_cons.
  assert (Hgo : ∀ f',
    ∃ w' r,
      bind (exec (Makedirs d))
           (fun _ => run_ops f' (OpenW tmp_file
                                   :: map (WriteChunk tmp_file) data
                                   ++ [Replace tmp_file out_file])) w
      = (w', r) ∧
      match r with
      | Return _ =>
          fs w' !! out_file = Some (written data) ∧
          fs w' !! tmp_file = None ∧
          d ∈ dirs w' ∧ (∀ x, x ∈ OsPath.parents "" d → x ∈ dirs w') ∧
          (f' = None ∨ ∃ n, f' = Some n ∧ 2 + length data ≤ n)
      | Raise _ =>
          fs w' !! out_file = fs w !! out_file ∧
          ∃ n, f' = Some n ∧ n ≤ S (length data) ∧
               (n = S (length data) →
                fs w' !! tmp_file = Some (written data))
      end).
  { intros f'. unfold bind at 1. unfold exec at 1, makedirs. rewrite Hd.
    match goal with |- context [run_ops _ _ ?w0] =>
      destruct (run_from_open f' w0) as (w' & r & Hrun & Hdirs & Hr) end.
    exists w', r. split; [exact Hrun|]. destruct r as [[]|e].
    - destruct Hr as (Hout & Htmp & Hf).
      destruct (makedirs_made d w) as [Hmade Hparents].
      rewrite Hdirs. cbn [set_dirs dirs]. auto.
    - exact Hr. }
  destruct fault as [[|n]|]; cbn [fmap option_fmap option_map pred].
  - exists w. eexists. split; [reflexivity|]. split; [reflexivity|].
    exists 0. repeat split; [lia|discriminate].
  - destruct (Hgo (Some n)) as (w' & r & Hrun & Hr).
    exists w', r. split; [exact Hrun|]. destruct r as [[]|e].
    + destruct Hr as (? & ? & ? & ? & [?|(m & [= <-] & Hm)]); [discriminate|].
      repeat split; auto. right. exists (S n). split; [reflexivity|lia].
    + destruct Hr as (? & m & [= <-] & Hm & Hfull).
      split; [assumption|]. exists (S n).
      split; [reflexivity|]. split; [lia|]. intros [= ->]. auto.
  - destruct (Hgo None) as (w' & r & Hrun & Hr).
    exists w', r. split; [exact Hrun|]. destruct r as [[]|e].
    + destruct Hr as (? & ? & ? & ? & _). repeat split; auto.
    + destruct Hr as (_ & m & ? & _). discriminate.
Qed.

End DumpJSONWhole.

(** C7. [dump_JSON] writes the whole text to [out_file + ".tmp"], a file
    of the directory of [out_file] (which it has created, with its
    parents, when the path names one), and only then renames it over
    [out_file].  Whatever primitive fails, [out_file] holds what it held
    before (or is still absent); when the failure falls after the last
    write and before the rename, the whole text is in the temporary file;
    when nothing fails, [out_file] holds the whole text and the temporary
    file is gone. *)
Theorem C7_dump_JSON_writes_then_renames
    (fault : option nat) (data : list string) (out_file : string)
    (w : world) :
  ∃ w' r,
    dump_JSON fault data out_file w = (w', r) ∧
    OsPath.dirname (out_file +:+ ".tmp") = OsPath.dirname out_file ∧
    match r with
    | Return _ =>
        fs w' !! out_file = Some (written data) ∧
        fs w' !! (out_file +:+ ".tmp") = None ∧
        (truthy (OsPath.dirname out_file) = true →
         OsPath.dirname out_file ∈ dirs w' ∧
         ∀ d, d ∈ OsPath.parents "" (OsPath.dirname out_file) → d ∈ dirs w')
    | Raise _ => fs w' !! out_file = fs w !! out_file
    end ∧
    (fault = None → r = Return tt) ∧
    (fault = Some (pred (length (dump_JSON_ops data out_file))) →
     (∃ e, r = Raise e) ∧
     fs w' !! (out_file +:+ ".tmp") = Some (written data) ∧
     fs w' !! out_file = fs w !! out_file).
Proof.
  unfold dump_JSON, dump_JSON_ops.
  destruct (truthy (OsPath.dirname out_file)) eqn:Hdir; cbn [app].
  - (* the path names a directory: [os.makedirs] comes first *)
    destruct (run_from_makedirs data out_file _ fault w Hdir)
      as (w' & r & Hrun & Hr).
    exists w', r. split; [exact Hrun|]. split; [apply dirname_tmp|].
    cbn [length pred]. rewrite length_app, length_map. cbn [length].
    destruct r as [[]|e].
    + destruct Hr as (Hout & Htmp & Hmade & Hparents & Hf).
      split; [auto|]. split; [reflexivity|].
      intros ->. destruct Hf as [?|(m & [= <-] & Hm)]; [discriminate|lia].
    + destruct Hr as (Hout & m & -> & Hm & Hfull).
      split; [exact Hout|]. split; [discriminate|].
      intros [= ->]. split; [eauto|]. split; [apply Hfull; lia|exact Hout].
  - (* a bare file name: no directory to make *)
    destruct (run_from_open data out_file fault w)
      as (w' & r & Hrun & _ & Hr).
    exists w', r. split; [exact Hrun|]. split; [apply dirname_tmp|].
    cbn [length pred]. rewrite length_app, length_map. cbn [length].
    destruct r as [[]|e].
    + destruct Hr as (Hout & Htmp & Hf).
      split; [split; [exact Hout|split; [exact Htmp|discriminate]]|].
      split; [reflexivity|].
      intros ->. destruct Hf as [?|(m & [= <-] & Hm)]; [discriminate|lia].
    + destruct Hr as (Hout & m & -> & Hm & Hfull).
      split; [exact Hout|]. split; [discriminate|].
      intros [= ->]. split; [eauto|]. split; [apply Hfull; lia|exact Hout].
Qed.

(* ===================================================================== *)
(** * [_download_archive]                                                 *)
(* ===================================================================== *)

Section DownloadArchive.
Context (E : env).

Lemma hash_on_disk_spec archive_filepath w :
  hash_on_disk E archive_filepath w
  = (w, Return match fs w !! archive_filepath with
               | Some content => digest E HASH_ALG content
               | None => ""
               end).
Proof.
  unfold hash_on_disk, compute_hash.
  destruct (fs w !! archive_filepath); reflexivity.
Qed.

(** The test of the code and the policy of the specification agree. *)
Lemma hash_accepted_on_disk info archive_filepath w :
  hash_accepted match fs w !! archive_filepath with
                | Some content => digest E HASH_ALG content
                | None => ""
                end info
  = spec_isAlreadyValid E w archive_filepath (sha256 info).
Proof.
  unfold hash_accepted, spec_isAlreadyValid.
  destruct (fs w !! archive_filepath) as [content|]; [|reflexivity].
  case_bool_decide as Heq; [|apply andb_false_r].
  rewrite Heq. by rewrite andb_true_r.
Qed.

Lemma hash_accepted_empty computed_hash info :
  sha256 info = "" → hash_accepted computed_hash info = false.
Proof.
  intros Hinfo. unfold hash_accepted. rewrite Hinfo.
  destruct computed_hash; [reflexivity|]. cbn. by case_bool_decide.
Qed.

Lemma _download_archive_unfold info ver_path mirror_URL out_dir req_opts w :
  _download_archive E info ver_path mirror_URL out_dir req_opts w
  = if spec_isAlreadyValid E w (get_archive_filepath info out_dir)
         (sha256 info)
    then (w, Return tt)
    else fetch_and_verify E info ver_path mirror_URL out_dir req_opts w.
Proof.
  unfold _download_archive, fetch_and_verify, bind at 1.
  rewrite hash_on_disk_spec, hash_accepted_on_disk.
  destruct (spec_isAlreadyValid _ _ _ _); reflexivity.
Qed.

Lemma attempts_log_net URL timeout delay k :
  Forall net_event (attempts_log URL timeout delay k).
Proof.
  induction k as [|k IH]; cbn [attempts_log]; [constructor|].
  constructor; [exact I|]. destruct k; [constructor|].
  constructor; [exact I|exact IH].
Qed.

Lemma fetches_attempts_log URL timeout delay k :
  fetches (attempts_log URL timeout delay k) = k.
Proof.
  induction k as [|k IH]; [reflexivity|].
  cbn [attempts_log]. destruct k; [reflexivity|].
  cbn [fetches]. by rewrite IH.
Qed.

Lemma fetches_app l1 l2 : fetches (l1 ++ l2) = fetches l1 + fetches l2.
Proof.
  induction l1 as [|[] l1 IH]; cbn; rewrite ?IH; reflexivity.
Qed.

Lemma retrieve_URL_log URL filepath timeout_s delay attempts w w' r :
  retrieve_URL E URL filepath (timeout_s, delay, attempts) w = (w', r) →
  ∃ k, out w' = out w ++ attempts_log URL timeout_s delay k ∧
       ((1 ≤ int attempts)%Z → 1 ≤ k).
Proof.
  intros Hrun. destruct (Z_lt_le_dec (int attempts) 1) as [Hlt|Hge].
  - rewrite retrieve_URL_no_loop in Hrun by lia.
    inversion Hrun; subst. exists 0. rewrite app_nil_r. split; [auto|lia].
  - unfold retrieve_URL in Hrun.
    apply retrieve_loop_spec in Hrun as (k & Hk & Hout & _); [|lia|lia].
    exists k. split; [exact Hout|lia].
Qed.

End DownloadArchive.

Section DownloadArchiveOutcome.
Context (E : env).

(** The second half of [_download_archive], case by case. *)
Lemma fetch_and_verify_spec info ver_path mirror_URL out_dir req_opts w :
  let archive_filepath := get_archive_filepath info out_dir in
  let URL := archive_URL info ver_path mirror_URL in
  ∃ w1 r1,
    retrieve_URL E URL archive_filepath req_opts w = (w1, r1) ∧
    fetch_and_verify E info ver_path mirror_URL out_dir req_opts w
    = (w1,
       match r1 with
       | Raise e => Raise e
       | Return _ =>
           match fs w1 !! archive_filepath with
           | None => Raise (Exn "FileNotFoundError" archive_filepath)
           | Some content =>
               if hash_accepted (digest E HASH_ALG content) info
               then Return tt
               else Raise (HashMismathError
                             (mismatch_msg info (digest E HASH_ALG content)
                                archive_filepath URL))
           end
       end).
Proof.
  cbn zeta. unfold fetch_and_verify, bind.
  destruct (retrieve_URL E _ _ req_opts w) as [w1 [v|e]]; eauto.
  exists w1, (Return v). split; [reflexivity|].
  unfold compute_hash. destruct (fs w1 !! _) as [content|]; [|reflexivity].
  destruct (hash_accepted _ info); reflexivity.
Qed.

End DownloadArchiveOutcome.

(** C2, as the code has it.  An archive whose expected hash is empty is
    never accepted: [_download_archive] always ends with an exception,
    and once the archive has been fetched to disk that exception is
    [HashMismathError] (the second test is the same
    [computed_hash and computed_hash == expected] as the first, which an
    empty expected hash cannot pass). *)
Theorem C2_empty_expected_hash_never_accepted
    (E : env) (info : archive_info) (ver_path mirror_URL out_dir : string)
    (req_opts : Q * Q * Q) (w : world) :
  sha256 info = "" →
  let archive_filepath := get_archive_filepath info out_dir in
  let URL := archive_URL info ver_path mirror_URL in
  ∃ w' e r1,
    _download_archive E info ver_path mirror_URL out_dir req_opts w
    = (w', Raise e) ∧
    retrieve_URL E URL archive_filepath req_opts w = (w', r1) ∧
    match r1, fs w' !! archive_filepath with
    | Raise e1, _ => e = e1
    | Return _, Some content =>
        e = HashMismathError
              (mismatch_msg info (digest E HASH_ALG content)
                 archive_filepath URL)
    | Return _, None => e = Exn "FileNotFoundError" archive_filepath
    end.
Proof.
  intros Hempty. cbn zeta. rewrite _download_archive_unfold.
  assert (Hinvalid : spec_isAlreadyValid E w
                       (get_archive_filepath info out_dir) (sha256 info)
                     = false).
  { rewrite <- hash_accepted_on_disk. by apply hash_accepted_empty. }
  rewrite Hinvalid.
  destruct (fetch_and_verify_spec E info ver_path mirror_URL out_dir
              req_opts w) as (w1 & r1 & Hfetch & ->).
  destruct r1 as [v|e1].
  - destruct (fs w1 !! get_archive_filepath info out_dir) as [content|] eqn:Hc.
    + rewrite hash_accepted_empty by exact Hempty.
      eexists w1, _, (Return v). split; [reflexivity|].
      split; [exact Hfetch|]. by rewrite Hc.
    + eexists w1, _, (Return v). split; [reflexivity|].
      split; [exact Hfetch|]. by rewrite Hc.
  - exists w1, e1, (Raise e1). auto.
Qed.

Lemma C2_witness :
  sha256 qtbase_unhashed = "" ∧
  ∃ w' e r1,
    _download_archive E_up qtbase_unhashed ver_path_640
      "https://download.qt.io" "archives" (15, 5, 3)%Q w_init
    = (w', Raise e) ∧
    retrieve_URL E_up
      (archive_URL qtbase_unhashed ver_path_640 "https://download.qt.io")
      (get_archive_filepath qtbase_unhashed "archives") (15, 5, 3)%Q w_init
    = (w', r1) ∧
    match r1, fs w' !! get_archive_filepath qtbase_unhashed "archives" with
    | Raise e1, _ => e = e1
    | Return _, Some content =>
        e = HashMismathError
              (mismatch_msg qtbase_unhashed (digest E_up HASH_ALG content)
                 (get_archive_filepath qtbase_unhashed "archives")
                 (archive_URL qtbase_unhashed ver_path_640
                    "https://download.qt.io"))
    | Return _, None =>
        e = Exn "FileNotFoundError"
              (get_archive_filepath qtbase_unhashed "archives")
    end.
Proof.
  split; [reflexivity|].
  apply (C2_empty_expected_hash_never_accepted E_up qtbase_unhashed).
  reflexivity.
Defined.

(** C2, as the specification has it, fails: the archive is fetched to
    disk in one request, its expected hash is empty, and the task raises
    [HashMismathError] instead of returning. *)
Lemma C2_counterexample :
  ∃ w' msg,
    sha256 qtbase_unhashed = "" ∧
    _download_archive E_up qtbase_unhashed ver_path_640
      "https://download.qt.io" "archives" (15, 5, 3)%Q w_init
    = (w', Raise (HashMismathError msg)) ∧
    fs w' !! "archives/6.4.0qtbase.7z" = Some "data" ∧
    fetches (out w') = 1.
Proof.
  eexists _, _. split; [reflexivity|].
  split; [vm_compute; reflexivity|]. split; reflexivity.
Qed.

(* ===================================================================== *)
(** * [download_archives]                                                 *)
(* ===================================================================== *)

Section Logs.

Lemma failed_mirrors_app l1 l2 :
  failed_mirrors (l1 ++ l2) = failed_mirrors l1 ++ failed_mirrors l2.
Proof.
  induction l1 as [|[| |[]| |] l1 IH]; cbn; rewrite ?IH; reflexivity.
Qed.

Lemma chosen_mirrors_app l1 l2 :
  chosen_mirrors (l1 ++ l2) = chosen_mirrors l1 ++ chosen_mirrors l2.
Proof.
  induction l1 as [|[| |[]| |] l1 IH]; cbn; rewrite ?IH; reflexivity.
Qed.

Lemma batch_log_no_mirror_line l :
  Forall batch_event l → failed_mirrors l = [] ∧ chosen_mirrors l = [].
Proof.
  induction 1 as [|[| |[]| |] l He _ [IH1 IH2]]; cbn in *; auto;
    contradiction.
Qed.

Lemma batch_log_failure_ok l :
  Forall batch_event l → Forall failure_line_ok l.
Proof.
  intros H. eapply Forall_impl; [exact H|].
  intros [| |[]| |]; cbn; auto; contradiction.
Qed.

Lemma idle_log_fetches l : Forall idle_event l → fetches l = 0.
Proof.
  induction 1 as [|[] l He _ IH]; cbn in *; auto; contradiction.
Qed.

Lemma net_event_batch e : net_event e → batch_event e.
Proof. destruct e as [| |[]| |]; cbn; auto. Qed.

Lemma pool_event_batch e : pool_event e → batch_event e.
Proof. destruct e as [| |[]| |]; cbn; auto. Qed.

Lemma pool_event_idle e : pool_event e → idle_event e.
Proof. destruct e as [| |[]| |]; cbn; auto. Qed.

End Logs.

Section Choice.
Context (E : env).

Lemma choice_spec seq w :
  seq ≠ [] →
  ∃ x, x ∈ seq ∧
       choice E seq w
       = (World (fs w) (dirs w) (opened w) (S (drawn w)) (pools w) (out w),
          Return x).
Proof.
  intros Hne. unfold choice.
  destruct (lookup_lt_is_Some_2 seq (draw E (drawn w) mod length seq))
    as [x Hx].
  { apply Nat.mod_upper_bound. destruct seq; [done|cbn; lia]. }
  rewrite Hx. exists x. split; [|reflexivity].
  eapply list_elem_of_lookup_2, Hx.
Qed.

Lemma list_remove_spec x l :
  x ∈ l → ∃ rest, list_remove x l = Some rest ∧ l ≡ₚ x :: rest.
Proof.
  induction l as [|y l IH]; intros Hin; [by apply not_elem_of_nil in Hin|].
  cbn. destruct (decide (y = x)) as [->|Hne]; [eauto|].
  apply elem_of_cons in Hin as [->|Hin]; [done|].
  destruct (IH Hin) as (rest & -> & Hperm). exists (y :: rest).
  split; [reflexivity|]. rewrite Hperm. apply Permutation_swap.
Qed.

(** A task only adds requests and sleeps to the log. *)
Lemma run_task_log a w w' r :
  run_task E a w = (w', r) → extends net_event w w'.
Proof.
  destruct a as [[[[info ver_path] mirror_URL] out_dir] req_opts].
  cbn [run_task]. rewrite _download_archive_unfold.
  destruct (spec_isAlreadyValid _ _ _ _).
  - intros [= <- _]. apply extends_refl.
  - destruct (fetch_and_verify_spec E info ver_path mirror_URL out_dir
                req_opts w) as (w1 & r1 & Hfetch & ->).
    intros [= <- _]. destruct req_opts as [[timeout_s delay] attempts].
    apply retrieve_URL_log in Hfetch as (k & Hout & _).
    exists (attempts_log (archive_URL info ver_path mirror_URL)
              timeout_s delay k).
    split; [exact Hout|apply attempts_log_net].
Qed.

End Choice.

Section PoolLog.
Context (E : env) {A R : Type} (f : A → M R) (P : event → Prop).
Hypothesis task_log : ∀ a w w' r, f a w = (w', r) → extends P w w'.

Lemma apply_async_log pool :
  ∀ async_args i w w' tasks,
    apply_async E f async_args pool i w = (w', tasks) → extends P w w'.
Proof.
  induction async_args as [|a l IH]; intros i w w' tasks H; cbn in H.
  - inversion H; subst. apply extends_refl.
  - destruct (f a w) as [w1 r] eqn:Hf.
    destruct (apply_async E f l pool (S i) w1) as [w2 ts] eqn:Hrest.
    inversion H; subst. eapply extends_trans; eauto.
Qed.

Hypothesis P_start : ∀ n, P (PoolStart n).
Hypothesis P_pool : ∀ e, pool_event e → P e.

Lemma pool_apply_log async_args async_opts w w' o :
  pool_apply E f async_args async_opts w = Some (w', o) →
  extends P w w'.
Proof.
  destruct async_opts as [workers_num print_delay_s]. intros Hrun.
  destruct (Pool_spec (int workers_num) w) as [[_ HPool]|[_ HPool]].
  - unfold pool_apply in Hrun. rewrite HPool in Hrun.
    inversion Hrun; subst. apply extends_refl.
  - destruct (pool_apply_spec E f async_args workers_num print_delay_s
                _ _ _ HPool)
      as (w1 & tasks & w2 & o2 & Hsub & Hrun2 & _ & _ & _ & _ & _ & Hext & _).
    rewrite Hrun in Hrun2. inversion Hrun2; subst w2 o2.
    match type of Hsub with apply_async _ _ _ _ _ ?w0 = _ =>
      apply (extends_trans P w w0 w');
        [|apply (extends_trans P w0 w1 w')] end.
    + exists [PoolStart (int workers_num)]. split; [reflexivity|].
      repeat constructor. apply P_start.
    + eapply apply_async_log, Hsub.
    + eapply extends_mono; [exact P_pool|exact Hext].
Qed.

End PoolLog.

Section DownloadLoop.
Context (E : env).
Context (archives : list (string * archive_info)) (ver_path out_dir : string)
        (async_opts : Q * Q) (req_opts : Q * Q * Q).

Let batch_args (mirror_URL : string) : list task_args :=
  build_async_args archives ver_path mirror_URL out_dir req_opts.

(** One round of the loop, as the three ways it can go. *)
Lemma download_loop_round fuel working_mirrors w :
  working_mirrors ≠ [] →
  ∃ mirror_URL w1 w3 o l3,
    mirror_URL ∈ working_mirrors ∧
    choice E working_mirrors w = (w1, Return mirror_URL) ∧
    fs w1 = fs w ∧ out w1 = out w ∧
    pool_apply E (run_task E) (batch_args mirror_URL) async_opts
      (log (Print (Downloading (length (batch_args mirror_URL)) mirror_URL))
         w1)
    = Some (w3, o) ∧
    out w3 = out w
             ++ Print (Downloading (length (batch_args mirror_URL))
                         mirror_URL) :: l3 ∧
    Forall batch_event l3 ∧
    download_loop E (S fuel) archives ver_path working_mirrors out_dir
      async_opts req_opts w
    = match o with
      | Return _ => Some (w3, working_mirrors, Return tt)
      | Raise e =>
          if is_class "HashMismathError" e
          then Some (w3, working_mirrors, Raise e)
          else if is_Exception e then
            match list_remove mirror_URL working_mirrors with
            | Some rest =>
                download_loop E fuel archives ver_path rest out_dir
                  async_opts req_opts
                  (log (Print (MirrorFailed e mirror_URL)) w3)
            | None =>
                Some (log (Print (MirrorFailed e mirror_URL)) w3,
                      working_mirrors,
                      Raise (Exn "ValueError" "list.remove(x): x not in list"))
            end
          else Some (w3, working_mirrors, Raise e)
      end.
Proof.
  intros Hne.
  destruct (choice_spec E working_mirrors w Hne) as (m & Hin & Hchoice).
  set (w1 := World (fs w) (dirs w) (opened w) (S (drawn w)) (pools w)
                   (out w)) in *.
  set (w2 := log (Print (Downloading (length (batch_args m)) m)) w1).
  destruct (pool_apply_total E (run_task E) (batch_args m) async_opts w2)
    as (w3 & o & Hrun).
  assert (Hlog : extends batch_event w2 w3).
  { eapply (pool_apply_log E (run_task E) batch_event); [| | |exact Hrun].
    - intros a v v' r Hr. eapply extends_mono; [apply net_event_batch|].
      eapply run_task_log, Hr.
    - intros n. exact I.
    - apply pool_event_batch. }
  destruct Hlog as (l3 & Hout3 & Hl3).
  exists m, w1, w3, o, l3. repeat split; auto.
  - rewrite Hout3. cbn. by rewrite <- app_assoc.
  - destruct working_mirrors as [|m0 ms]; [done|].
    cbn [download_loop]. rewrite Hchoice. fold (batch_args m). fold w2.
    rewrite Hrun. destruct o as [[]|e]; reflexivity.
Qed.

Lemma download_loop_spec :
  ∀ fuel working_mirrors w,
    length working_mirrors ≤ fuel →
    ∃ w' rest r l tail,
      download_loop E fuel archives ver_path working_mirrors out_dir
        async_opts req_opts w = Some (w', rest, r) ∧
      out w' = out w ++ l ∧
      working_mirrors ≡ₚ failed_mirrors l ++ rest ∧
      chosen_mirrors l = failed_mirrors l ++ tail ∧
      (∀ m, m ∈ tail → m ∈ rest) ∧ length tail ≤ 1 ∧
      Forall failure_line_ok l ∧
      (rest = [] → r = Raise (Exn "SystemExit" "All mirrors unreachable.")) ∧
      (r = Return tt → length tail = 1).
Proof.
  assert (Hempty : ∀ fuel w,
    ∃ w' rest r l tail,
      download_loop E fuel archives ver_path [] out_dir
        async_opts req_opts w = Some (w', rest, r) ∧
      out w' = out w ++ l ∧
      [] ≡ₚ failed_mirrors l ++ rest ∧
      chosen_mirrors l = failed_mirrors l ++ tail ∧
      (∀ m, m ∈ tail → m ∈ rest) ∧ length tail ≤ 1 ∧
      Forall failure_line_ok l ∧
      (rest = [] → r = Raise (Exn "SystemExit" "All mirrors unreachable.")) ∧
      (r = Return tt → length tail = 1)).
  { intros fuel w.
    exists w, [], (Raise (Exn "SystemExit" "All mirrors unreachable.")),
      [], [].
    split; [destruct fuel; reflexivity|].
    rewrite app_nil_r. repeat split; auto; try discriminate.
    all: intros m Hm; by apply not_elem_of_nil in Hm. }
  induction fuel as [|fuel IH]; intros mirrors w Hlen.
  - destruct mirrors; [apply Hempty|cbn in Hlen; lia].
  - destruct mirrors as [|m0 ms]; [apply Hempty|].
    destruct (download_loop_round fuel (m0 :: ms) w ltac:(done))
      as (m & w1 & w3 & o & l3 & Hin & _ & _ & _ & _ & Hout3 & Hl3 & ->).
    destruct (batch_log_no_mirror_line l3 Hl3) as [Hfailed3 Hchosen3].
    pose proof (batch_log_failure_ok l3 Hl3) as Hok3.
    set (D := Print (Downloading (length (batch_args m)) m)) in *.
    assert (Hstop : ∀ r, r ≠ Return tt ∨ True →
      ∃ w' rest r' l tail,
        Some (w3, m0 :: ms, r) = Some (w', rest, r') ∧
        out w' = out w ++ l ∧
        m0 :: ms ≡ₚ failed_mirrors l ++ rest ∧
        chosen_mirrors l = failed_mirrors l ++ tail ∧
        (∀ m, m ∈ tail → m ∈ rest) ∧ length tail ≤ 1 ∧
        Forall failure_line_ok l ∧
        (rest = [] →
         r' = Raise (Exn "SystemExit" "All mirrors unreachable.")) ∧
        (r' = Return tt → length tail = 1)).
    { intros r _. exists w3, (m0 :: ms), r, (D :: l3), [m].
      split; [reflexivity|]. split; [exact Hout3|].
      cbn [failed_mirrors chosen_mirrors D]. rewrite Hfailed3, Hchosen3.
      repeat split; auto; try discriminate.
      - intros ? ->%list_elem_of_singleton. exact Hin.
      - constructor; [exact I|exact Hok3]. }
    destruct o as [rs|e]; [apply Hstop; auto|].
    destruct (is_class "HashMismathError" e) eqn:Hhash; [apply Hstop; auto|].
    destruct (is_Exception e) eqn:Hexc; [|apply Hstop; auto].
    destruct (list_remove_spec m (m0 :: ms) Hin) as (rest' & -> & Hperm).
    assert (Hlen' : length rest' ≤ fuel).
    { apply Permutation_length in Hperm. cbn in Hperm, Hlen. lia. }
    destruct (IH rest' (log (Print (MirrorFailed e m)) w3) Hlen')
      as (w' & rest & r & l' & tail & Hrun & Hout & Hp & Hc & Ht & Ht1
          & Hok & Hexit & Hret).
    exists w', rest, r, (D :: l3 ++ Print (MirrorFailed e m) :: l'), tail.
    split; [exact Hrun|].
    split.
    { rewrite Hout. cbn [log out]. rewrite Hout3, <- !app_assoc.
      reflexivity. }
    cbn [failed_mirrors chosen_mirrors D].
    rewrite failed_mirrors_app, chosen_mirrors_app, Hfailed3, Hchosen3.
    cbn [failed_mirrors chosen_mirrors app]. rewrite Hc.
    repeat split; auto.
    + rewrite Hperm, Hp. reflexivity.
    + constructor; [exact I|]. apply Forall_app. split; [exact Hok3|].
      constructor; [|exact Hok]. split; assumption.
Qed.

End DownloadLoop.

(** ** A batch of archives that are all valid on disk *)

Section ValidOnDisk.
Context (E : env).
Context (archives : list (string * archive_info)) (ver_path out_dir : string)
        (async_opts : Q * Q) (req_opts : Q * Q * Q).

Let all_valid := all_valid E archives out_dir.

Lemma all_valid_fs w w' : fs w' = fs w → all_valid w → all_valid w'.
Proof.
  intros Hfs Hvalid a Ha. specialize (Hvalid a Ha).
  unfold spec_isAlreadyValid in *. by rewrite Hfs.
Qed.

Lemma apply_async_valid mirror_URL pool w :
  all_valid w →
  ∀ l i, l ⊆ archives →
    ∃ tasks,
      apply_async E (run_task E)
        (build_async_args l ver_path mirror_URL out_dir req_opts)
        pool i w = (w, tasks) ∧
      Forall succeeded tasks.
Proof.
  intros Hvalid. unfold build_async_args.
  induction l as [|a l IH]; intros i Hsub; cbn.
  - exists []. split; [reflexivity|constructor].
  - rewrite _download_archive_unfold, Hvalid by set_solver.
    destruct (IH (S i)) as (tasks & -> & Hall); [set_solver|].
    eexists. split; [reflexivity|].
    constructor; [by exists tt|exact Hall].
Qed.

Lemma download_loop_valid w0 :
  all_valid w0 →
  ∀ fuel working_mirrors w,
    fs w = fs w0 →
    length working_mirrors ≤ fuel →
    ∃ w' rest r,
      download_loop E fuel archives ver_path working_mirrors out_dir
        async_opts req_opts w = Some (w', rest, r) ∧
      fs w' = fs w0 ∧
      extends idle_event w w' ∧
      (working_mirrors ≠ [] → (1 ≤ int async_opts.1)%Z →
       r = Return tt ∧ rest = working_mirrors).
Proof.
  intros Hvalid.
  induction fuel as [|fuel IH]; intros mirrors w Hfs Hlen.
  { destruct mirrors; [|cbn in Hlen; lia].
    eexists w, [], _. split; [reflexivity|].
    repeat split; auto using extends_refl; done. }
  destruct mirrors as [|m0 ms].
  { eexists w, [], _. split; [reflexivity|].
    repeat split; auto using extends_refl; done. }
  destruct (download_loop_round E archives ver_path out_dir async_opts
              req_opts fuel (m0 :: ms) w ltac:(done))
    as (m & w1 & w3 & o & l3 & Hin & _ & Hfs1 & Hout1 & Hrun & _ & _ & ->).
  set (D := Print (Downloading _ m)) in Hrun.
  assert (Hvalid2 : all_valid (log D w1)).
  { eapply all_valid_fs; [|exact Hvalid]. cbn. congruence. }
  destruct async_opts as [workers_num print_delay_s]. cbn [fst].
  destruct (Pool_spec (int workers_num) (log D w1)) as [[Hlt HPool]|[Hge HPool]].
  - (* no pool: a [ValueError], the mirror is dropped *)
    unfold pool_apply in Hrun. rewrite HPool in Hrun.
    inversion Hrun; subst w3 o.
    set (e := Exn "ValueError" "Number of processes must be at least 1").
    replace (is_class "HashMismathError" e) with false by reflexivity.
    replace (is_Exception e) with true by reflexivity.
    destruct (list_remove_spec m (m0 :: ms) Hin) as (rest' & -> & Hperm).
    match goal with |- context [download_loop _ _ _ _ _ _ _ _ ?w4] =>
      destruct (IH rest' w4) as (w' & rest & r & Hloop & Hfs' & Hext & _) end.
    { cbn. congruence. }
    { apply Permutation_length in Hperm. cbn in Hperm, Hlen. lia. }
    exists w', rest, r. split; [exact Hloop|]. split; [exact Hfs'|].
    split; [|lia].
    eapply extends_trans; [|exact Hext].
    exists [D; Print (MirrorFailed e m)].
    split; [cbn; rewrite Hout1, <- app_assoc; reflexivity|].
    repeat constructor.
  - (* the pool runs the tasks, which have nothing to do *)
    destruct (pool_apply_spec E (run_task E)
                (build_async_args archives ver_path m out_dir req_opts)
                workers_num print_delay_s _ _ _ HPool)
      as (w1' & tasks & w2' & o2 & Hsub & Hrun2 & Hfs2 & _ & _ & _ & _
          & Hext2 & Ho2).
    rewrite Hrun in Hrun2. inversion Hrun2; subst w2' o2. clear Hrun2.
    match type of Hsub with apply_async _ _ _ _ _ ?wp = _ =>
      destruct (apply_async_valid m (pools (log D w1)) wp) with
        (l := archives) (i := 0) as (tasks' & Hsub' & Hall);
        [eapply all_valid_fs; [|exact Hvalid]; cbn; congruence
        |done|] end.
    rewrite Hsub in Hsub'. inversion Hsub'; subst w1' tasks'.
    destruct o as [rs|e].
    + exists w3, (m0 :: ms), (Return tt). split; [reflexivity|].
      split; [rewrite Hfs2; cbn; congruence|].
      split; [|auto].
      eapply extends_trans;
        [|eapply extends_mono; [apply pool_event_idle|exact Hext2]].
      exists [D; PoolStart (int workers_num)].
      split; [cbn; rewrite Hout1, <- app_assoc; reflexivity|].
      repeat constructor.
    + exfalso. destruct Ho2 as (t & Ht & Hres).
      rewrite Forall_forall in Hall. destruct (Hall t Ht) as [v Hv].
      congruence.
Qed.

End ValidOnDisk.

(** C3. The first test of [_download_archive] is the policy
    [isAlreadyValid] of the specification: the task returns at once,
    leaving the world as it is, exactly when the destination file exists,
    its digest equals the expected hash and the expected hash is not
    empty, and goes on to [retrieve_URL] otherwise (making at least one
    request when [int(attempts) >= 1]); an empty expected hash never
    skips the fetch; and a batch over archives that are all valid on disk
    makes no request at all and leaves every file as it is (it succeeds
    on the first mirror chosen whenever there is a mirror and a pool). *)
Theorem C3_valid_archives_are_not_fetched
    (E : env) (info : archive_info) (ver_path mirror_URL out_dir : string)
    (req_opts : Q * Q * Q) (w : world) :
  let archive_filepath := get_archive_filepath info out_dir in
  let valid := spec_isAlreadyValid E w archive_filepath (sha256 info) in
  _download_archive E info ver_path mirror_URL out_dir req_opts w
  = (if valid then (w, Return tt)
     else fetch_and_verify E info ver_path mirror_URL out_dir req_opts w) ∧
  (valid = false → (1 ≤ int req_opts.2)%Z →
   ∃ w' r,
     fetch_and_verify E info ver_path mirror_URL out_dir req_opts w
     = (w', r) ∧
     fetches (out w) < fetches (out w')) ∧
  (sha256 info = "" → valid = false) ∧
  (∀ archives mirrors async_opts,
     all_valid E archives out_dir w →
     ∃ w' rest r,
       download_archives E archives ver_path mirrors out_dir async_opts
         req_opts w = Some (w', rest, r) ∧
       fetches (out w') = fetches (out w) ∧
       fs w' = fs w ∧
       (truthy out_dir = true → mirrors ≠ [] → (1 ≤ int async_opts.1)%Z →
        r = Return tt ∧ rest = mirrors)).
Proof.
  cbn zeta. split; [apply _download_archive_unfold|]. split; [|split].
  - intros _ Hattempts.
    destruct (fetch_and_verify_spec E info ver_path mirror_URL out_dir
                req_opts w) as (w1 & r1 & Hfetch & ->).
    destruct req_opts as [[timeout_s delay] attempts].
    apply retrieve_URL_log in Hfetch as (k & Hout & Hk).
    eexists _, _. split; [reflexivity|].
    rewrite Hout, fetches_app, fetches_attempts_log.
    specialize (Hk Hattempts). lia.
  - intros Hempty. rewrite <- hash_accepted_on_disk.
    by apply hash_accepted_empty.
  - intros archives mirrors async_opts Hvalid. unfold download_archives.
    unfold makedirs. destruct (truthy out_dir) eqn:Hdir.
    + match goal with |- context [download_loop _ _ _ _ _ _ _ _ ?w0] =>
        destruct (download_loop_valid E archives ver_path out_dir async_opts
                    req_opts w Hvalid (length mirrors) mirrors w0)
          as (w' & rest & r & Hrun & Hfs & (l & Hout & Hl) & Hok) end;
        [reflexivity|lia|].
      exists w', rest, r. split; [exact Hrun|].
      split; [|split; [exact Hfs|auto]].
      rewrite Hout. cbn. rewrite fetches_app, (idle_log_fetches l Hl). lia.
    + exists w, mirrors, (Raise (Exn "FileNotFoundError" out_dir)).
      repeat split; auto; discriminate.
Qed.

(** C5, as the code has it.  [download_archives] always comes to an end;
    the mirrors it started with are those left in the pool together with
    those named by the "Failed to fetch an archive from" lines it has
    printed, one line per excluded mirror, each for a failure of the
    network class; and when the pool ends up empty, every mirror having
    been excluded that way, the outcome is the [SystemExit] of
    [sys.exit("All mirrors unreachable.")], whose message is that fixed
    text, and nothing else. *)
Theorem C5_exhausted_pool_exits
    (E : env) (archives : list (string * archive_info))
    (ver_path : string) (mirrors : list string) (out_dir : string)
    (async_opts : Q * Q) (req_opts : Q * Q * Q) (w : world) :
  truthy out_dir = true →
  ∃ w' rest r l,
    download_archives E archives ver_path mirrors out_dir async_opts
      req_opts w = Some (w', rest, r) ∧
    out w' = out w ++ l ∧
    mirrors ≡ₚ failed_mirrors l ++ rest ∧
    Forall failure_line_ok l ∧
    (rest = [] →
     r = Raise (Exn "SystemExit" "All mirrors unreachable.") ∧
     mirrors ≡ₚ failed_mirrors l).
Proof.
  intros Hdir. unfold download_archives, makedirs. rewrite Hdir.
  match goal with |- context [download_loop _ _ _ _ _ _ _ _ ?w0] =>
    destruct (download_loop_spec E archives ver_path out_dir async_opts
                req_opts (length mirrors) mirrors w0)
      as (w' & rest & r & l & tail & Hrun & Hout & Hperm & _ & _ & _ & Hok
          & Hexit & _) end; [lia|].
  exists w', rest, r, l.
  split; [exact Hrun|]. split; [exact Hout|]. split; [exact Hperm|].
  split; [exact Hok|]. intros Hrest. split; [auto|].
  subst rest. by rewrite app_nil_r in Hperm.
Qed.

Lemma C5_witness :
  truthy "archives" = true ∧
  ∃ w' rest r l,
    download_archives E_down [("qtbase", qtbase)] ver_path_640
      ["https://mirror.example"; "https://download.qt.io"] "archives"
      (5, 10)%Q (15, 5, 1)%Q w_init = Some (w', rest, r) ∧
    out w' = out w_init ++ l ∧
    ["https://mirror.example"; "https://download.qt.io"]
    ≡ₚ failed_mirrors l ++ rest ∧
    Forall failure_line_ok l ∧
    (rest = [] →
     r = Raise (Exn "SystemExit" "All mirrors unreachable.") ∧
     ["https://mirror.example"; "https://download.qt.io"]
     ≡ₚ failed_mirrors l).
Proof.
  split; [reflexivity|].
  apply (C5_exhausted_pool_exits E_down). reflexivity.
Defined.

(** C5, as the specification has it, fails: with the only mirror down,
    what comes out is a [SystemExit] with a fixed message; it is no
    [AllMirrorsExhaustedError] and the mirror that was tried is not in
    its message (the line printed before names it). *)
Lemma C5_counterexample :
  ∃ w' e,
    download_archives E_down [("qtbase", qtbase)] ver_path_640
      ["https://mirror.example"] "archives" (5, 10)%Q (15, 5, 1)%Q w_init
    = Some (w', [], Raise e) ∧
    e = Exn "SystemExit" "All mirrors unreachable." ∧
    exn_class e ≠ "AllMirrorsExhaustedError" ∧
    occurs_in "https://mirror.example" (exn_msg e) = false ∧
    failed_mirrors (out w') = ["https://mirror.example"].
Proof.
  eexists _, _. split; [vm_compute; reflexivity|].
  split; [reflexivity|]. split; [discriminate|]. split; reflexivity.
Qed.

(** C4, where the code departs from it.  The pool holds the same URL
    twice and no server answers: the URL is chosen, fails, is announced
    as "no longer used for this run", loses one of its two entries, and
    is chosen again for the next batch. *)
Theorem C4_duplicate_mirror_is_chosen_again :
  ∃ w',
    download_archives E_down [("qtbase", qtbase)] ver_path_640
      ["https://mirror.example"; "https://mirror.example"] "archives"
      (5, 10)%Q (15, 5, 1)%Q w_init
    = Some (w', [], Raise (Exn "SystemExit" "All mirrors unreachable.")) ∧
    chosen_mirrors (out w')
    = ["https://mirror.example"; "https://mirror.example"] ∧
    failed_mirrors (out w')
    = ["https://mirror.example"; "https://mirror.example"] ∧
    out w'
    = [Print (Downloading 1 "https://mirror.example");
       PoolStart 5;
       Urlopen ("https://mirror.example/online/qtsdkrepository/"
                +:+ ver_path_640 +:+ "/" +:+ rel_path qtbase) 15;
       Sleep (1 # 4); PoolStop;
       Print (MirrorFailed url_err "https://mirror.example");
       Print (Downloading 1 "https://mirror.example");
       PoolStart 5;
       Urlopen ("https://mirror.example/online/qtsdkrepository/"
                +:+ ver_path_640 +:+ "/" +:+ rel_path qtbase) 15;
       Sleep (1 # 4); PoolStop;
       Print (MirrorFailed url_err "https://mirror.example")].
Proof.
  eexists. split; [vm_compute; reflexivity|].
  split; [reflexivity|]. split; reflexivity.
Qed.

(** What does hold of the pool, for every list of mirrors: it only
    loses the mirrors named by the "Failed to fetch" lines, one entry
    per line; the mirrors chosen are those that failed, in order,
    followed by the one in use when the loop stopped; and when no URL
    occurs twice in the pool no mirror is chosen twice. *)
Lemma download_archives_pool_shrinks
    (E : env) (archives : list (string * archive_info))
    (ver_path : string) (mirrors : list string) (out_dir : string)
    (async_opts : Q * Q) (req_opts : Q * Q * Q) (w : world) :
  truthy out_dir = true →
  ∃ w' rest r l,
    download_archives E archives ver_path mirrors out_dir async_opts
      req_opts w = Some (w', rest, r) ∧
    out w' = out w ++ l ∧
    mirrors ≡ₚ failed_mirrors l ++ rest ∧
    length rest + length (failed_mirrors l) = length mirrors ∧
    (NoDup mirrors → NoDup (chosen_mirrors l)) ∧
    (r = Return tt →
     ∃ m, m ∈ rest ∧ chosen_mirrors l = failed_mirrors l ++ [m]).
Proof.
  intros Hdir. unfold download_archives, makedirs. rewrite Hdir.
  match goal with |- context [download_loop _ _ _ _ _ _ _ _ ?w0] =>
    destruct (download_loop_spec E archives ver_path out_dir async_opts
                req_opts (length mirrors) mirrors w0)
      as (w' & rest & r & l & tail & Hrun & Hout & Hperm & Hchosen & Htail
          & Hlen & _ & _ & Hret) end; [lia|].
  exists w', rest, r, l. repeat split; auto.
  - apply Permutation_length in Hperm. rewrite length_app in Hperm. lia.
  - intros Hnodup. rewrite Hperm in Hnodup. rewrite Hchosen.
    apply NoDup_app in Hnodup as (Hf & Hdisj & Hrest).
    apply NoDup_app. split; [exact Hf|]. split.
    + intros m Hm Hm'. eapply Hdisj; eauto.
    + destruct tail as [|m [|m' tail]]; [constructor| |cbn in Hlen; lia].
      apply NoDup_singleton.
  - intros Hr. specialize (Hret Hr).
    destruct tail as [|m [|m' tail]]; cbn in Hret; try lia.
    exists m. split; [apply Htail; by left|exact Hchosen].
Qed.

(** A batch in which some task fails and every failing task fails with
    a hash mismatch is a batch that [pool_apply] ends with a hash
    mismatch. *)
Lemma pool_apply_only_hash_mismatches
    (E : env) {A R : Type} (f : A → M R) (async_args : list A)
    (workers_num print_delay_s : Q) (w w0 w1 : world) (pool : nat)
    (tasks : list (AsyncResult R)) :
  Pool (int workers_num) w = (w0, Return pool) →
  apply_async E f async_args pool 0 w0 = (w1, tasks) →
  ¬ Forall succeeded tasks →
  (∀ t e, t ∈ tasks → result t = Raise e →
          is_class "HashMismathError" e = true) →
  ∃ w3 e,
    pool_apply E f async_args (workers_num, print_delay_s) w
    = Some (w3, Raise e) ∧
    is_class "HashMismathError" e = true.
Proof.
  intros HPool Hsub Hfail Hhash.
  destruct (pool_apply_spec E f async_args workers_num print_delay_s
              w w0 pool HPool)
    as (w1' & tasks' & w3 & o & Hsub' & Hrun & _ & _ & _ & _ & _ & _ & Ho).
  rewrite Hsub in Hsub'. inversion Hsub'; subst w1' tasks'.
  destruct o as [rs|e]; [destruct Ho as [Hall _]; contradiction|].
  destruct Ho as (t & Ht & Hres). exists w3, e. eauto.
Qed.

(** C1, as the code has it.  In whichever round of the loop the batch
    that [pool_apply] runs on the chosen mirror ends with a
    [HashMismathError], [download_archives] lets that very exception out
    at once: the world is the one the batch left (nothing is printed
    after it), the pool is as it was before the round (the mirror has
    not been removed) and no other mirror is chosen.  That is the case of
    the first round of [download_archives] in particular.  Which failure
    the batch ends with is decided by [pool_apply]: the first failed task,
    in task order, at the first poll that finds one. *)
Theorem C1_hash_mismatch_is_reraised
    (E : env) (archives : list (string * archive_info))
    (ver_path : string) (working_mirrors : list string) (out_dir : string)
    (async_opts : Q * Q) (req_opts : Q * Q * Q)
    (w w1 w3 : world) (mirror_URL : string) (e : exn) :
  let async_args :=
    build_async_args archives ver_path mirror_URL out_dir req_opts in
  choice E working_mirrors w = (w1, Return mirror_URL) →
  pool_apply E (run_task E) async_args async_opts
    (log (Print (Downloading (length async_args) mirror_URL)) w1)
  = Some (w3, Raise e) →
  is_class "HashMismathError" e = true →
  (∀ fuel,
     download_loop E (S fuel) archives ver_path working_mirrors out_dir
       async_opts req_opts w = Some (w3, working_mirrors, Raise e)) ∧
  (∀ w_before,
     makedirs out_dir w_before = (w, Return tt) →
     download_archives E archives ver_path working_mirrors out_dir
       async_opts req_opts w_before
     = Some (w3, working_mirrors, Raise e)).
Proof.
  intros async_args Hchoice Hrun Hclass.
  assert (Hne : working_mirrors ≠ []).
  { intros ->. unfold choice in Hchoice. by rewrite lookup_nil in Hchoice. }
  assert (Hround : ∀ fuel,
    download_loop E (S fuel) archives ver_path working_mirrors out_dir
      async_opts req_opts w = Some (w3, working_mirrors, Raise e)).
  { intros fuel. destruct working_mirrors as [|m0 ms]; [done|].
    cbn [download_loop]. rewrite Hchoice. cbv zeta.
    fold async_args. rewrite Hrun, Hclass. reflexivity. }
  split; [exact Hround|].
  intros w_before Hmk. unfold download_archives. rewrite Hmk.
  destruct working_mirrors as [|m0 ms]; [done|]. apply Hround.
Qed.

Lemma C1_witness :
  (choice E_up two_mirrors w_start
   = (w_chosen, Return "https://mirror.example")
   ∧ pool_apply E_up (run_task E_up)
       (build_async_args [("qtbase", qtbase_tampered)] ver_path_640
          "https://mirror.example" "archives" (15, 5, 3)%Q)
       (5, 10)%Q
       (log (Print (Downloading 1 "https://mirror.example")) w_chosen)
     = Some (w_mismatch, Raise e_mismatch)
   ∧ is_class "HashMismathError" e_mismatch = true)
  ∧ (∀ fuel,
       download_loop E_up (S fuel) [("qtbase", qtbase_tampered)]
         ver_path_640 two_mirrors "archives" (5, 10)%Q (15, 5, 3)%Q w_start
       = Some (w_mismatch, two_mirrors, Raise e_mismatch))
  ∧ (∀ w_before,
       makedirs "archives" w_before = (w_start, Return tt) →
       download_archives E_up [("qtbase", qtbase_tampered)] ver_path_640
         two_mirrors "archives" (5, 10)%Q (15, 5, 3)%Q w_before
       = Some (w_mismatch, two_mirrors, Raise e_mismatch)).
Proof.
  assert (H1 : choice E_up two_mirrors w_start
               = (w_chosen, Return "https://mirror.example"))
    by reflexivity.
  assert (H2 : pool_apply E_up (run_task E_up)
                 (build_async_args [("qtbase", qtbase_tampered)]
                    ver_path_640 "https://mirror.example" "archives"
                    (15, 5, 3)%Q)
                 (5, 10)%Q
                 (log (Print (Downloading 1 "https://mirror.example"))
                    w_chosen)
               = Some (w_mismatch, Raise e_mismatch))
    by (vm_compute; reflexivity).
  split; [split; [exact H1|split; [exact H2|reflexivity]]|].
  apply (C1_hash_mismatch_is_reraised E_up [("qtbase", qtbase_tampered)]
           ver_path_640 two_mirrors "archives" (5, 10)%Q (15, 5, 3)%Q
           w_start w_chosen w_mismatch "https://mirror.example" e_mismatch
           H1 H2).
  reflexivity.
Defined.

(** C1, as the specification has it, fails.  In the first batch the task
    of the second archive raises [HashMismathError] and the task of the
    first archive raises [URLError]; both are ready at the first poll,
    [pool_apply] re-raises the failure it meets first in task order, the
    [URLError], and [download_archives] treats the batch as a mirror
    failure: the mirror is removed, the second mirror is chosen, and the
    run ends with "All mirrors unreachable." instead of the mismatch. *)
Lemma C1_counterexample :
  ∃ w1 tasks msg w',
    apply_async E_mixed (run_task E_mixed)
      (build_async_args [("a", pkg_a); ("b", pkg_b)] ver_path_640
         "https://mirror.example" "archives" (15, 5, 1)%Q)
      0 0
      (World ∅ {["archives"]} 0 1 1
         [Print (Downloading 2 "https://mirror.example"); PoolStart 5])
    = (w1, tasks) ∧
    result <$> tasks !! 1 = Some (Raise (HashMismathError msg)) ∧
    result <$> tasks !! 0 = Some (Raise url_err) ∧
    (∃ w3,
       pool_apply E_mixed (run_task E_mixed)
         (build_async_args [("a", pkg_a); ("b", pkg_b)] ver_path_640
            "https://mirror.example" "archives" (15, 5, 1)%Q)
         (5, 10)%Q
         (log (Print (Downloading 2 "https://mirror.example")) w_chosen)
       = Some (w3, Raise url_err)) ∧
    download_archives E_mixed [("a", pkg_a); ("b", pkg_b)] ver_path_640
      two_mirrors "archives" (5, 10)%Q (15, 5, 1)%Q w_init
    = Some (w', [], Raise (Exn "SystemExit" "All mirrors unreachable.")) ∧
    chosen_mirrors (out w') = two_mirrors ∧
    failed_mirrors (out w') = two_mirrors.
Proof.
  eexists _, _, _, _. split; [vm_compute; reflexivity|].
  split; [reflexivity|]. split; [reflexivity|].
  split; [eexists; vm_compute; reflexivity|].
  split; [vm_compute; reflexivity|]. split; reflexivity.
Qed.

(* ===================================================================== *)
(** * The scenarios of the specification, run                             *)
(* ===================================================================== *)

(** The policy of the specification, spelled out. *)
Lemma spec_isAlreadyValid_iff E w filePath expectedHash :
  spec_isAlreadyValid E w filePath expectedHash = true
  ↔ ∃ content,
      fs w !! filePath = Some content ∧
      digest E HASH_ALG content = expectedHash ∧
      expectedHash ≠ "".
Proof.
  unfold spec_isAlreadyValid. destruct (fs w !! filePath) as [c|].
  - rewrite andb_true_iff, bool_decide_eq_true. split.
    + intros [Hd Ht]. exists c. repeat split; auto.
      intros ->. discriminate.
    + intros (c' & [= <-] & Hd & Hne). split; [exact Hd|].
      by destruct expectedHash.
  - split; [discriminate|]. by intros (? & ? & _).
Qed.

(** Idempotence: the first run fetches the archive in one request, the
    second run on the world that the first one left fetches nothing. *)
Example second_run_fetches_nothing :
  ∃ w1 w2,
    download_archives E_up [("qtbase", qtbase)] ver_path_640 two_mirrors
      "archives" (5, 10)%Q (15, 5, 3)%Q w_init
    = Some (w1, two_mirrors, Return tt) ∧
    fetches (out w1) = 1 ∧
    all_valid E_up [("qtbase", qtbase)] "archives" w1 ∧
    download_archives E_up [("qtbase", qtbase)] ver_path_640 two_mirrors
      "archives" (5, 10)%Q (15, 5, 3)%Q w1
    = Some (w2, two_mirrors, Return tt) ∧
    fetches (out w2) = 1.
Proof.
  eexists _, _. split; [vm_compute; reflexivity|].
  split; [reflexivity|]. split.
  - intros a ->%list_elem_of_singleton. reflexivity.
  - split; [vm_compute; reflexivity|reflexivity].
Qed.

(** Atomic cache writes: the write of a new mirror list fails after the
    temporary file is written and before the rename (four primitives go
    through: makedirs, open, two writes); the old list is still there,
    whole, and the new text is in the temporary file. *)
Example dump_JSON_fails_before_rename :
  ∃ w',
    dump_JSON (Some 4) ["[1"; ", 2]"] "data/mirrors.json"
      (World {["data/mirrors.json" := "[]"]} ∅ 0 0 0 [])
    = (w', Raise (Exn "OSError" "the operation failed")) ∧
    fs w' !! "data/mirrors.json" = Some "[]" ∧
    fs w' !! "data/mirrors.json.tmp" = Some "[1, 2]".
Proof. eexists. split; [vm_compute; reflexivity|]. split; reflexivity. Qed.

(** Mirror failover: the first mirror is down, the second serves the
    archive; one mirror is excluded and the batch succeeds. *)
Example failover_to_second_mirror :
  let E := Env toy_digest
               (fun _ URL => if occurs_in "mirror.example" URL
                             then Refused url_err else Body "data")
               (fun _ => 0) (fun _ _ => 1) in
  ∃ w',
    download_archives E [("qtbase", qtbase)] ver_path_640 two_mirrors
      "archives" (5, 10)%Q (15, 5, 1)%Q w_init
    = Some (w', ["https://download.qt.io"], Return tt) ∧
    failed_mirrors (out w') = ["https://mirror.example"] ∧
    fs w' !! "archives/6.4.0qtbase.7z" = Some "data".
Proof.
  cbv zeta. eexists. split; [vm_compute; reflexivity|]. split; reflexivity.
Qed.

(* ===================================================================== *)
(** * [force_len]                                                         *)
(* ===================================================================== *)

Section ForceLen.

Lemma filter_truthy_all l :
  Forall (fun s => truthy s = true) (List.filter truthy l).
Proof.
  induction l as [|s l IH]; cbn; [constructor|].
  destruct (truthy s) eqn:Hs; [constructor|]; auto.
Qed.

Lemma filter_truthy_id l :
  Forall (fun s => truthy s = true) l → List.filter truthy l = l.
Proof.
  induction 1 as [|s l Hs _ IH]; cbn; [reflexivity|]. by rewrite Hs, IH.
Qed.

Lemma filter_truthy_replicate k pad :
  List.filter truthy (replicate k pad)
  = if truthy pad then replicate k pad else [].
Proof.
  induction k as [|k IH]; cbn; [by destruct (truthy pad)|].
  rewrite IH. by destruct (truthy pad).
Qed.

(** For a length that is not negative: the first truthy items, in their
    order, then the padding. *)
Lemma force_len_shape list_obj n pad :
  (0 ≤ n)%Z →
  force_len list_obj n pad
  = take (Z.to_nat n) (List.filter truthy list_obj)
    ++ replicate (Z.to_nat n - length (List.filter truthy list_obj)) pad.
Proof.
  intros Hn. unfold force_len, slice_to.
  replace (0 <=? n)%Z with true by (symmetry; by apply Z.leb_le).
  rewrite take_app, take_replicate. do 2 f_equal. lia.
Qed.

End ForceLen.

(** X1. For every list, padding and length [n >= 0], [force_len] returns
    exactly [n] items: the unpacking at its call sites
    ([OS, platform, ver, arch = force_len(..., 4)]) cannot fail. *)
Theorem X1_force_len_length (list_obj : list string) (n : Z) (pad : string) :
  (0 ≤ n)%Z →
  length (force_len list_obj n pad) = Z.to_nat n.
Proof.
  intros Hn. rewrite force_len_shape by exact Hn.
  rewrite length_app, length_take, length_replicate. lia.
Qed.

Lemma X1_witness :
  (0 ≤ 4)%Z ∧
  length (force_len ["linux_x64"; ""; "desktop"] 4 "") = Z.to_nat 4.
Proof.
  split; [lia|]. apply (X1_force_len_length ["linux_x64"; ""; "desktop"]).
  lia.
Defined.

(** X2. For [n >= 0] the result of [force_len] is made of the truthy
    items of the input, first come first kept and at most [n] of them,
    followed by nothing but padding; and forcing the length of a forced
    list again changes nothing. *)
Theorem X2_force_len_keeps_truthy_then_pads
    (list_obj : list string) (n : Z) (pad : string) :
  (0 ≤ n)%Z →
  (∃ kept, kept `prefix_of` List.filter truthy list_obj ∧
           length kept = Nat.min (Z.to_nat n)
                           (length (List.filter truthy list_obj)) ∧
           force_len list_obj n pad
           = kept ++ replicate (Z.to_nat n - length kept) pad) ∧
  force_len (force_len list_obj n pad) n pad = force_len list_obj n pad.
Proof.
  intros Hn. set (F := List.filter truthy list_obj).
  set (N := Z.to_nat n). split.
  - exists (take N F). split; [apply prefix_take|].
    rewrite length_take. split; [reflexivity|].
    rewrite force_len_shape by exact Hn. fold F N. do 2 f_equal. lia.
  - rewrite (force_len_shape (force_len _ _ _)) by exact Hn.
    rewrite (force_len_shape list_obj) by exact Hn. fold F N.
    rewrite List.filter_app, filter_truthy_replicate.
    rewrite (filter_truthy_id (take N F)).
    2:{ apply Forall_take, filter_truthy_all. }
    destruct (truthy pad).
    + rewrite take_ge.
      2:{ rewrite length_app, length_take, length_replicate. lia. }
      rewrite length_app, length_take, length_replicate.
      replace (N - (N `min` length F + (N - length F))) with 0 by lia.
      by rewrite app_nil_r.
    + rewrite app_nil_r, take_take, length_take. do 2 f_equal; lia.
Qed.

Lemma X2_witness :
  (0 ≤ 3)%Z ∧
  (∃ kept, kept `prefix_of` List.filter truthy ["qt6"; ""; "640"] ∧
           length kept = Nat.min (Z.to_nat 3)
                           (length (List.filter truthy ["qt6"; ""; "640"])) ∧
           force_len ["qt6"; ""; "640"] 3 ""
           = kept ++ replicate (Z.to_nat 3 - length kept) "") ∧
  force_len (force_len ["qt6"; ""; "640"] 3 "") 3 ""
  = force_len ["qt6"; ""; "640"] 3 "".
Proof.
  split; [lia|].
  apply (X2_force_len_keeps_truthy_then_pads ["qt6"; ""; "640"]). lia.
Defined.

(* ===================================================================== *)
(** * More on [retrieve_URL]                                              *)
(* ===================================================================== *)

Section RetrieveMore.
Context (E : env) (URL filepath : string) (timeout_s delay : Q).

(** What one attempt does to the world. *)
Lemma attempt_once_world w w1 o :
  attempt_once E URL filepath timeout_s w = (w1, o) →
  dirs w1 = dirs w ∧ drawn w1 = drawn w ∧ pools w1 = pools w ∧
  opened w1 = S (opened w) ∧
  out w1 = out w ++ [Urlopen URL timeout_s] ∧
  (fs w1 = fs w ∨
   (truthy filepath = true ∧ ∃ c, fs w1 = <[filepath := c]> (fs w))) ∧
  (∀ v, o = Return v →
        ∃ c, net E (opened w) URL = Body c ∧
             v = (if truthy filepath then VStr "" else VBytes c) ∧
             fs w1 = if truthy filepath then <[filepath := c]> (fs w)
                     else fs w).
Proof.
  unfold attempt_once, urlopen. intros H.
  destruct (net E (opened w) URL) as [c|e|c e];
    destruct (truthy filepath) eqn:Hfp; inversion H; subst; cbn;
    repeat split; eauto; try discriminate.
  all: intros v [= <-]; exists c; rewrite ?Hfp; auto.
Qed.

(** [retrieve_URL] touches no file but [filepath]. *)
Lemma retrieve_loop_frame attempts :
  ∀ todo attempt w w' r,
    retrieve_loop E todo attempt attempts URL filepath timeout_s delay w
    = (w', r) →
    dirs w' = dirs w ∧ drawn w' = drawn w ∧ pools w' = pools w ∧
    (fs w' = fs w ∨
     (truthy filepath = true ∧ ∃ c, fs w' = <[filepath := c]> (fs w))).
Proof.
  induction todo as [|todo IH]; intros attempt w w' r Hrun;
    cbn [retrieve_loop] in Hrun.
  { inversion Hrun; subst. auto. }
  destruct (attempt_once E URL filepath timeout_s w) as [w1 o] eqn:Hatt.
  apply attempt_once_world in Hatt as (Hd & Hdr & Hp & _ & _ & Hfs & _).
  assert (Hstop : dirs w1 = dirs w ∧ drawn w1 = drawn w ∧
                  pools w1 = pools w ∧
                  (fs w1 = fs w ∨
                   (truthy filepath = true ∧
                    ∃ c, fs w1 = <[filepath := c]> (fs w)))) by auto.
  destruct o as [v|e]; [by inversion Hrun; subst|].
  destruct (is_Exception e); [|by inversion Hrun; subst].
  destruct (attempt + 1 =? attempts)%Z; [by inversion Hrun; subst|].
  unfold bind, sleep in Hrun.
  destruct (Qle_bool 0 delay); [|by inversion Hrun; subst].
  apply IH in Hrun as (Hd' & Hdr' & Hp' & Hfs'). cbn in Hd', Hdr', Hp', Hfs'.
  repeat split; try congruence.
  destruct Hfs' as [Hsame|[Hfp [c Hc]]].
  - rewrite Hsame. exact Hfs.
  - right. split; [exact Hfp|]. exists c. rewrite Hc.
    destruct Hfs as [->|[_ [c' ->]]]; [reflexivity|].
    apply insert_insert_eq.
Qed.

(** The first attempt that succeeds ends the loop. *)
Lemma retrieve_loop_success attempts c :
  ∀ j todo attempt w,
    (attempt + Z.of_nat todo = attempts)%Z →
    j < todo →
    (∀ i, i < j → ∃ e, reply_exn (net E (opened w + i) URL) = Some e ∧
                       is_Exception e = true) →
    net E (opened w + j) URL = Body c →
    (j = 0 ∨ Qle_bool 0 delay = true) →
    ∃ w',
      retrieve_loop E todo attempt attempts URL filepath timeout_s delay w
      = (w', Return (if truthy filepath then VStr "" else VBytes c)) ∧
      fs w' = (if truthy filepath then <[filepath := c]> (fs w) else fs w) ∧
      opened w' = opened w + S j ∧
      out w' = out w ++ attempts_log URL timeout_s delay (S j).
Proof.
  induction j as [|j IH]; intros todo attempt w Hinv Hj Hfail Hbody Hdelay;
    (destruct todo as [|todo]; [lia|]); cbn [retrieve_loop].
  - destruct (attempt_once E URL filepath timeout_s w) as [w1 o] eqn:Hatt.
    pose proof (attempt_once_spec E _ _ _ _ _ _ Hatt) as (Hout & Hop & Hrep).
    apply attempt_once_world in Hatt as (_ & _ & _ & _ & _ & _ & Hret).
    rewrite Nat.add_0_r in Hbody. rewrite Hbody in Hrep.
    destruct o as [v|e]; [|discriminate].
    destruct (Hret v eq_refl) as (c' & Hc' & -> & Hfs).
    rewrite Hbody in Hc'. inversion Hc'; subst c'.
    exists w1. repeat split; auto. lia.
  - destruct (attempt_once E URL filepath timeout_s w) as [w1 o] eqn:Hatt.
    pose proof (attempt_once_spec E _ _ _ _ _ _ Hatt) as (Hout & Hop & Hrep).
    apply attempt_once_world in Hatt as (_ & _ & _ & _ & _ & Hfs & _).
    destruct (Hfail 0 ltac:(lia)) as (e0 & He0 & Hexc).
    rewrite Nat.add_0_r in He0. destruct o as [v|e]; [congruence|].
    rewrite He0 in Hrep. inversion Hrep; subst e0. rewrite Hexc.
    replace (attempt + 1 =? attempts)%Z with false
      by (symmetry; apply Z.eqb_neq; lia).
    destruct Hdelay as [?|Hdelay]; [lia|].
    unfold bind, sleep. rewrite Hdelay.
    destruct (IH todo (attempt + 1)%Z (log (Sleep delay) w1))
      as (w' & Hrun & Hfs' & Hop' & Hout'); [lia|lia| | |auto|].
    { intros i Hi. cbn. rewrite Hop.
      replace (S (opened w) + i) with (opened w + S i) by lia.
      apply Hfail. lia. }
    { cbn. rewrite Hop.
      by replace (S (opened w) + j) with (opened w + S j) by lia. }
    exists w'. split; [exact Hrun|]. cbn in Hfs', Hop', Hout'.
    repeat split.
    + rewrite Hfs'. destruct (truthy filepath) eqn:Hfp.
      * destruct Hfs as [->|[_ [c' ->]]]; [reflexivity|].
        apply insert_insert_eq.
      * destruct Hfs as [->|[? _]]; [reflexivity|discriminate].
    + lia.
    + rewrite Hout', Hout, <- !app_assoc. reflexivity.
Qed.

End RetrieveMore.

(** X3. When the attempts before the [j]-th fail with exceptions of class
    [Exception] and the [j]-th gets the whole body ([j] within
    [int(attempts)]; the delay not negative if it is needed),
    [retrieve_URL] makes exactly those [j + 1] requests with [j] sleeps
    between them and returns: the bytes of that body when no file is
    given, and otherwise [""] with the file holding exactly that body,
    whatever the failed attempts had written to it. *)
Theorem X3_retrieve_URL_first_success
    (E : env) (URL filepath : string) (timeout_s delay attempts : Q)
    (w : world) (j : nat) (c : string) :
  j < Z.to_nat (int attempts) →
  (∀ i, i < j → ∃ e, reply_exn (net E (opened w + i) URL) = Some e ∧
                     is_Exception e = true) →
  net E (opened w + j) URL = Body c →
  (j = 0 ∨ Qle_bool 0 delay = true) →
  ∃ w',
    retrieve_URL E URL filepath (timeout_s, delay, attempts) w
    = (w', Return (if truthy filepath then VStr "" else VBytes c)) ∧
    fs w' = (if truthy filepath then <[filepath := c]> (fs w) else fs w) ∧
    opened w' = opened w + S j ∧
    out w' = out w ++ attempts_log URL timeout_s delay (S j).
Proof.
  intros Hj Hfail Hbody Hdelay. unfold retrieve_URL.
  apply retrieve_loop_success; auto. lia.
Qed.

Lemma X3_witness :
  (1 < Z.to_nat (int 3) ∧
   (∀ i, i < 1 →
      ∃ e, reply_exn (net E_flaky (opened w_init + i)
                        "https://download.qt.io/a.7z") = Some e ∧
           is_Exception e = true) ∧
   net E_flaky (opened w_init + 1) "https://download.qt.io/a.7z"
   = Body "data" ∧
   (1 = 0 ∨ Qle_bool 0 5 = true)) ∧
  ∃ w',
    retrieve_URL E_flaky "https://download.qt.io/a.7z" "a.7z"
      (15, 5, 3)%Q w_init
    = (w', Return (if truthy "a.7z" then VStr "" else VBytes "data")) ∧
    fs w' = (if truthy "a.7z" then <["a.7z" := "data"]> (fs w_init)
             else fs w_init) ∧
    opened w' = opened w_init + 2 ∧
    out w' = out w_init
             ++ attempts_log "https://download.qt.io/a.7z" 15 5 2.
Proof.
  assert (H1 : 1 < Z.to_nat (int 3)) by (vm_compute; lia).
  assert (H2 : ∀ i, i < 1 →
            ∃ e, reply_exn (net E_flaky (opened w_init + i)
                              "https://download.qt.io/a.7z") = Some e ∧
                 is_Exception e = true).
  { intros i Hi. replace i with 0 by lia. exists url_err. split; reflexivity. }
  assert (H3 : net E_flaky (opened w_init + 1) "https://download.qt.io/a.7z"
               = Body "data") by reflexivity.
  assert (H4 : 1 = 0 ∨ Qle_bool 0 5 = true) by (right; reflexivity).
  split; [auto|].
  apply (X3_retrieve_URL_first_success E_flaky "https://download.qt.io/a.7z"
           "a.7z" 15 5 3 w_init 1 "data" H1 H2 H3 H4).
Defined.

Lemma retrieve_URL_frame E URL filepath req_opts w w' r :
  retrieve_URL E URL filepath req_opts w = (w', r) →
  dirs w' = dirs w ∧ ∀ p, p ≠ filepath → fs w' !! p = fs w !! p.
Proof.
  destruct req_opts as [[timeout_s delay] attempts]. unfold retrieve_URL.
  intros Hrun. apply retrieve_loop_frame in Hrun as (Hd & _ & _ & Hfs).
  split; [exact Hd|]. intros p Hp.
  destruct Hfs as [->|[_ [c ->]]]; [reflexivity|]. by apply lookup_insert_ne.
Qed.

(** X4. Whatever the servers answer, [retrieve_URL] leaves the
    directories alone and changes no file other than [filepath]; called
    without a file ([filepath = ""]) it changes no file at all. *)
Theorem X4_retrieve_URL_touches_only_filepath
    (E : env) (URL filepath : string) (req_opts : Q * Q * Q) (w : world) :
  ∃ w' r,
    retrieve_URL E URL filepath req_opts w = (w', r) ∧
    dirs w' = dirs w ∧
    (∀ p, p ≠ filepath → fs w' !! p = fs w !! p) ∧
    (filepath = "" → fs w' = fs w).
Proof.
  destruct req_opts as [[timeout_s delay] attempts]. unfold retrieve_URL.
  destruct (retrieve_loop E (Z.to_nat (int attempts)) 0 (int attempts) URL
              filepath timeout_s delay w) as [w' r] eqn:Hrun.
  apply retrieve_loop_frame in Hrun as (Hd & _ & _ & Hfs).
  exists w', r. repeat split; auto.
  - intros p Hp. destruct Hfs as [->|[_ [c ->]]]; [reflexivity|].
    by apply lookup_insert_ne.
  - intros ->. destruct Hfs as [?|[? _]]; [assumption|discriminate].
Qed.

(** X5. An exception that is no [Exception] (a [KeyboardInterrupt], a
    [SystemExit]) is not retried: it leaves [retrieve_URL] after the one
    request that raised it, without any sleep, however many attempts are
    allowed. *)
Theorem X5_retrieve_URL_does_not_retry_base_exceptions
    (E : env) (URL filepath : string) (timeout_s delay attempts : Q)
    (w : world) (e : exn) :
  (1 ≤ int attempts)%Z →
  reply_exn (net E (opened w) URL) = Some e →
  is_Exception e = false →
  ∃ w',
    retrieve_URL E URL filepath (timeout_s, delay, attempts) w
    = (w', Raise e) ∧
    out w' = out w ++ [Urlopen URL timeout_s].
Proof.
  intros Hn Hrep Hexc. unfold retrieve_URL.
  destruct (Z.to_nat (int attempts)) as [|todo] eqn:Htodo; [lia|].
  cbn [retrieve_loop].
  destruct (attempt_once E URL filepath timeout_s w) as [w1 o] eqn:Hatt.
  apply attempt_once_spec in Hatt as (Hout & _ & Ho).
  rewrite Hrep in Ho. destruct o as [v|e']; [discriminate|].
  inversion Ho; subst e'. rewrite Hexc. eauto.
Qed.

Lemma X5_witness :
  ((1 ≤ int 3)%Z ∧
   reply_exn (net E_interrupted (opened w_init)
                "https://download.qt.io/a.7z") = Some interrupt ∧
   is_Exception interrupt = false) ∧
  ∃ w',
    retrieve_URL E_interrupted "https://download.qt.io/a.7z" ""
      (15, 5, 3)%Q w_init = (w', Raise interrupt) ∧
    out w' = out w_init ++ [Urlopen "https://download.qt.io/a.7z" 15].
Proof.
  assert (H1 : (1 ≤ int 3)%Z) by (vm_compute; discriminate).
  split; [repeat split; auto|].
  apply (X5_retrieve_URL_does_not_retry_base_exceptions E_interrupted
           "https://download.qt.io/a.7z" "" 15 5 3 w_init interrupt H1);
    reflexivity.
Defined.

(** X6. With a negative delay and at least two attempts allowed, a first
    attempt that fails is not followed by a second one: [time.sleep]
    refuses the negative length, and its [ValueError] is what leaves
    [retrieve_URL], in place of the network error, after one request. *)
Theorem X6_retrieve_URL_negative_delay
    (E : env) (URL filepath : string) (timeout_s delay attempts : Q)
    (w : world) (e : exn) :
  (2 ≤ int attempts)%Z →
  Qle_bool 0 delay = false →
  reply_exn (net E (opened w) URL) = Some e →
  is_Exception e = true →
  ∃ w',
    retrieve_URL E URL filepath (timeout_s, delay, attempts) w
    = (w', Raise (Exn "ValueError" "sleep length must be non-negative")) ∧
    out w' = out w ++ [Urlopen URL timeout_s].
Proof.
  intros Hn Hdelay Hrep Hexc. unfold retrieve_URL.
  destruct (Z.to_nat (int attempts)) as [|todo] eqn:Htodo; [lia|].
  cbn [retrieve_loop].
  destruct (attempt_once E URL filepath timeout_s w) as [w1 o] eqn:Hatt.
  apply attempt_once_spec in Hatt as (Hout & _ & Ho).
  rewrite Hrep in Ho. destruct o as [v|e']; [discriminate|].
  inversion Ho; subst e'. rewrite Hexc.
  replace (0 + 1 =? int attempts)%Z with false
    by (symmetry; apply Z.eqb_neq; lia).
  unfold bind, sleep. rewrite Hdelay. eauto.
Qed.

Lemma X6_witness :
  ((2 ≤ int 3)%Z ∧ Qle_bool 0 (-5) = false ∧
   reply_exn (net E_down (opened w_init) "https://download.qt.io/a.7z")
   = Some url_err ∧
   is_Exception url_err = true) ∧
  ∃ w',
    retrieve_URL E_down "https://download.qt.io/a.7z" "" (15, -5, 3)%Q w_init
    = (w', Raise (Exn "ValueError" "sleep length must be non-negative")) ∧
    out w' = out w_init ++ [Urlopen "https://download.qt.io/a.7z" 15].
Proof.
  assert (H1 : (2 ≤ int 3)%Z) by (vm_compute; discriminate).
  split; [repeat split; auto|].
  apply (X6_retrieve_URL_negative_delay E_down "https://download.qt.io/a.7z"
           "" 15 (-5) 3 w_init url_err H1); reflexivity.
Defined.

(** A normal return of the loop is the body of the last request made. *)
Lemma retrieve_loop_return E URL filepath timeout_s delay attempts :
  ∀ todo attempt w w' v,
    (attempt + Z.of_nat todo = attempts)%Z →
    1 ≤ todo →
    retrieve_loop E todo attempt attempts URL filepath timeout_s delay w
    = (w', Return v) →
    ∃ k c, k < todo ∧ opened w' = opened w + S k ∧
           net E (opened w + k) URL = Body c ∧
           v = (if truthy filepath then VStr "" else VBytes c).
Proof.
  induction todo as [|todo IH]; intros attempt w w' v Hinv Hpos Hrun; [lia|].
  cbn [retrieve_loop] in Hrun.
  destruct (attempt_once E URL filepath timeout_s w) as [w1 o] eqn:Hatt.
  pose proof (attempt_once_world E _ _ _ _ _ _ Hatt)
    as (_ & _ & _ & Hop & _ & _ & Hret).
  destruct o as [v1|e].
  - inversion Hrun; subst w1 v1.
    destruct (Hret v eq_refl) as (c & Hc & Hv & _).
    exists 0, c. rewrite Nat.add_0_r. repeat split; auto; lia.
  - destruct (is_Exception e); [|discriminate].
    destruct (attempt + 1 =? attempts)%Z eqn:Hlast; [discriminate|].
    apply Z.eqb_neq in Hlast. unfold bind, sleep in Hrun.
    destruct (Qle_bool 0 delay); [|discriminate].
    apply IH in Hrun as (k & c & Hk & Hop' & Hc & Hv); [|lia|lia].
    cbn in Hop', Hc. rewrite Hop in Hop', Hc.
    exists (S k), c. repeat split; auto; try lia.
    by replace (opened w + S k) with (S (opened w) + k) by lia.
Qed.

(** X7. [retrieve_URL_str] never writes a file.  It returns the decoded
    body of the request that succeeded; and when [int(attempts)] is zero
    or negative it does not return an empty text but raises
    [AttributeError], [retrieve_URL] having returned [None], without any
    request. *)
Theorem X7_retrieve_URL_str
    (E : env) (decode : string → string) (URL : string)
    (timeout_s delay attempts : Q) (w : world) :
  ∃ w' r,
    retrieve_URL_str E decode URL (timeout_s, delay, attempts) w = (w', r) ∧
    fs w' = fs w ∧
    ((int attempts ≤ 0)%Z →
     w' = w ∧
     r = Raise (Exn "AttributeError"
                  "'NoneType' object has no attribute 'decode'")) ∧
    (∀ s, r = Return s →
          ∃ k b, opened w' = opened w + S k ∧
                 net E (opened w + k) URL = Body b ∧ s = decode b).
Proof.
  unfold retrieve_URL_str, bind.
  destruct (Z_lt_le_dec (int attempts) 1) as [Hlt|Hge].
  - rewrite retrieve_URL_no_loop by exact Hlt.
    eexists w, _. split; [reflexivity|]. repeat split; discriminate.
  - unfold retrieve_URL.
    destruct (retrieve_loop E (Z.to_nat (int attempts)) 0 (int attempts) URL
                "" timeout_s delay w) as [w' [v|e]] eqn:Hrun.
    + pose proof (retrieve_loop_frame E _ _ _ _ _ _ _ _ _ _ Hrun)
        as (_ & _ & _ & Hfs).
      assert (Hfs' : fs w' = fs w)
        by (destruct Hfs as [?|[? _]]; [assumption|discriminate]).
      apply retrieve_loop_return in Hrun as (k & c & _ & Hop & Hc & ->);
        [|lia|lia].
      cbn [truthy]. eexists w', _. split; [reflexivity|].
      split; [exact Hfs'|]. split; [lia|].
      intros s [= <-]. eauto.
    + pose proof (retrieve_loop_frame E _ _ _ _ _ _ _ _ _ _ Hrun)
        as (_ & _ & _ & Hfs).
      exists w', (Raise e). split; [reflexivity|].
      split; [destruct Hfs as [?|[? _]]; [assumption|discriminate]|].
      split; [lia|discriminate].
Qed.

(* ===================================================================== *)
(** * More on [pool_apply]                                                *)
(* ===================================================================== *)

Section PollCount.
Context {R : Type}.
Implicit Types (tasks : list (AsyncResult R)).

Lemma sleeps_app l1 l2 : sleeps (l1 ++ l2) = sleeps l1 + sleeps l2.
Proof. induction l1 as [|[] l1 IH]; cbn; rewrite ?IH; reflexivity. Qed.

Lemma seen_at_le (t : AsyncResult R) now :
  ready_at t ≤ S now ↔ seen_at t ≤ S now.
Proof. unfold seen_at. lia. Qed.

(** A pass that goes through has met no failed task among the ready
    ones, and counts every task only when every task is ready. *)
Lemma scan_Return_ready now tasks :
  ∀ r0 r, scan now tasks r0 = Return r →
    (∀ t, t ∈ tasks → ready_at t ≤ now → succeeded t) ∧
    (r = r0 + length tasks → ∀ t, t ∈ tasks → ready_at t ≤ now).
Proof.
  induction tasks as [|t l IH]; intros r0 r H; cbn in H.
  - split; [intros t Ht|intros _ t Ht]; by apply not_elem_of_nil in Ht.
  - destruct (ready_at t <=? now) eqn:Hr.
    + apply Nat.leb_le in Hr.
      destruct (result t) as [v|e] eqn:Hres; [|discriminate].
      destruct (IH _ _ H) as [Hok Hall]. split.
      * intros t' [->|Hin]%elem_of_cons Hready; [by exists v|by apply Hok].
      * cbn. intros Hfull t' [->|Hin]%elem_of_cons; [exact Hr|].
        apply Hall; [lia|exact Hin].
    + apply Nat.leb_gt in Hr.
      destruct (IH _ _ H) as [Hok Hall].
      destruct (scan_Return now l r0 r H) as (Hle & _ & _). split.
      * intros t' [->|Hin]%elem_of_cons Hready; [lia|]. by apply Hok.
      * cbn. intros Hfull. lia.
Qed.

(** How long the loop polls: up to the first poll that sees a failed
    task, whose exception it raises; up to the poll that sees the
    slowest task when no task has failed. *)
Lemma poll_count tasks print_delay_s :
  ∀ fuel now ready_tasks no_print_s w w' o,
    poll fuel now tasks (length tasks) ready_tasks no_print_s
      print_delay_s w = Some (w', o) →
    (∀ t, t ∈ tasks → failed t → now < seen_at t) →
    ∃ l, out w' = out w ++ l ∧
      match o with
      | Raise e =>
          ∃ t, t ∈ tasks ∧ result t = Raise e ∧
               sleeps l = seen_at t - now ∧ now < seen_at t ∧
               ∀ t', t' ∈ tasks → failed t' → seen_at t ≤ seen_at t'
      | Return _ =>
          sleeps l = if ready_tasks <? length tasks
                     then Nat.max (S now) (last_ready tasks) - now
                     else 0
      end.
Proof.
  induction fuel as [|fuel IH]; intros now ready npr w w' o Hrun Hinv;
    cbn [poll] in Hrun; destruct (ready <? length tasks) eqn:Hlt;
    try discriminate;
    try (inversion Hrun; subst; exists []; by rewrite app_nil_r).
  change (sleep check_progress_interval w)
    with (log (Sleep check_progress_interval) w, Return tt) in Hrun.
  cbv iota beta in Hrun.
  set (w1 := log (Sleep check_progress_interval) w) in Hrun.
  destruct (scan (S now) tasks 0) as [ready'|e] eqn:Hscan.
  - destruct (scan_Return_ready _ _ _ _ Hscan) as [Hok Hall].
    destruct (scan_Return _ _ _ _ Hscan) as (Hle & _ & Hfull).
    assert (Hinv' : ∀ t, t ∈ tasks → failed t → S now < seen_at t).
    { intros t Ht [e He]. specialize (Hinv t Ht (ex_intro _ e He)).
      destruct (Nat.eq_dec (seen_at t) (S now)) as [Heq|]; [|lia].
      destruct (Hok t Ht) as [v Hv]; [apply seen_at_le; lia|congruence]. }
    assert (Hcount : ∀ l',
      sleeps l' = (if ready' <? length tasks
                   then Nat.max (S (S now)) (last_ready tasks) - S now
                   else 0) →
      S (sleeps l') = Nat.max (S now) (last_ready tasks) - now).
    { intros l' ->. destruct (ready' <? length tasks) eqn:Hlt'.
      - apply Nat.ltb_lt in Hlt'.
        assert (S now < last_ready tasks); [|lia].
        destruct (Nat.lt_ge_cases (S now) (last_ready tasks)); [assumption|].
        exfalso. rewrite Hfull in Hlt'; [lia|].
        intros t Ht. apply last_ready_bound in Ht. lia.
      - apply Nat.ltb_ge in Hlt'.
        assert (last_ready tasks ≤ S now); [|lia].
        assert (Hall' : ∀ t, t ∈ tasks → ready_at t ≤ S now)
          by (apply Hall; lia).
        clear -Hall'. unfold last_ready.
        induction tasks as [|t l IHl]; cbn; [lia|].
        assert (ready_at t ≤ S now) by (apply Hall'; by left).
        assert (foldr Nat.max 0 (map ready_at l) ≤ S now); [|lia].
        apply IHl. intros t' Ht'. apply Hall'. by right. }
    destruct (Qle_bool _ _).
    + apply IH in Hrun as (l' & Hout & Ho); [|exact Hinv'].
      eexists (Sleep check_progress_interval :: _ :: l').
      split; [rewrite Hout; cbn; rewrite <- !app_assoc; reflexivity|].
      destruct o as [[]|e].
      * cbn [sleeps]. by apply Hcount.
      * destruct Ho as (t & Ht & Hres & Hs & Hnow & Hmin).
        exists t. cbn [sleeps]. repeat split; auto; lia.
    + apply IH in Hrun as (l' & Hout & Ho); [|exact Hinv'].
      exists (Sleep check_progress_interval :: l').
      split; [rewrite Hout; cbn; rewrite <- !app_assoc; reflexivity|].
      destruct o as [[]|e].
      * cbn [sleeps]. by apply Hcount.
      * destruct Ho as (t & Ht & Hres & Hs & Hnow & Hmin).
        exists t. cbn [sleeps]. repeat split; auto; lia.
  - inversion Hrun; subst w' o.
    apply scan_Raise in Hscan as (t & Ht & Hres & Hready).
    exists [Sleep check_progress_interval]. split; [reflexivity|].
    assert (Hseen : now < seen_at t) by (apply Hinv; [|eexists]; eauto).
    apply seen_at_le in Hready.
    exists t. cbn [sleeps]. repeat split; auto; try lia.
    intros t' Ht' Hf'. specialize (Hinv t' Ht' Hf'). lia.
Qed.

End PollCount.

Section PoolApplyMore.
Context (E : env) {A R : Type} (f : A → M R).

Lemma sleeps_pool_tail l (extra : list event) :
  Forall (fun e => match e with Sleep _ => False | _ => True end) extra →
  sleeps (l ++ extra) = sleeps l.
Proof.
  intros H. rewrite sleeps_app.
  assert (sleeps extra = 0); [|lia].
  induction H as [|[] extra He _ IH]; cbn in *; auto; contradiction.
Qed.

(** [pool_apply] from the submission of the tasks on. *)
Lemma pool_apply_polls async_args workers_num print_delay_s w w0 pool
    w1 tasks :
  Pool (int workers_num) w = (w0, Return pool) →
  apply_async E f async_args pool 0 w0 = (w1, tasks) →
  ∃ w' o l,
    pool_apply E f async_args (workers_num, print_delay_s) w
    = Some (w', o) ∧
    out w' = out w1 ++ l ∧
    last (out w') = Some PoolStop ∧
    match o with
    | Raise e =>
        ∃ t, t ∈ tasks ∧ result t = Raise e ∧ sleeps l = seen_at t ∧
             ∀ t', t' ∈ tasks → failed t' → seen_at t ≤ seen_at t'
    | Return rs =>
        Forall succeeded tasks ∧ map result tasks = map Return rs ∧
        sleeps l = match tasks with
                   | [] => 0
                   | _ :: _ => Nat.max 1 (last_ready tasks)
                   end
    end.
Proof.
  intros HPool Hsub. unfold pool_apply. rewrite HPool, Hsub.
  destruct (poll_spec tasks print_delay_s (S (last_ready tasks)) 0 0 0%Q w1)
    as (w2 & o & Hpoll & _ & _ & _ & _ & _ & _ & Ho); [lia|right; lia|].
  rewrite Hpoll.
  destruct (poll_count tasks print_delay_s _ _ _ _ _ _ _ Hpoll)
    as (l & Hout & Hcount).
  { intros t _ _. unfold seen_at. lia. }
  destruct o as [[]|e].
  - assert (Hall : Forall succeeded tasks).
    { destruct Ho as [[Hlen _]|?]; [|assumption].
      destruct tasks; [constructor|cbn in Hlen; lia]. }
    destruct (gets_succeeded tasks Hall) as (rs & -> & Hmap).
    eexists _, (Return rs), (l ++ [Print (Completed (length tasks)); PoolStop]).
    split; [reflexivity|]. cbn [log out].
    split; [rewrite Hout, <- !app_assoc; reflexivity|].
    split; [apply last_snoc|]. split; [exact Hall|]. split; [exact Hmap|].
    rewrite sleeps_pool_tail by (repeat constructor). rewrite Hcount.
    destruct tasks; [reflexivity|]. cbn [length]. cbn. lia.
  - eexists _, (Raise e), (l ++ [PoolStop]).
    split; [reflexivity|]. cbn [log out].
    split; [rewrite Hout, <- !app_assoc; reflexivity|].
    split; [apply last_snoc|].
    destruct Hcount as (t & Ht & Hres & Hs & _ & Hmin).
    exists t. rewrite sleeps_pool_tail by (repeat constructor).
    repeat split; auto. lia.
Qed.

End PoolApplyMore.

(** X8. When [int(workers_num)] is below 1 (a number of workers such as
    0.5 or 0 on the command line), [pool_apply] raises the [ValueError]
    of [multiprocessing.Pool] before any task is submitted: no task runs
    and the world is unchanged. *)
Theorem X8_pool_apply_needs_a_worker
    (E : env) {A R : Type} (_func : A → M R) (async_args : list A)
    (workers_num print_delay_s : Q) (w : world) :
  (int workers_num < 1)%Z →
  pool_apply E _func async_args (workers_num, print_delay_s) w
  = Some (w, Raise (Exn "ValueError"
                      "Number of processes must be at least 1")).
Proof.
  intros Hlt. unfold pool_apply.
  destruct (Pool_spec (int workers_num) w) as [[_ ->]|[Hge _]];
    [reflexivity|lia].
Qed.

Lemma X8_witness :
  (int (1 # 2) < 1)%Z ∧
  pool_apply E_up echo ["A"; "B"] (1 # 2, 10)%Q w_init
  = Some (w_init, Raise (Exn "ValueError"
                           "Number of processes must be at least 1")).
Proof.
  split; [reflexivity|].
  apply (X8_pool_apply_needs_a_worker E_up echo). reflexivity.
Defined.




(** X11. When every task succeeds, [pool_apply] polls exactly until it
    sees the slowest task ready: no poll for an empty batch, and
    otherwise as many polls, of a quarter of a second each, as the latest
    [ready_at] of the tasks (one poll at least). *)
Theorem X11_pool_apply_waits_for_the_slowest
    (E : env) {A R : Type} (_func : A → M R) (async_args : list A)
    (workers_num print_delay_s : Q) (w w0 w1 : world) (pool : nat)
    (tasks : list (AsyncResult R)) :
  Pool (int workers_num) w = (w0, Return pool) →
  apply_async E _func async_args pool 0 w0 = (w1, tasks) →
  Forall succeeded tasks →
  ∃ w' rs l,
    pool_apply E _func async_args (workers_num, print_delay_s) w
    = Some (w', Return rs) ∧
    out w' = out w1 ++ l ∧
    sleeps l = match tasks with
               | [] => 0
               | _ :: _ => Nat.max 1 (last_ready tasks)
               end.
Proof.
  intros HPool Hsub Hall.
  destruct (pool_apply_polls E _func async_args workers_num print_delay_s
              _ _ _ _ _ HPool Hsub) as (w' & o & l & Hrun & Hout & _ & Ho).
  destruct o as [rs|e].
  - destruct Ho as (_ & _ & Hs). exists w', rs, l. auto.
  - exfalso. destruct Ho as (t & Ht & Hres & _).
    rewrite Forall_forall in Hall. destruct (Hall t Ht) as [v Hv].
    congruence.
Qed.


(** The batch of three tasks above, run: the failure of B, seen at the
    second poll, is what comes out, after two sleeps; A, which fails
    later, is not waited for. *)
Example pool_apply_first_failure :
  pool_apply E_latency only_C ["A"; "B"; "C"] (5, 10)%Q w_init
  = Some (World ∅ ∅ 0 0 1
            [PoolStart 5; Sleep (1 # 4); Sleep (1 # 4); PoolStop],
          Raise (Exn "URLError" "B")).
Proof. reflexivity. Qed.

Lemma X11_witness :
  (Pool (int 5) w_init = (w_pool, Return 0) ∧
   apply_async E_latency echo ["A"; "B"; "C"] 0 0 w_pool
   = (w_pool, [Async 3 (Return "resultA"); Async 2 (Return "resultB");
               Async 1 (Return "resultC")]) ∧
   Forall succeeded [Async 3 (Return "resultA"); Async 2 (Return "resultB");
                     Async 1 (Return "resultC")]) ∧
  ∃ w' rs l,
    pool_apply E_latency echo ["A"; "B"; "C"] (5, 10)%Q w_init
    = Some (w', Return rs) ∧
    out w' = out w_pool ++ l ∧
    sleeps l = Nat.max 1 (last_ready
                            [Async 3 (Return "resultA");
                             Async 2 (Return "resultB");
                             Async 1 (Return "resultC")]).
Proof.
  assert (H1 : Pool (int 5) w_init = (w_pool, Return 0)) by reflexivity.
  assert (H2 : apply_async E_latency echo ["A"; "B"; "C"] 0 0 w_pool
               = (w_pool, [Async 3 (Return "resultA");
                           Async 2 (Return "resultB");
                           Async 1 (Return "resultC")])) by reflexivity.
  assert (H3 : Forall succeeded
                 [Async 3 (Return "resultA"); Async 2 (Return "resultB");
                  Async 1 (Return "resultC")])
    by (repeat constructor; eexists; reflexivity).
  split; [auto|].
  apply (X11_pool_apply_waits_for_the_slowest E_latency echo
           ["A"; "B"; "C"] 5 10 w_init w_pool w_pool 0 _ H1 H2 H3).
Defined.

(* ===================================================================== *)
(** * Where the archives go                                               *)
(* ===================================================================== *)

Section Paths.

Lemma last_segment_no_sep s : OsPath.has_sep (OsPath.last_segment s) = false.
Proof.
  induction s as [|c r IH]; [reflexivity|]. cbn [OsPath.last_segment].
  destruct (OsPath.has_sep r) eqn:Hr; [exact IH|].
  destruct (OsPath.is_sep c) eqn:Hc; [exact Hr|]. cbn. by rewrite Hc, Hr.
Qed.

Lemma last_segment_id s :
  OsPath.has_sep s = false → OsPath.last_segment s = s.
Proof.
  destruct s as [|c r]; [reflexivity|]. cbn.
  intros [Hc Hr]%orb_false_iff. by rewrite Hr, Hc.
Qed.

Lemma last_segment_app_sep a b :
  OsPath.has_sep b = false →
  OsPath.last_segment (a +:+ "/" +:+ b) = b.
Proof.
  intros Hb. induction a as [|c r IH].
  - change ("" +:+ "/" +:+ b) with (String "/" b). cbn. by rewrite Hb.
  - rewrite app_cons. cbn [OsPath.last_segment].
    rewrite has_sep_app. replace (OsPath.has_sep ("/" +:+ b)) with true
      by reflexivity.
    rewrite orb_true_r. exact IH.
Qed.

Lemma endswith_sep_has_sep s :
  OsPath.endswith_sep s = true → OsPath.has_sep s = true.
Proof.
  induction s as [|c r IH]; [discriminate|]. cbn [OsPath.has_sep].
  destruct r as [|c' r'].
  - cbn. intros ->. reflexivity.
  - intros Ha. rewrite IH; [apply orb_true_r|exact Ha].
Qed.

Lemma endswith_sep_last_segment a b :
  OsPath.endswith_sep a = true → OsPath.has_sep b = false →
  OsPath.last_segment (a +:+ b) = b.
Proof.
  intros Ha Hb. induction a as [|c r IH]; [discriminate|].
  rewrite app_cons. cbn [OsPath.last_segment].
  destruct r as [|c' r'].
  - cbn in Ha. change ("" +:+ b) with b. by rewrite Hb, Ha.
  - rewrite has_sep_app.
    change (OsPath.endswith_sep (String c (String c' r')))
      with (OsPath.endswith_sep (String c' r')) in Ha.
    rewrite (endswith_sep_has_sep _ Ha). cbn [orb]. apply IH. exact Ha.
Qed.

Lemma prefix_app a b : String.prefix a (a +:+ b) = true.
Proof.
  induction a as [|c r IH]; [by destruct b|].
  rewrite app_cons. cbn. destruct (Ascii.ascii_dec c c); [exact IH|done].
Qed.

Lemma startswith_no_sep s :
  OsPath.has_sep s = false → OsPath.startswith_sep s = false.
Proof. destruct s; [reflexivity|]. cbn. by intros [? _]%orb_false_iff. Qed.

End Paths.

(** X12. The file of an archive always lies in [archives_dir]: the name
    taken from [rel_path] holds no slash, so [os.path.join] never drops
    the directory; the path is the directory, a slash where one is
    needed, and that name, and the name is what [split("/")[-1]] gives
    back from the path. *)
Theorem X12_get_archive_filepath_in_archives_dir
    (info : archive_info) (archives_dir : string) :
  let archive_filename := OsPath.last_segment (rel_path info) in
  OsPath.has_sep archive_filename = false ∧
  get_archive_filepath info archives_dir
  = archives_dir
    +:+ (if negb (truthy archives_dir) || OsPath.endswith_sep archives_dir
         then "" else "/")
    +:+ archive_filename ∧
  String.prefix archives_dir (get_archive_filepath info archives_dir) = true ∧
  OsPath.last_segment (get_archive_filepath info archives_dir)
  = archive_filename.
Proof.
  cbn zeta. pose proof (last_segment_no_sep (rel_path info)) as Hns.
  assert (Hpath : get_archive_filepath info archives_dir
    = archives_dir
      +:+ (if negb (truthy archives_dir) || OsPath.endswith_sep archives_dir
           then "" else "/")
      +:+ OsPath.last_segment (rel_path info)).
  { unfold get_archive_filepath, OsPath.join.
    rewrite (startswith_no_sep _ Hns).
    by destruct (negb (truthy archives_dir)
                 || OsPath.endswith_sep archives_dir). }
  split; [exact Hns|]. split; [exact Hpath|].
  split; [rewrite Hpath; apply prefix_app|].
  rewrite Hpath. destruct archives_dir as [|c r].
  - cbn [truthy negb orb]. change ("" +:+ "" +:+ ?x) with x.
    by apply last_segment_id.
  - cbn [truthy negb orb].
    destruct (OsPath.endswith_sep (String c r)) eqn:Hend.
    + change ("" +:+ ?x) with x. by apply endswith_sep_last_segment.
    + by apply last_segment_app_sep.
Qed.

(* ===================================================================== *)
(** * What a task and a batch leave on disk                               *)
(* ===================================================================== *)

Section TaskOnDisk.
Context (E : env).

Lemma spec_isAlreadyValid_at w w' p h :
  fs w' !! p = fs w !! p →
  spec_isAlreadyValid E w' p h = spec_isAlreadyValid E w p h.
Proof. unfold spec_isAlreadyValid. by intros ->. Qed.

(** A normal return means a valid file; no other file is touched. *)
Lemma _download_archive_post info ver_path mirror_URL out_dir req_opts
    w w' r :
  _download_archive E info ver_path mirror_URL out_dir req_opts w = (w', r) →
  dirs w' = dirs w ∧
  (∀ p, p ≠ get_archive_filepath info out_dir → fs w' !! p = fs w !! p) ∧
  (r = Return tt →
   spec_isAlreadyValid E w' (get_archive_filepath info out_dir)
     (sha256 info) = true).
Proof.
  rewrite _download_archive_unfold.
  destruct (spec_isAlreadyValid E w _ _) eqn:Hvalid.
  - intros [= <- <-]. auto.
  - destruct (fetch_and_verify_spec E info ver_path mirror_URL out_dir
                req_opts w) as (w1 & r1 & Hfetch & ->).
    intros [= <- <-].
    destruct (retrieve_URL_frame E _ _ _ _ _ _ Hfetch) as (Hd & Hfs).
    split; [exact Hd|]. split; [exact Hfs|].
    rewrite <- hash_accepted_on_disk.
    destruct r1 as [v|e]; [|discriminate].
    destruct (fs w1 !! _) as [c|]; [|discriminate].
    by destruct (hash_accepted _ info).
Qed.

End TaskOnDisk.

(** X13. When the task of an archive returns normally, the archive is on
    disk at its destination, the digest of the file is the expected
    hash, and that hash is not empty: nothing unverified is ever
    accepted. *)
Theorem X13_download_archive_returns_only_verified
    (E : env) (info : archive_info) (ver_path mirror_URL out_dir : string)
    (req_opts : Q * Q * Q) (w w' : world) :
  _download_archive E info ver_path mirror_URL out_dir req_opts w
  = (w', Return tt) →
  ∃ content,
    fs w' !! get_archive_filepath info out_dir = Some content ∧
    digest E HASH_ALG content = sha256 info ∧
    sha256 info ≠ "".
Proof.
  intros Hrun. apply _download_archive_post in Hrun as (_ & _ & Hvalid).
  apply spec_isAlreadyValid_iff, Hvalid. reflexivity.
Qed.

Lemma X13_witness :
  _download_archive E_up qtbase ver_path_640 "https://download.qt.io"
    "archives" (15, 5, 3)%Q w_init
  = (World {["archives/6.4.0qtbase.7z" := "data"]} ∅ 1 0 0
       [Urlopen (archive_URL qtbase ver_path_640 "https://download.qt.io")
          15],
     Return tt) ∧
  ∃ content,
    fs (World {["archives/6.4.0qtbase.7z" := "data"]} ∅ 1 0 0
          [Urlopen (archive_URL qtbase ver_path_640 "https://download.qt.io")
             15])
    !! get_archive_filepath qtbase "archives" = Some content ∧
    digest E_up HASH_ALG content = sha256 qtbase ∧
    sha256 qtbase ≠ "".
Proof.
  assert (H : _download_archive E_up qtbase ver_path_640
                "https://download.qt.io" "archives" (15, 5, 3)%Q w_init
              = (World {["archives/6.4.0qtbase.7z" := "data"]} ∅ 1 0 0
                   [Urlopen (archive_URL qtbase ver_path_640
                               "https://download.qt.io") 15],
                 Return tt)) by (vm_compute; reflexivity).
  split; [exact H|].
  apply (X13_download_archive_returns_only_verified E_up qtbase ver_path_640
           "https://download.qt.io" "archives" (15, 5, 3)%Q w_init _ H).
Defined.

(** X14. Whatever happens, the task of an archive changes no file other
    than the destination of that archive, and no directory. *)
Theorem X14_download_archive_touches_only_its_file
    (E : env) (info : archive_info) (ver_path mirror_URL out_dir : string)
    (req_opts : Q * Q * Q) (w : world) :
  ∃ w' r,
    _download_archive E info ver_path mirror_URL out_dir req_opts w
    = (w', r) ∧
    dirs w' = dirs w ∧
    ∀ p, p ≠ get_archive_filepath info out_dir → fs w' !! p = fs w !! p.
Proof.
  destruct (_download_archive E info ver_path mirror_URL out_dir req_opts w)
    as [w' r] eqn:Hrun.
  apply _download_archive_post in Hrun as (Hd & Hfs & _). eauto.
Qed.

Section BatchOnDisk.
Context (E : env) (ver_path out_dir : string) (req_opts : Q * Q * Q).

(** After a batch in which every task succeeded, every archive of the
    batch is valid on disk, provided no two of them share a file. *)
Lemma apply_async_all_valid mirror_URL pool :
  ∀ l i w w' tasks,
    NoDup (paths l out_dir) →
    apply_async E (run_task E)
      (build_async_args l ver_path mirror_URL out_dir req_opts) pool i w
    = (w', tasks) →
    Forall succeeded tasks →
    all_valid E l out_dir w' ∧
    ∀ p, p ∉ paths l out_dir → fs w' !! p = fs w !! p.
Proof.
  unfold build_async_args.
  induction l as [|a l IH]; intros i w w' tasks Hnodup Hsub Hall;
    cbn in Hsub.
  - inversion Hsub; subst. split; [|auto].
    intros a Ha. by apply not_elem_of_nil in Ha.
  - destruct (_download_archive E a.2 ver_path mirror_URL out_dir req_opts w)
      as [w1 r] eqn:Htask.
    destruct (apply_async E (run_task E) _ pool (S i) w1) as [w2 ts] eqn:Hrest.
    inversion Hsub; subst w2 tasks. clear Hsub.
    apply Forall_cons in Hall as [[[] Hr] Hall]. cbn in Hr. subst r.
    apply _download_archive_post in Htask as (_ & Hframe & Hvalid).
    cbn [paths map] in Hnodup. apply NoDup_cons in Hnodup as [Hnotin Hnodup].
    destruct (IH _ _ _ _ Hnodup Hrest Hall) as [Hvalid_l Hframe_l].
    split.
    + intros a' [->|Hin]%elem_of_cons; [|by apply Hvalid_l].
      rewrite (spec_isAlreadyValid_at E w1 w'); [by apply Hvalid|].
      by apply Hframe_l.
    + intros p Hp. cbn [paths map] in Hp.
      apply not_elem_of_cons in Hp as [Hne Hp].
      rewrite Hframe_l by exact Hp. by apply Hframe.
Qed.

Lemma download_loop_success archives async_opts :
  NoDup (paths archives out_dir) →
  ∀ fuel working_mirrors w w' rest,
    download_loop E fuel archives ver_path working_mirrors out_dir
      async_opts req_opts w = Some (w', rest, Return tt) →
    all_valid E archives out_dir w' ∧ rest ≠ [].
Proof.
  intros Hnodup.
  induction fuel as [|fuel IH]; intros mirrors w w' rest Hrun.
  { destruct mirrors; cbn in Hrun; discriminate. }
  destruct mirrors as [|m0 ms]; [cbn in Hrun; discriminate|].
  destruct (download_loop_round E archives ver_path out_dir async_opts
              req_opts fuel (m0 :: ms) w ltac:(done))
    as (m & w1 & w3 & o & l3 & Hin & _ & _ & _ & Hpool & _ & _ & Heq).
  rewrite Heq in Hrun. clear Heq.
  destruct o as [rs|e].
  - inversion Hrun; subst w3 rest. split; [|done].
    destruct async_opts as [workers_num print_delay_s].
    match type of Hpool with pool_apply _ _ _ _ ?w2 = _ =>
      destruct (Pool_spec (int workers_num) w2) as [[_ HPool]|[_ HPool]] end.
    + unfold pool_apply in Hpool. rewrite HPool in Hpool. discriminate.
    + destruct (pool_apply_spec E (run_task E)
                  (build_async_args archives ver_path m out_dir req_opts)
                  workers_num print_delay_s _ _ _ HPool)
        as (w1' & tasks & w2' & o2 & Hsub & Hrun2 & Hfs2 & _ & _ & _ & _
            & _ & Ho2).
      rewrite Hpool in Hrun2. inversion Hrun2; subst w2' o2.
      destruct Ho2 as [Hall _].
      destruct (apply_async_all_valid m _ _ _ _ _ _ Hnodup Hsub Hall)
        as [Hvalid _].
      intros a Ha. rewrite (spec_isAlreadyValid_at E w1' w'); [|by rewrite Hfs2].
      by apply Hvalid.
  - destruct (is_class "HashMismathError" e); [discriminate|].
    destruct (is_Exception e); [|discriminate].
    destruct (list_remove m (m0 :: ms)); [|discriminate].
    by apply IH in Hrun.
Qed.

End BatchOnDisk.

(** X15. When [download_archives] returns normally, every archive of the
    batch is on disk with the digest of its file equal to its non-empty
    expected hash, provided no two archives share a destination file;
    and the pool still holds a mirror. *)
Theorem X15_download_archives_returns_only_verified
    (E : env) (archives : list (string * archive_info))
    (ver_path : string) (mirrors : list string) (out_dir : string)
    (async_opts : Q * Q) (req_opts : Q * Q * Q)
    (w w' : world) (rest : list string) :
  NoDup (paths archives out_dir) →
  download_archives E archives ver_path mirrors out_dir async_opts
    req_opts w = Some (w', rest, Return tt) →
  all_valid E archives out_dir w' ∧ rest ≠ [].
Proof.
  intros Hnodup Hrun. unfold download_archives in Hrun.
  destruct (makedirs out_dir w) as [w0 [[]|e]]; [|discriminate].
  eapply download_loop_success; eauto.
Qed.

Lemma X15_witness :
  ∃ w',
    (NoDup (paths [("qtbase", qtbase); ("qtsvg", qtsvg)] "archives") ∧
     download_archives E_failover [("qtbase", qtbase); ("qtsvg", qtsvg)]
       ver_path_640 two_mirrors "archives" (5, 10)%Q (15, 5, 1)%Q w_init
     = Some (w', ["https://download.qt.io"], Return tt)) ∧
    all_valid E_failover [("qtbase", qtbase); ("qtsvg", qtsvg)] "archives" w'
    ∧ ["https://download.qt.io"] ≠ [].
Proof.
  assert (H1 : NoDup (paths [("qtbase", qtbase); ("qtsvg", qtsvg)]
                        "archives")).
  { vm_compute. apply NoDup_cons. split; [|apply NoDup_singleton].
    intros ?%list_elem_of_singleton. discriminate. }
  eexists. split.
  - split; [exact H1|]. vm_compute. reflexivity.
  - apply (X15_download_archives_returns_only_verified E_failover
             [("qtbase", qtbase); ("qtsvg", qtsvg)] ver_path_640 two_mirrors
             "archives" (5, 10)%Q (15, 5, 1)%Q w_init _
             ["https://download.qt.io"] H1).
    vm_compute. reflexivity.
Defined.

(** X16. For a pool in which no URL occurs twice, [download_archives]
    never chooses a mirror twice; the mirrors it started with are the
    ones it leaves in the pool and the ones named by its "Failed to
    fetch" lines, no mirror being both; and when it returns normally the
    mirrors chosen are the [K] that failed, in the order of their
    failures, then the one that served, the pool having lost exactly
    those [K]. *)
Theorem X16_download_archives_excludes_failed_mirrors
    (E : env) (archives : list (string * archive_info))
    (ver_path : string) (mirrors : list string) (out_dir : string)
    (async_opts : Q * Q) (req_opts : Q * Q * Q) (w : world) :
  truthy out_dir = true →
  NoDup mirrors →
  ∃ w' rest r l,
    download_archives E archives ver_path mirrors out_dir async_opts
      req_opts w = Some (w', rest, r) ∧
    out w' = out w ++ l ∧
    NoDup (chosen_mirrors l) ∧
    mirrors ≡ₚ failed_mirrors l ++ rest ∧
    (∀ m, m ∈ failed_mirrors l → m ∉ rest) ∧
    (r = Return tt →
     length rest = length mirrors - length (failed_mirrors l) ∧
     ∃ m, m ∈ rest ∧ chosen_mirrors l = failed_mirrors l ++ [m]).
Proof.
  intros Hdir Hnodup.
  destruct (download_archives_pool_shrinks E archives ver_path mirrors
              out_dir async_opts req_opts w Hdir)
    as (w' & rest & r & l & Hrun & Hout & Hperm & Hlen & Hchosen & Hret).
  exists w', rest, r, l. split; [exact Hrun|]. split; [exact Hout|].
  split; [auto|]. split; [exact Hperm|]. split.
  - rewrite Hperm in Hnodup. apply NoDup_app in Hnodup as (_ & Hdisj & _).
    exact Hdisj.
  - intros Hr. split; [lia|auto].
Qed.

Lemma X16_witness :
  (truthy "archives" = true ∧ NoDup two_mirrors) ∧
  ∃ w' rest r l,
    download_archives E_failover [("qtbase", qtbase)] ver_path_640
      two_mirrors "archives" (5, 10)%Q (15, 5, 1)%Q w_init
    = Some (w', rest, r) ∧
    out w' = out w_init ++ l ∧
    NoDup (chosen_mirrors l) ∧
    two_mirrors ≡ₚ failed_mirrors l ++ rest ∧
    (∀ m, m ∈ failed_mirrors l → m ∉ rest) ∧
    (r = Return tt →
     length rest = length two_mirrors - length (failed_mirrors l) ∧
     ∃ m, m ∈ rest ∧ chosen_mirrors l = failed_mirrors l ++ [m]).
Proof.
  assert (H : NoDup two_mirrors).
  { apply NoDup_cons. split; [|apply NoDup_singleton].
    intros ?%list_elem_of_singleton. discriminate. }
  split; [split; [reflexivity|exact H]|].
  apply (X16_download_archives_excludes_failed_mirrors E_failover
           [("qtbase", qtbase)] ver_path_640 two_mirrors "archives"
           (5, 10)%Q (15, 5, 1)%Q w_init eq_refl H).
Defined.

(** X17. With an empty list of mirrors [download_archives] exits with
    "All mirrors unreachable." without looking at the archives: no
    request, no pool, no file changed, even when every archive is already
    valid on disk or when there is no archive to fetch. *)
Theorem X17_download_archives_without_mirrors
    (E : env) (archives : list (string * archive_info))
    (ver_path out_dir : string) (async_opts : Q * Q) (req_opts : Q * Q * Q)
    (w : world) :
  truthy out_dir = true →
  ∃ w',
    download_archives E archives ver_path [] out_dir async_opts req_opts w
    = Some (w', [], Raise (Exn "SystemExit" "All mirrors unreachable.")) ∧
    fs w' = fs w ∧ out w' = out w ∧ pools w' = pools w.
Proof.
  intros Hdir. unfold download_archives, makedirs. rewrite Hdir.
  eexists. split; [reflexivity|]. auto.
Qed.

Lemma X17_witness :
  truthy "archives" = true ∧
  ∃ w',
    download_archives E_up [] ver_path_640 [] "archives" (5, 10)%Q
      (15, 5, 3)%Q w_init
    = Some (w', [], Raise (Exn "SystemExit" "All mirrors unreachable.")) ∧
    fs w' = fs w_init ∧ out w' = out w_init ∧ pools w' = pools w_init.
Proof.
  split; [reflexivity|].
  apply (X17_download_archives_without_mirrors E_up). reflexivity.
Defined.

(* ===================================================================== *)
(** * [remove_archives]                                                   *)
(* ===================================================================== *)

Section RemoveArchives.
Context (archives_dir : string).

Lemma remove_each_spec :
  ∀ archives w,
    ∃ w' r,
      remove_each archives archives_dir w = (w', r) ∧
      dirs w' = dirs w ∧ out w' = out w ∧
      (∀ p, p ∉ paths archives archives_dir → fs w' !! p = fs w !! p) ∧
      match r with
      | Return _ =>
          NoDup (paths archives archives_dir) ∧
          (∀ p, p ∈ paths archives archives_dir → is_Some (fs w !! p)) ∧
          (∀ p, p ∈ paths archives archives_dir → fs w' !! p = None)
      | Raise e =>
          (∃ p, p ∈ paths archives archives_dir ∧
                e = Exn "FileNotFoundError" p) ∧
          ¬ (NoDup (paths archives archives_dir) ∧
             ∀ p, p ∈ paths archives archives_dir → is_Some (fs w !! p))
      end.
Proof.
  induction archives as [|a l IH]; intros w; cbn [remove_each paths map].
  - exists w, (Return tt). split; [reflexivity|].
    repeat split; auto using NoDup_nil_2;
      intros p Hp; by apply not_elem_of_nil in Hp.
  - fold (paths l archives_dir).
    set (p0 := get_archive_filepath a.2 archives_dir).
    unfold bind at 1, remove at 1.
    destruct (fs w !! p0) as [c|] eqn:Hp0.
    + destruct (IH (set_fs (delete p0 (fs w)) w))
        as (w' & r & Hrun & Hd & Ho & Hframe & Hr).
      cbn [set_fs fs dirs out] in Hd, Ho, Hframe, Hr.
      exists w', r. split; [exact Hrun|]. split; [exact Hd|].
      split; [exact Ho|]. split.
      { intros p Hp. apply not_elem_of_cons in Hp as [Hne Hp].
        rewrite Hframe by exact Hp. by apply lookup_delete_ne. }
      assert (Hnotin : (∀ p, p ∈ paths l archives_dir →
                             is_Some (delete p0 (fs w) !! p)) →
                       p0 ∉ paths l archives_dir).
      { intros Hall Hin. destruct (Hall p0 Hin) as [x Hx].
        by rewrite lookup_delete_eq in Hx. }
      destruct r as [[]|e].
      * destruct Hr as (Hnodup & Hall & Hgone).
        split; [apply NoDup_cons; auto|]. split.
        -- intros p [->|Hin]%elem_of_cons; [by rewrite Hp0|].
           destruct (Hall p Hin) as [x Hx].
           apply lookup_delete_Some in Hx as [_ Hx]. by rewrite Hx.
        -- intros p [->|Hin]%elem_of_cons; [|by apply Hgone].
           rewrite Hframe by auto. apply lookup_delete_eq.
      * destruct Hr as ((p & Hin & ->) & Hnot). split.
        -- exists p. split; [by right|reflexivity].
        -- intros [Hnodup Hall]. apply Hnot.
           apply NoDup_cons in Hnodup as [Hp0' Hnodup].
           split; [exact Hnodup|]. intros q Hq.
           destruct (Hall q ltac:(by right)) as [x Hx]. exists x.
           apply lookup_delete_Some. split; [|exact Hx]. by intros <-.
    + exists w, (Raise (Exn "FileNotFoundError" p0)).
      split; [reflexivity|]. repeat split; auto.
      * exists p0. split; [by left|reflexivity].
      * intros [_ Hall]. destruct (Hall p0 ltac:(by left)) as [x Hx].
        congruence.
Qed.

End RemoveArchives.

(** X18. [remove_archives] returns normally exactly when the
    destinations of the archives are pairwise distinct files that all
    exist; it has then removed every one of them.  Otherwise it raises
    the [FileNotFoundError] of one of the destinations (the first one
    that is not there any more when its turn comes), which is always the
    case when two archives share a file.  Either way no other file is
    touched. *)
Theorem X18_remove_archives
    (archives : list (string * archive_info)) (archives_dir : string)
    (w : world) :
  ∃ w' r,
    remove_archives archives archives_dir w = (w', r) ∧
    (∀ p, p ∉ paths archives archives_dir → fs w' !! p = fs w !! p) ∧
    (r = Return tt ↔
     NoDup (paths archives archives_dir) ∧
     ∀ p, p ∈ paths archives archives_dir → is_Some (fs w !! p)) ∧
    (r = Return tt →
     ∀ p, p ∈ paths archives archives_dir → fs w' !! p = None) ∧
    (∀ e, r = Raise e →
          ∃ p, p ∈ paths archives archives_dir ∧
               e = Exn "FileNotFoundError" p).
Proof.
  unfold remove_archives, bind.
  destruct (remove_each_spec archives_dir archives w)
    as (w1 & r1 & -> & _ & _ & Hframe & Hr).
  destruct r1 as [[]|e].
  - destruct Hr as (Hnodup & Hall & Hgone).
    unfold rmdir_suppressed.
    destruct (_ && _); eexists _, _; (split; [reflexivity|]);
      cbn [set_dirs fs]; repeat split; auto; discriminate.
  - destruct Hr as [Hp Hnot]. exists w1, (Raise e).
    split; [reflexivity|]. split; [exact Hframe|].
    split; [split; [discriminate|contradiction]|].
    split; [discriminate|]. by intros e' [= <-].
Qed.

(* ===================================================================== *)
(** * The choice of the archives                                          *)
(* ===================================================================== *)

Section Dict.
Context {V : Type}.
Implicit Types (d : list (string * V)) (k : string) (v : V).

Lemma dict_get_set k k' v d :
  dict_get k (dict_set k' v d)
  = if decide (k' = k) then Some v else dict_get k d.
Proof.
  induction d as [|[k0 v0] d IH]; cbn [dict_set dict_get].
  - reflexivity.
  - destruct (decide (k0 = k')) as [->|Hne]; cbn [dict_get].
    + destruct (decide (k' = k)); reflexivity.
    + rewrite IH. destruct (decide (k0 = k)) as [->|?]; [|reflexivity].
      by rewrite decide_False by congruence.
Qed.

Lemma dict_get_keys k d : is_Some (dict_get k d) ↔ k ∈ keys d.
Proof.
  induction d as [|[k0 v0] d IH]; cbn [dict_get keys map fst].
  - split; [by intros [? ?]|by intros ?%not_elem_of_nil].
  - rewrite elem_of_cons. destruct (decide (k0 = k)) as [->|Hne].
    + split; [by left|by eexists].
    + rewrite IH. unfold keys. split; [by right|]. by intros [?|?].
Qed.

Lemma keys_dict_set k v d :
  keys (dict_set k v d)
  = if decide (k ∈ keys d) then keys d else keys d ++ [k].
Proof.
  induction d as [|[k0 v0] d IH]; cbn [dict_set keys map fst app].
  - by rewrite decide_False by apply not_elem_of_nil.
  - fold (keys d). destruct (decide (k0 = k)) as [->|Hne].
    + cbn [map fst]. by rewrite decide_True by left.
    + cbn [map fst]. fold (keys (dict_set k v d)). rewrite IH.
      destruct (decide (k ∈ keys d)) as [Hin|Hnin].
      * by rewrite decide_True by by right.
      * rewrite decide_False; [reflexivity|].
        intros [?|?]%elem_of_cons; [congruence|done].
Qed.

End Dict.

Lemma distinct_elem_of k l : k ∈ distinct l ↔ k ∈ l.
Proof.
  induction l as [|k0 l IH]; cbn [distinct]; [reflexivity|].
  rewrite !elem_of_cons, list_elem_of_filter, IH.
  destruct (decide (k = k0)) as [->|Hne].
  - split; intros _; by left.
  - split; [intros [?|[_ ?]]; [done|by right]|].
    intros [?|?]; [done|by right].
Qed.

Lemma distinct_NoDup l : NoDup (distinct l).
Proof.
  induction l as [|k0 l IH]; cbn [distinct]; [apply NoDup_nil_2|].
  apply NoDup_cons. split; [|by apply NoDup_filter].
  intros [Hne _]%list_elem_of_filter. by apply Hne.
Qed.

Lemma filter_not_in_nil (l : list string) :
  filter (fun k => k ∉ []) l = l.
Proof.
  induction l as [|x l IH]; [reflexivity|].
  rewrite filter_cons_True; [by rewrite IH|apply not_elem_of_nil].
Qed.

Section Select.
Context (available_archives : list (string * archive_info)).
Context (arch ver_info_JSON : string).

Lemma select_loop_spec :
  ∀ requested archives,
    match select_loop requested available_archives arch ver_info_JSON
            archives with
    | Return res =>
        (∀ k, k ∈ requested → k ∈ keys available_archives) ∧
        (∀ k, dict_get k res
              = if decide (k ∈ requested)
                then dict_get k available_archives
                else dict_get k archives) ∧
        keys res
        = keys archives
            ++ filter (fun k => k ∉ keys archives) (distinct requested)
    | Raise e =>
        ∃ pre k post,
          requested = pre ++ k :: post ∧
          (∀ k', k' ∈ pre → k' ∈ keys available_archives) ∧
          (k ∉ keys available_archives) ∧
          e = Exn "SystemExit" (not_found_msg k arch ver_info_JSON)
    end.
Proof.
  induction requested as [|k rest IH]; intros archives;
    cbn [select_loop distinct].
  - split; [by intros k ?%not_elem_of_nil|]. split.
    + intros k. by rewrite decide_False by apply not_elem_of_nil.
    + by rewrite filter_nil, app_nil_r.
  - destruct (dict_get k available_archives) as [info|] eqn:Hk.
    + assert (Hin : k ∈ keys available_archives)
        by (apply dict_get_keys; by rewrite Hk).
      specialize (IH (dict_set k info archives)).
      destruct (select_loop rest _ _ _ _) as [res|e].
      * destruct IH as (Hall & Hget & Hkeys). split; [|split].
        -- by intros k' [->|?]%elem_of_cons; auto.
        -- intros k'. rewrite Hget, dict_get_set.
           destruct (decide (k' ∈ rest)) as [Hr|Hr].
           ++ by rewrite decide_True by by right.
           ++ destruct (decide (k = k')) as [<-|Hne].
              ** by rewrite decide_True by by left.
              ** rewrite decide_False; [reflexivity|].
                 intros [?|?]%elem_of_cons; [congruence|done].
        -- rewrite Hkeys, keys_dict_set.
           destruct (decide (k ∈ keys archives)) as [Hkin|Hknin].
           ++ rewrite filter_cons_False by (intros H; by apply H).
              rewrite list_filter_filter. f_equal.
              apply list_filter_iff. intros x. split; [|by intros [? _]].
              intros Hx. split; [exact Hx|]. by intros ->.
           ++ rewrite filter_cons_True by exact Hknin.
              rewrite <- app_assoc. cbn [app]. do 2 f_equal.
              rewrite list_filter_filter. apply list_filter_iff.
              intros x. rewrite elem_of_app, list_elem_of_singleton.
              split; [intros Hx; split; intros ?; apply Hx; auto|].
              intros [Hx Hne] [?|?]; auto.
      * destruct IH as (pre & k' & post & -> & Hpre & Hk' & ->).
        exists (k :: pre), k', post. split; [reflexivity|].
        split; [|by split].
        by intros x [->|?]%elem_of_cons; auto.
    + exists [], k, rest. split; [reflexivity|].
      split; [by intros ? ?%not_elem_of_nil|]. split; [|reflexivity].
      intros [x Hx]%dict_get_keys. congruence.
Qed.

End Select.

(** X19. When ["all"] is among the requested names, the archives chosen
    by [download_unpack_archives] are the whole table of the
    architecture, as it stands, whatever else was requested: the other
    names are not looked up, so that a name which is not in the table
    stops nothing. *)
Theorem X19_select_archives_all
    (requested : list string)
    (available_archives_per_arch :
       list (string * list (string * archive_info)))
    (available_archives : list (string * archive_info))
    (arch ver_info_JSON : string) :
  dict_get arch available_archives_per_arch = Some available_archives →
  "all" ∈ requested →
  select_archives requested available_archives_per_arch arch ver_info_JSON
  = Return available_archives.
Proof.
  intros Harch Hall. unfold select_archives. rewrite Harch.
  by rewrite bool_decide_eq_true_2.
Qed.

Lemma X19_witness :
  (dict_get "gcc_64" per_arch = Some table_gcc ∧
   "all" ∈ ["nosuch"; "all"]) ∧
  select_archives ["nosuch"; "all"] per_arch "gcc_64" "data/6.4.0.json"
  = Return table_gcc.
Proof.
  assert (H : "all" ∈ ["nosuch"; "all"]) by (right; left).
  split; [split; [reflexivity|exact H]|].
  apply (X19_select_archives_all ["nosuch"; "all"] per_arch table_gcc
           "gcc_64" "data/6.4.0.json" eq_refl H).
Defined.

(** X20. Without ["all"], and when every requested name is in the table
    of the architecture, the archives chosen are the requested names,
    each once and in the order of its first request, each with the entry
    the table has for it. *)
Theorem X20_select_archives_requested
    (requested : list string)
    (available_archives_per_arch :
       list (string * list (string * archive_info)))
    (available_archives : list (string * archive_info))
    (arch ver_info_JSON : string) :
  dict_get arch available_archives_per_arch = Some available_archives →
  "all" ∉ requested →
  (∀ k, k ∈ requested → k ∈ keys available_archives) →
  ∃ archives,
    select_archives requested available_archives_per_arch arch
      ver_info_JSON = Return archives ∧
    keys archives = distinct requested ∧
    NoDup (keys archives) ∧
    ∀ k, dict_get k archives
         = if decide (k ∈ requested) then dict_get k available_archives
           else None.
Proof.
  intros Harch Hall Hreq. unfold select_archives. rewrite Harch.
  rewrite bool_decide_eq_false_2 by exact Hall.
  pose proof (select_loop_spec available_archives arch ver_info_JSON
                requested []) as Hspec.
  destruct (select_loop requested available_archives arch ver_info_JSON [])
    as [res|e].
  - destruct Hspec as (_ & Hget & Hkeys). exists res.
    split; [reflexivity|].
    assert (Hk : keys res = distinct requested).
    { rewrite Hkeys. cbn [keys map app]. apply filter_not_in_nil. }
    split; [exact Hk|]. split; [rewrite Hk; apply distinct_NoDup|].
    exact Hget.
  - destruct Hspec as (pre & k & post & -> & _ & Hk & _).
    destruct Hk. apply Hreq. apply elem_of_app. right. by left.
Qed.

Lemma X20_witness :
  (dict_get "gcc_64" per_arch = Some table_gcc ∧
   ("all" ∉ ["qtsvg"; "qtbase"; "qtsvg"]) ∧
   ∀ k, k ∈ ["qtsvg"; "qtbase"; "qtsvg"] → k ∈ keys table_gcc) ∧
  ∃ archives,
    select_archives ["qtsvg"; "qtbase"; "qtsvg"] per_arch "gcc_64"
      "data/6.4.0.json" = Return archives ∧
    keys archives = distinct ["qtsvg"; "qtbase"; "qtsvg"] ∧
    NoDup (keys archives) ∧
    ∀ k, dict_get k archives
         = if decide (k ∈ ["qtsvg"; "qtbase"; "qtsvg"])
           then dict_get k table_gcc else None.
Proof.
  assert (Hall : "all" ∉ ["qtsvg"; "qtbase"; "qtsvg"])
    by (apply (bool_decide_unpack _); vm_compute; exact I).
  assert (Hreq : ∀ k, k ∈ ["qtsvg"; "qtbase"; "qtsvg"] → k ∈ keys table_gcc).
  { apply Forall_forall. apply (bool_decide_unpack _). vm_compute. exact I. }
  split; [split; [reflexivity|split; [exact Hall|exact Hreq]]|].
  apply (X20_select_archives_requested ["qtsvg"; "qtbase"; "qtsvg"]
           per_arch table_gcc "gcc_64" "data/6.4.0.json" eq_refl Hall Hreq).
Defined.

(** X21. Without ["all"], a requested name that is not in the table of
    the architecture ends the program: the exit message names the first
    such name in the order of the request, the architecture and the JSON
    file. *)
Theorem X21_select_archives_unknown_name
    (requested : list string)
    (available_archives_per_arch :
       list (string * list (string * archive_info)))
    (available_archives : list (string * archive_info))
    (arch ver_info_JSON : string) (pre post : list string) (k : string) :
  dict_get arch available_archives_per_arch = Some available_archives →
  requested = pre ++ k :: post →
  "all" ∉ requested →
  (∀ k', k' ∈ pre → k' ∈ keys available_archives) →
  k ∉ keys available_archives →
  select_archives requested available_archives_per_arch arch ver_info_JSON
  = Raise (Exn "SystemExit"
             ("'" +:+ k +:+ "' archive not found for arch '" +:+ arch
                +:+ "'" +:+ newline +:+ "    in " +:+ ver_info_JSON)).
Proof.
  intros Harch -> Hall Hpre Hk. unfold select_archives. rewrite Harch.
  rewrite bool_decide_eq_false_2 by exact Hall.
  pose proof (select_loop_spec available_archives arch ver_info_JSON
                (pre ++ k :: post) []) as Hspec.
  destruct (select_loop (pre ++ k :: post) available_archives arch
              ver_info_JSON []) as [res|e].
  - destruct Hspec as (Hin & _). destruct Hk. apply Hin.
    apply elem_of_app. right. by left.
  - destruct Hspec as (pre' & k' & post' & Heq & Hpre' & Hk' & ->).
    assert (pre = pre' ∧ k = k') as [_ <-]; [|reflexivity].
    clear -Heq Hpre Hk Hpre' Hk'.
    revert pre' Heq Hpre'. induction pre as [|a pre IH]; intros pre' Heq Hpre'.
    + destruct pre' as [|b pre']; cbn [app] in Heq.
      * by injection Heq as -> _.
      * injection Heq as -> _. destruct Hk. apply Hpre'. by left.
    + destruct pre' as [|b pre']; cbn [app] in Heq.
      * injection Heq as -> _. destruct Hk'. apply Hpre. by left.
      * injection Heq as -> Heq.
        destruct (IH ltac:(intros; apply Hpre; by right) pre' Heq
                    ltac:(intros; apply Hpre'; by right)) as [-> ->].
        done.
Qed.

Lemma X21_witness :
  (dict_get "gcc_64" per_arch = Some table_gcc ∧
   ["qtbase"; "qtdoc"; "nosuch"] = ["qtbase"] ++ "qtdoc" :: ["nosuch"] ∧
   ("all" ∉ ["qtbase"; "qtdoc"; "nosuch"]) ∧
   (∀ k', k' ∈ ["qtbase"] → k' ∈ keys table_gcc) ∧
   "qtdoc" ∉ keys table_gcc) ∧
  select_archives ["qtbase"; "qtdoc"; "nosuch"] per_arch "gcc_64"
    "data/6.4.0.json"
  = Raise (Exn "SystemExit"
             ("'" +:+ "qtdoc" +:+ "' archive not found for arch '"
                +:+ "gcc_64" +:+ "'" +:+ newline +:+ "    in "
                +:+ "data/6.4.0.json")).
Proof.
  assert (Hall : "all" ∉ ["qtbase"; "qtdoc"; "nosuch"])
    by (apply (bool_decide_unpack _); vm_compute; exact I).
  assert (Hpre : ∀ k', k' ∈ ["qtbase"] → k' ∈ keys table_gcc).
  { apply Forall_forall. apply (bool_decide_unpack _). vm_compute. exact I. }
  assert (Hk : "qtdoc" ∉ keys table_gcc)
    by (apply (bool_decide_unpack _); vm_compute; exact I).
  split; [split; [reflexivity|split; [reflexivity|auto]]|].
  apply (X21_select_archives_unknown_name ["qtbase"; "qtdoc"; "nosuch"]
           per_arch table_gcc "gcc_64" "data/6.4.0.json" ["qtbase"]
           ["nosuch"] "qtdoc" eq_refl eq_refl Hall Hpre Hk).
Defined.

(* ===================================================================== *)
(** * The names of packages and archives                                  *)
(* ===================================================================== *)

Section Names.
Implicit Types (needle s t : string).

Lemma prefix_nil_l s : String.prefix "" s = true.
Proof. by destruct s. Qed.

Lemma prefix_cons c a d b :
  String.prefix (String c a) (String d b)
  = bool_decide (c = d) && String.prefix a b.
Proof.
  cbn [String.prefix]. destruct (Ascii.ascii_dec c d) as [->|Hne].
  - by rewrite bool_decide_eq_true_2.
  - by rewrite bool_decide_eq_false_2.
Qed.

Lemma prefix_trans a b c :
  String.prefix a b = true → String.prefix b c = true →
  String.prefix a c = true.
Proof.
  revert b c. induction a as [|x a IH]; intros b c;
    [intros; apply prefix_nil_l|].
  destruct b as [|y b]; [discriminate|].
  destruct c as [|z c]; [discriminate|].
  rewrite !prefix_cons.
  intros [Hxy Hab]%andb_true_iff [Hyz Hbc]%andb_true_iff.
  apply bool_decide_eq_true_1 in Hxy, Hyz. subst.
  rewrite bool_decide_eq_true_2 by reflexivity. exact (IH b c Hab Hbc).
Qed.

Lemma occurs_in_cons needle c s :
  occurs_in needle (String c s)
  = String.prefix needle (String c s) || occurs_in needle s.
Proof. reflexivity. Qed.

Lemma prefix_occurs needle s :
  String.prefix needle s = true → occurs_in needle s = true.
Proof. intros H. destruct s; cbn [occurs_in]; by rewrite H. Qed.

Lemma occurs_in_suffix needle t s :
  is_suffix t s → occurs_in needle t = true → occurs_in needle s = true.
Proof.
  intros [pre ->] Ht. induction pre as [|c pre IH]; [exact Ht|].
  rewrite app_cons, occurs_in_cons, IH. apply orb_true_r.
Qed.

Lemma is_suffix_refl s : is_suffix s s.
Proof. by exists "". Qed.

Lemma is_suffix_cons c t s : is_suffix t s → is_suffix t (String c s).
Proof. intros [pre ->]. by exists (String c pre). Qed.

Lemma from_first_unfold needle s :
  from_first needle s
  = if String.prefix needle s then s
    else match s with
         | EmptyString => EmptyString
         | String _ rest => from_first needle rest
         end.
Proof. by destruct s. Qed.

Lemma from_first_suffix needle s : is_suffix (from_first needle s) s.
Proof.
  induction s as [|c s IH]; rewrite from_first_unfold;
    destruct (String.prefix needle _); try apply is_suffix_refl.
  by apply is_suffix_cons.
Qed.

Lemma from_first_starts needle s :
  occurs_in needle s = true →
  String.prefix needle (from_first needle s) = true.
Proof.
  induction s as [|c s IH]; rewrite from_first_unfold.
  - cbn [occurs_in]. rewrite orb_false_r. intros H. by rewrite H.
  - rewrite occurs_in_cons.
    destruct (String.prefix needle (String c s)) eqn:Hp; [done|].
    exact IH.
Qed.

Lemma from_first_id needle s :
  String.prefix needle s = true → from_first needle s = s.
Proof. intros H. by rewrite from_first_unfold, H. Qed.

Lemma last_after_dot_suffix s : is_suffix (last_after_dot s) s.
Proof.
  induction s as [|c s IH]; cbn [last_after_dot]; [apply is_suffix_refl|].
  destruct (occurs_in "." s); [by apply is_suffix_cons|].
  destruct (bool_decide (c = "."%char));
    [apply is_suffix_cons|]; apply is_suffix_refl.
Qed.

Lemma last_after_dot_no_dot s : occurs_in "." (last_after_dot s) = false.
Proof.
  induction s as [|c s IH]; cbn [last_after_dot]; [reflexivity|].
  destruct (occurs_in "." s) eqn:Hs; [exact IH|].
  destruct (bool_decide (c = "."%char)) eqn:Hc; [exact Hs|].
  rewrite occurs_in_cons, Hs, orb_false_r, prefix_cons.
  apply bool_decide_eq_false_1 in Hc.
  rewrite bool_decide_eq_false_2; [reflexivity|congruence].
Qed.

Lemma last_after_dot_id s :
  occurs_in "." s = false → last_after_dot s = s.
Proof.
  destruct s as [|c s]; [reflexivity|].
  rewrite occurs_in_cons, prefix_cons, prefix_nil_l, andb_true_r.
  intros [Hc Hs]%orb_false_iff. cbn [last_after_dot]. rewrite Hs.
  apply bool_decide_eq_false_1 in Hc.
  rewrite bool_decide_eq_false_2; [reflexivity|congruence].
Qed.

Lemma shorten_unfold s :
  shorten_archive_name s
  = if at_marker s then EmptyString
    else match s with
         | EmptyString => EmptyString
         | String c rest => String c (shorten_archive_name rest)
         end.
Proof. by destruct s. Qed.

Lemma shorten_prefix s : String.prefix (shorten_archive_name s) s = true.
Proof.
  induction s as [|c s IH]; rewrite shorten_unfold;
    destruct (at_marker _); try reflexivity.
  rewrite prefix_cons, IH. by rewrite bool_decide_eq_true_2.
Qed.

Lemma shorten_split s :
  ∃ rest, s = shorten_archive_name s +:+ rest ∧
          (rest = "" ∨ at_marker rest = true).
Proof.
  induction s as [|c s (rest & Hs & Hrest)]; rewrite shorten_unfold.
  - exists "". by destruct (at_marker "") ; split; auto.
  - destruct (at_marker (String c s)) eqn:Hm.
    + exists (String c s). split; [reflexivity|by right].
    + exists rest. split; [|exact Hrest]. rewrite app_cons. by f_equal.
Qed.

Lemma shorten_no_marker m :
  String.prefix m "" = false →
  (∀ s, String.prefix m s = true → at_marker s = true) →
  ∀ s, occurs_in m (shorten_archive_name s) = false.
Proof.
  intros Hm Hat.
  assert (Hnil : occurs_in m "" = false)
    by (cbn [occurs_in]; by rewrite Hm).
  induction s as [|c s IH]; rewrite shorten_unfold.
  - by destruct (at_marker "").
  - destruct (at_marker (String c s)) eqn:Hc; [exact Hnil|].
    rewrite occurs_in_cons, IH, orb_false_r.
    destruct (String.prefix m (String c (shorten_archive_name s))) eqn:Hp;
      [|reflexivity].
    rewrite <- Hc. symmetry. apply Hat.
    apply (prefix_trans _ _ _ Hp).
    rewrite prefix_cons, shorten_prefix.
    by rewrite bool_decide_eq_true_2.
Qed.

Lemma shorten_id s :
  occurs_in "-Windows" s = false → occurs_in "-Linux" s = false →
  occurs_in "-MacOS" s = false →
  shorten_archive_name s = s.
Proof.
  induction s as [|c s IH]; [reflexivity|].
  rewrite !occurs_in_cons.
  intros [Hw Hw']%orb_false_iff [Hl Hl']%orb_false_iff
    [Hm Hm']%orb_false_iff.
  rewrite shorten_unfold. unfold at_marker. rewrite Hw, Hl, Hm.
  cbn [orb]. f_equal. by apply IH.
Qed.

End Names.

(** X22. [arch_from_pkg_name] returns an end of the package name.  When
    the name contains [debug_info], the end begins with it (at its first
    occurrence); otherwise the end has no dot in it and is the name
    itself when the name has none.  Applying the function to its own
    result changes nothing. *)
Theorem X22_arch_from_pkg_name (pkg_name : string) :
  is_suffix (arch_from_pkg_name pkg_name) pkg_name ∧
  arch_from_pkg_name (arch_from_pkg_name pkg_name)
  = arch_from_pkg_name pkg_name ∧
  (if occurs_in "debug_info" pkg_name
   then String.prefix "debug_info" (arch_from_pkg_name pkg_name) = true
   else occurs_in "." (arch_from_pkg_name pkg_name) = false ∧
        (occurs_in "." pkg_name = false →
         arch_from_pkg_name pkg_name = pkg_name)).
Proof.
  destruct (occurs_in "debug_info" pkg_name) eqn:Hd.
  - assert (Hr : arch_from_pkg_name pkg_name
                 = from_first "debug_info" pkg_name)
      by (unfold arch_from_pkg_name; by rewrite Hd).
    rewrite Hr. split; [apply from_first_suffix|].
    pose proof (from_first_starts _ _ Hd) as Hp. split; [|exact Hp].
    unfold arch_from_pkg_name. rewrite (prefix_occurs _ _ Hp).
    by apply from_first_id.
  - assert (Hr : arch_from_pkg_name pkg_name = last_after_dot pkg_name)
      by (unfold arch_from_pkg_name; by rewrite Hd).
    rewrite Hr. split; [apply last_after_dot_suffix|]. split.
    + unfold arch_from_pkg_name.
      destruct (occurs_in "debug_info" (last_after_dot pkg_name)) eqn:Hd'.
      * rewrite (occurs_in_suffix _ _ _ (last_after_dot_suffix pkg_name) Hd')
          in Hd. discriminate.
      * apply last_after_dot_id, last_after_dot_no_dot.
    + split; [apply last_after_dot_no_dot|apply last_after_dot_id].
Qed.

(** X23. [shorten_archive_name] returns a beginning of the archive name
    that contains none of [-Windows], [-Linux] and [-MacOS]; what it
    leaves out is nothing or begins with one of the three.  A name
    without any of them is returned whole, and applying the function to
    its own result changes nothing. *)
Theorem X23_shorten_archive_name (archive : string) :
  String.prefix (shorten_archive_name archive) archive = true ∧
  (∃ rest, archive = shorten_archive_name archive +:+ rest ∧
           (rest = "" ∨ at_marker rest = true)) ∧
  (∀ m, m ∈ ["-Windows"; "-Linux"; "-MacOS"] →
        occurs_in m (shorten_archive_name archive) = false) ∧
  shorten_archive_name (shorten_archive_name archive)
  = shorten_archive_name archive ∧
  ((∀ m, m ∈ ["-Windows"; "-Linux"; "-MacOS"] →
         occurs_in m archive = false) →
   shorten_archive_name archive = archive).
Proof.
  assert (Hno : ∀ s m, m ∈ ["-Windows"; "-Linux"; "-MacOS"] →
                       occurs_in m (shorten_archive_name s) = false).
  { intros s m Hm. apply shorten_no_marker.
    - repeat (apply elem_of_cons in Hm as [->|Hm]; [reflexivity|]).
      by apply not_elem_of_nil in Hm.
    - intros t Ht. unfold at_marker.
      repeat (apply elem_of_cons in Hm as [->|Hm];
              [rewrite Ht; by rewrite ?orb_true_r|]).
      by apply not_elem_of_nil in Hm. }
  assert (Hid : ∀ s, (∀ m, m ∈ ["-Windows"; "-Linux"; "-MacOS"] →
                           occurs_in m s = false) →
                     shorten_archive_name s = s).
  { intros s Hs. apply shorten_id; apply Hs.
    - by left.
    - right. by left.
    - right. right. by left. }
  split; [apply shorten_prefix|]. split; [apply shorten_split|].
  split; [apply Hno|]. split; [|apply Hid].
  apply Hid. apply Hno.
Qed.

(* ===================================================================== *)
(** * A download that fails its check                                     *)
(* ===================================================================== *)

Lemma occurs_in_refl s : occurs_in s s = true.
Proof.
  apply prefix_occurs. induction s as [|c s IH]; [reflexivity|].
  rewrite prefix_cons, IH. by rewrite bool_decide_eq_true_2.
Qed.

Lemma occurs_in_app_here needle rest :
  occurs_in needle (needle +:+ rest) = true.
Proof. apply prefix_occurs, prefix_app. Qed.

Lemma occurs_in_app_r needle pre s :
  occurs_in needle s = true → occurs_in needle (pre +:+ s) = true.
Proof. apply occurs_in_suffix. by exists pre. Qed.

Lemma mismatch_msg_names info computed_hash archive_filepath URL :
  occurs_in (sha256 info)
    (mismatch_msg info computed_hash archive_filepath URL) = true ∧
  occurs_in computed_hash
    (mismatch_msg info computed_hash archive_filepath URL) = true ∧
  occurs_in archive_filepath
    (mismatch_msg info computed_hash archive_filepath URL) = true ∧
  occurs_in URL
    (mismatch_msg info computed_hash archive_filepath URL) = true.
Proof.
  unfold mismatch_msg.
  repeat split;
    repeat first [apply occurs_in_refl
                 |apply occurs_in_app_here
                 |apply occurs_in_app_r].
Qed.

(** X24. When the file on disk is not already the expected one, the
    request succeeds and the hash of what it left at the destination is
    not accepted, [_download_archive] raises a [HashMismathError] whose
    message names the expected hash, the computed hash, the file and the
    URL, and it leaves the world as the request left it: the rejected
    file stays at the destination, where the next run will again not
    take it for valid. *)
Theorem X24_download_archive_keeps_the_rejected_file
    (E : env) (info : archive_info) (ver_path mirror_URL out_dir : string)
    (req_opts : Q * Q * Q) (w w1 : world) (v : value) (content : string) :
  spec_isAlreadyValid E w (get_archive_filepath info out_dir) (sha256 info)
  = false →
  retrieve_URL E (archive_URL info ver_path mirror_URL)
    (get_archive_filepath info out_dir) req_opts w = (w1, Return v) →
  fs w1 !! get_archive_filepath info out_dir = Some content →
  hash_accepted (digest E HASH_ALG content) info = false →
  ∃ msg,
    _download_archive E info ver_path mirror_URL out_dir req_opts w
    = (w1, Raise (Exn "HashMismathError" msg)) ∧
    occurs_in (sha256 info) msg = true ∧
    occurs_in (digest E HASH_ALG content) msg = true ∧
    occurs_in (get_archive_filepath info out_dir) msg = true ∧
    occurs_in (archive_URL info ver_path mirror_URL) msg = true ∧
    spec_isAlreadyValid E w1 (get_archive_filepath info out_dir)
      (sha256 info) = false.
Proof.
  intros Hinvalid Hfetch Hfile Hrej.
  exists (mismatch_msg info (digest E HASH_ALG content)
            (get_archive_filepath info out_dir)
            (archive_URL info ver_path mirror_URL)).
  split.
  - rewrite _download_archive_unfold, Hinvalid.
    destruct (fetch_and_verify_spec E info ver_path mirror_URL out_dir
                req_opts w) as (w1' & r1 & Hrun & ->).
    cbv zeta in Hrun. rewrite Hfetch in Hrun. injection Hrun as <- <-.
    by rewrite Hfile, Hrej.
  - destruct (mismatch_msg_names info (digest E HASH_ALG content)
                (get_archive_filepath info out_dir)
                (archive_URL info ver_path mirror_URL))
      as (H1 & H2 & H3 & H4).
    do 4 (split; [assumption|]).
    rewrite <- (hash_accepted_on_disk E). by rewrite Hfile.
Qed.

Lemma X24_witness :
  (spec_isAlreadyValid E_up w_init
     (get_archive_filepath qtbase_tampered "archives")
     (sha256 qtbase_tampered) = false ∧
   retrieve_URL E_up
     (archive_URL qtbase_tampered ver_path_640 "https://mirror.example")
     (get_archive_filepath qtbase_tampered "archives") (15, 5, 3)%Q w_init
   = (World {["archives/6.4.0qtbase.7z" := "data"]} ∅ 1 0 0
        [Urlopen (archive_URL qtbase_tampered ver_path_640
                    "https://mirror.example") 15],
      Return (VStr "")) ∧
   fs (World {["archives/6.4.0qtbase.7z" := "data"]} ∅ 1 0 0
         [Urlopen (archive_URL qtbase_tampered ver_path_640
                     "https://mirror.example") 15])
   !! get_archive_filepath qtbase_tampered "archives" = Some "data" ∧
   hash_accepted (digest E_up HASH_ALG "data") qtbase_tampered = false) ∧
  ∃ msg,
    _download_archive E_up qtbase_tampered ver_path_640
      "https://mirror.example" "archives" (15, 5, 3)%Q w_init
    = (World {["archives/6.4.0qtbase.7z" := "data"]} ∅ 1 0 0
         [Urlopen (archive_URL qtbase_tampered ver_path_640
                     "https://mirror.example") 15],
       Raise (Exn "HashMismathError" msg)) ∧
    occurs_in (sha256 qtbase_tampered) msg = true ∧
    occurs_in (digest E_up HASH_ALG "data") msg = true ∧
    occurs_in (get_archive_filepath qtbase_tampered "archives") msg = true ∧
    occurs_in
      (archive_URL qtbase_tampered ver_path_640 "https://mirror.example")
      msg = true ∧
    spec_isAlreadyValid E_up
      (World {["archives/6.4.0qtbase.7z" := "data"]} ∅ 1 0 0
         [Urlopen (archive_URL qtbase_tampered ver_path_640
                     "https://mirror.example") 15])
      (get_archive_filepath qtbase_tampered "archives")
      (sha256 qtbase_tampered) = false.
Proof.
  assert (H1 : spec_isAlreadyValid E_up w_init
                 (get_archive_filepath qtbase_tampered "archives")
                 (sha256 qtbase_tampered) = false) by reflexivity.
  assert (H2 : retrieve_URL E_up
                 (archive_URL qtbase_tampered ver_path_640
                    "https://mirror.example")
                 (get_archive_filepath qtbase_tampered "archives")
                 (15, 5, 3)%Q w_init
               = (World {["archives/6.4.0qtbase.7z" := "data"]} ∅ 1 0 0
                    [Urlopen (archive_URL qtbase_tampered ver_path_640
                                "https://mirror.example") 15],
                  Return (VStr ""))) by (vm_compute; reflexivity).
  assert (H3 : fs (World {["archives/6.4.0qtbase.7z" := "data"]} ∅ 1 0 0
                     [Urlopen (archive_URL qtbase_tampered ver_path_640
                                 "https://mirror.example") 15])
               !! get_archive_filepath qtbase_tampered "archives"
               = Some "data") by (vm_compute; reflexivity).
  assert (H4 : hash_accepted (digest E_up HASH_ALG "data") qtbase_tampered
               = false) by reflexivity.
  split; [auto|].
  apply (X24_download_archive_keeps_the_rejected_file E_up qtbase_tampered
           ver_path_640 "https://mirror.example" "archives" (15, 5, 3)%Q
           w_init _ (VStr "") "data" H1 H2 H3 H4).
Defined.

(* ===================================================================== *)
(** * What [dump_JSON] leaves alone                                       *)
(* ===================================================================== *)

Lemma run_ops_quiet :
  ∀ ops fault w,
    out (run_ops fault ops w).1 = out w ∧
    dirs w ⊆ dirs (run_ops fault ops w).1.
Proof.
  induction ops as [|op ops IH]; intros fault w; [done|].
  assert (Hstep : out (exec op w).1 = out w ∧ dirs w ⊆ dirs (exec op w).1).
  { destruct op as [d|q|q chunk|src dst]; cbn [exec]; try done.
    - unfold makedirs. destruct (truthy d); cbn [fst set_dirs out dirs];
        split; auto. apply union_subseteq_l.
    - by destruct (fs w !! src). }
  rewrite run_ops_cons.
  assert (Hrest : ∀ f, out ((exec op ;;; run_ops f ops) w).1 = out w ∧
                       dirs w ⊆ dirs ((exec op ;;; run_ops f ops) w).1).
  { intros f. unfold bind. destruct (exec op w) as [w1 [u|e]] eqn:Hop;
      cbn [fst] in Hstep; [|exact Hstep].
    destruct (IH f w1) as (Ho & Hd). destruct Hstep as (Ho1 & Hd1).
    rewrite Ho. split; [exact Ho1|by etrans]. }
  destruct fault as [[|n]|]; [done|apply Hrest..].
Qed.

Lemma run_ops_frame (p : string) :
  ∀ ops fault w,
    (∀ op, op ∈ ops →
           match op with
           | Makedirs _ => True
           | OpenW q | WriteChunk q _ => q ≠ p
           | Replace src dst => src ≠ p ∧ dst ≠ p
           end) →
    fs (run_ops fault ops w).1 !! p = fs w !! p.
Proof.
  induction ops as [|op ops IH]; intros fault w Hops; [done|].
  assert (Hstep : fs (exec op w).1 !! p = fs w !! p).
  { specialize (Hops op ltac:(by left)).
    destruct op as [d|q|q chunk|src dst]; cbn [exec].
    - unfold makedirs. by destruct (truthy d).
    - cbn [fst write_file set_fs fs].
      by rewrite lookup_insert_ne by exact Hops.
    - cbn [fst write_file set_fs fs].
      by rewrite lookup_insert_ne by exact Hops.
    - destruct Hops as [Hsrc Hdst].
      destruct (fs w !! src); cbn [fst set_fs fs]; [|done].
      by rewrite lookup_insert_ne, lookup_delete_ne. }
  rewrite run_ops_cons.
  assert (Hrest : ∀ f, fs ((exec op ;;; run_ops f ops) w).1 !! p
                       = fs w !! p).
  { intros f. unfold bind. destruct (exec op w) as [w1 [u|e]] eqn:Hop;
      cbn [fst] in Hstep; [|exact Hstep].
    rewrite IH; [exact Hstep|]. intros; apply Hops; by right. }
  destruct fault as [[|n]|]; [done|apply Hrest..].
Qed.

(** X25. [dump_JSON] -- whether it returns or is stopped by a failure
    at any point -- changes no file other than [out_file] and
    [out_file.tmp], removes no directory and prints nothing. *)
Theorem X25_dump_JSON_touches_only_its_two_files
    (fault : option nat) (data : list string) (out_file : string)
    (w : world) :
  ∃ w' r,
    dump_JSON fault data out_file w = (w', r) ∧
    (∀ p, p ≠ out_file → p ≠ out_file +:+ ".tmp" →
          fs w' !! p = fs w !! p) ∧
    dirs w ⊆ dirs w' ∧
    out w' = out w.
Proof.
  destruct (dump_JSON fault data out_file w) as [w' r] eqn:Hrun.
  exists w', r. split; [reflexivity|].
  assert (Hw : w' = (dump_JSON fault data out_file w).1) by by rewrite Hrun.
  split.
  - intros p Hp Htmp. rewrite Hw. apply run_ops_frame.
    intros op. unfold dump_JSON_ops.
    rewrite elem_of_app, elem_of_cons, elem_of_app, list_elem_of_fmap,
      list_elem_of_singleton.
    intros [Hop|[->|[(chunk & -> & _)| ->]]]; try done.
    destruct (truthy (OsPath.dirname out_file));
      [apply list_elem_of_singleton in Hop as ->; exact I
      |by apply not_elem_of_nil in Hop].
  - rewrite Hw. destruct (run_ops_quiet (dump_JSON_ops data out_file)
                            fault w) as [Ho Hd]. by split.
Qed.
